(** * Campus Event Hub: registration and event handlers

    A shallow embedding of the Express/Mongoose backend:
    - the Mongoose schemas [User], [Event], [Registration] and [Bookmark]
      (models/User.js, models/Event.js, models/Registration.js,
      models/Bookmark.js),
    - the registration routes (routes/registrations.js),
    - the event routes (routes/events.js) and the bookmark routes
      (routes/bookmarks.js),
    - the authentication middleware (middleware/auth.js) and the
      validation chains of the event and registration routes
      (middleware/validation.js),
    and of the registration form of the event page
    (pages/EventDetail.jsx).

    A collection is a list of documents in insertion order, an ObjectId is
    its string form, a Date is its millisecond time stamp.  A handler is a
    function from the database before the request to the database after it
    and the JSON response; [await]ed calls that reject and [return res...]
    early exits are threaded through the [Flow] monad below.  The
    functions named after a request ([post_registrations], [put_event],
    ...) are the handlers, which read [req.user] and the body as the
    middleware in front of them leaves it; the functions [route_...] are
    the routes as they are mounted, middleware included. *)

From Stdlib Require Import ZArith String Ascii List Lia.
From stdpp Require Import base decidable option list strings pretty sorting.

Local Open Scope string_scope.
Local Open Scope list_scope.
Local Open Scope Z_scope.

(** ** Enumerations of the schemas *)

Inductive Role := student | society_head | admin.
Inductive EventType :=
  workshop | seminar | competition | cultural | sports | orientation | hackathon.
Inductive EventStatus := ev_draft | ev_published | ev_ongoing | ev_completed | ev_cancelled.
Inductive Mode := individual | team.
Inductive Status := pending | confirmed | waitlisted | cancelled | rejected.
Inductive MemberRole := role_leader | role_member.
Inductive InviteStatus := auto_added | invited | accepted | declined.

#[global] Instance Role_eq_dec : EqDecision Role.
Proof. solve_decision. Defined.
#[global] Instance EventType_eq_dec : EqDecision EventType.
Proof. solve_decision. Defined.
#[global] Instance EventStatus_eq_dec : EqDecision EventStatus.
Proof. solve_decision. Defined.
#[global] Instance Mode_eq_dec : EqDecision Mode.
Proof. solve_decision. Defined.
#[global] Instance Status_eq_dec : EqDecision Status.
Proof. solve_decision. Defined.
#[global] Instance MemberRole_eq_dec : EqDecision MemberRole.
Proof. solve_decision. Defined.
#[global] Instance InviteStatus_eq_dec : EqDecision InviteStatus.
Proof. solve_decision. Defined.

Definition EventType_to_string (t : EventType) : string :=
  match t with
  | workshop => "workshop" | seminar => "seminar" | competition => "competition"
  | cultural => "cultural" | sports => "sports" | orientation => "orientation"
  | hackathon => "hackathon"
  end.

Definition EventStatus_of_string (s : string) : option EventStatus :=
  if decide (s = "draft") then Some ev_draft
  else if decide (s = "published") then Some ev_published
  else if decide (s = "ongoing") then Some ev_ongoing
  else if decide (s = "completed") then Some ev_completed
  else if decide (s = "cancelled") then Some ev_cancelled
  else None.

Definition EventType_of_string (s : string) : option EventType :=
  if decide (s = "workshop") then Some workshop
  else if decide (s = "seminar") then Some seminar
  else if decide (s = "competition") then Some competition
  else if decide (s = "cultural") then Some cultural
  else if decide (s = "sports") then Some sports
  else if decide (s = "orientation") then Some orientation
  else if decide (s = "hackathon") then Some hackathon
  else None.

Definition Mode_of_string (s : string) : option Mode :=
  if decide (s = "individual") then Some individual
  else if decide (s = "team") then Some team
  else None.

Definition Status_of_string (s : string) : option Status :=
  if decide (s = "pending") then Some pending
  else if decide (s = "confirmed") then Some confirmed
  else if decide (s = "waitlisted") then Some waitlisted
  else if decide (s = "cancelled") then Some cancelled
  else if decide (s = "rejected") then Some rejected
  else None.

Definition MemberRole_of_string (s : string) : option MemberRole :=
  if decide (s = "leader") then Some role_leader
  else if decide (s = "member") then Some role_member
  else None.

Definition InviteStatus_of_string (s : string) : option InviteStatus :=
  if decide (s = "auto_added") then Some auto_added
  else if decide (s = "invited") then Some invited
  else if decide (s = "accepted") then Some accepted
  else if decide (s = "declined") then Some declined
  else None.

Definition InviteStatus_to_string (i : InviteStatus) : string :=
  match i with
  | auto_added => "auto_added" | invited => "invited"
  | accepted => "accepted" | declined => "declined"
  end.

(** ** Strings and identifiers *)

Definition ObjectId := string.

Definition is_hex_digit (c : ascii) : bool :=
  let n := nat_of_ascii c in
  ((48 <=? n) && (n <=? 57) || (65 <=? n) && (n <=? 70)
   || (97 <=? n) && (n <=? 102))%nat.

(** [mongoose.isValidObjectId] and the [isMongoId] validator on a string:
    24 hexadecimal digits. *)
Definition isValidObjectId (s : string) : bool :=
  bool_decide (String.length s = 24%nat) && forallb is_hex_digit (list_ascii_of_string s).

Definition is_whitespace (c : ascii) : bool :=
  let n := nat_of_ascii c in
  ((9 <=? n) && (n <=? 13) || (n =? 32))%nat.

Fixpoint trim_start (s : string) : string :=
  match s with
  | String c s' => if is_whitespace c then trim_start s' else s
  | EmptyString => EmptyString
  end.

Definition string_rev (s : string) : string :=
  string_of_list_ascii (rev (list_ascii_of_string s)).

(** [String.prototype.trim], on the ASCII white space characters. *)
Definition trim (s : string) : string :=
  string_rev (trim_start (string_rev (trim_start s))).

(** [s] between double quotes. *)
Definition quoted (s : string) : string :=
  String (ascii_of_nat 34) s +:+ String (ascii_of_nat 34) EmptyString.

(** JavaScript truthiness of an optional string and an optional number. *)
Definition truthy_string (s : option string) : bool :=
  match s with Some s => negb (bool_decide (s = "")) | None => false end.

Definition truthy_number (n : option Z) : bool :=
  match n with Some n => negb (n =? 0) | None => false end.

(** A raw JSON scalar of a request body. *)
Inductive JsValue :=
| JNull
| JBool (b : bool)
| JNumber (n : Z)
| JString (s : string).

(** Mongoose's casts of a raw value to the schema types [String], [Number]
    and [Date] (library code): the outer [None] is a [CastError], the inner
    [None] a value that is stored as absent. *)
Class SchemaCast := {
  cast_String : JsValue → option (option string);
  cast_Number : JsValue → option (option Z);
  cast_Date : JsValue → option (option Z)
}.

(** ** Errors and control flow of a handler *)

Inductive JsError :=
| ValidationError (messages : list string)
| CastError
| TypeError
| Error (msg : string)
| MongoServerError.

Inductive Flow (R A : Type) :=
| Next (a : A)
| Return (r : R)
| Throw (e : JsError).
Arguments Next {R A} a.
Arguments Return {R A} r.
Arguments Throw {R A} e.

#[global] Instance Flow_bind {R} : MBind (Flow R) := λ A B k m,
  match m with
  | Next a => k a
  | Return r => Return r
  | Throw e => Throw e
  end.
#[global] Instance Flow_ret {R} : MRet (Flow R) := λ A a, Next a.

(** [if (c) return r;] *)
Definition return_if {R} (c : bool) (r : R) : Flow R () :=
  if c then Return r else Next ().

(** ** Schemas *)

Definition to_lower (c : ascii) : ascii :=
  let n := nat_of_ascii c in
  if ((65 <=? n) && (n <=? 90))%nat then ascii_of_nat (n + 32) else c.

(** Mongoose's cast of a string to an ObjectId, read back as a string. *)
Definition castObjectId (s : string) : option ObjectId :=
  if isValidObjectId s
  then Some (string_of_list_ascii (to_lower <$> list_ascii_of_string s))
  else None.

(** [Model.findById(id)]: the document with that [_id], [null] when there is
    none, a rejected promise when [id] does not cast. *)
Definition findById {R D} (key : D → ObjectId) (coll : list D) (id : string)
    : Flow R (option D) :=
  match castObjectId id with
  | Some oid => Next (snd <$> list_find (λ d, key d = oid) coll)
  | None => Throw CastError
  end.

Module User.
Record t := mk {
  _id : ObjectId;
  name : string;
  email : string;
  role : Role
}.
End User.

Module Society.
Record t := mk {
  _id : ObjectId;
  name : string;
  head_id : ObjectId
}.
End Society.

Module FormField.
Record t := mk {
  field_id : string;
  label : string;
  field_type : string;
  is_required : bool;
  options : option (list string);
  order_index : Z
}.
End FormField.

Module Event.
Record t := mk {
  _id : ObjectId;
  title : string;
  description : string;
  event_type : EventType;
  start_datetime : Z;
  end_datetime : Z;
  venue : string;
  poster_url : option string;
  max_teams : option Z;
  registration_open : bool;
  registration_mode : Mode;
  min_team_size : Z;
  max_team_size : Z;
  registration_start_datetime : Z;
  registration_end_datetime : Z;
  society_id : option ObjectId;
  organizer_id : ObjectId;
  event_status : EventStatus;
  form_fields : list FormField.t;
  created_at : Z;
  updated_at : Z
}.

Definition set_event_status (st : EventStatus) (e : t) : t :=
  mk (_id e) (title e) (description e) (event_type e) (start_datetime e)
     (end_datetime e) (venue e) (poster_url e) (max_teams e)
     (registration_open e) (registration_mode e) (min_team_size e)
     (max_team_size e) (registration_start_datetime e)
     (registration_end_datetime e) (society_id e) (organizer_id e) st
     (form_fields e) (created_at e) (updated_at e).

Definition set_updated_at (now : Z) (e : t) : t :=
  mk (_id e) (title e) (description e) (event_type e) (start_datetime e)
     (end_datetime e) (venue e) (poster_url e) (max_teams e)
     (registration_open e) (registration_mode e) (min_team_size e)
     (max_team_size e) (registration_start_datetime e)
     (registration_end_datetime e) (society_id e) (organizer_id e)
     (event_status e) (form_fields e) (created_at e) now.

(** The first failing validator of a path, as Mongoose reports it. *)
Definition first_error (checks : list (bool * string)) : list string :=
  match list_find (λ c, fst c = false) checks with
  | Some (_, c) => [snd c]
  | None => []
  end.

(** The length of a string.  It counts bytes where the code counts UTF-16
    units: the same number on ASCII text. *)
Definition len (s : string) : Z := Z.of_nat (String.length s).

Definition validate_field (f : FormField.t) : list string :=
  first_error
    [ (negb (bool_decide (FormField.label f = "")), "Field label is required");
      (len (FormField.label f) <=? 100, "Label cannot exceed 100 characters") ]
  ++ first_error
    [ (negb (bool_decide (FormField.field_type f = "")), "Field type is required");
      (bool_decide (FormField.field_type f ∈
         ["short_text"; "long_text"; "number"; "email"; "phone"; "select";
          "multi_select"; "date"; "file"; "url"]),
       FormField.field_type f +:+ " is not a valid field type") ].

(** The validators of [eventSchema], run by [save] at time [now]; the
    result lists the messages of the [ValidationError], none when the
    document is valid. *)
Definition validate (now : Z) (e : t) : list string :=
  first_error
    [ (negb (bool_decide (title e = "")), "Please provide an event title");
      (5 <=? len (title e), "Title must be at least 5 characters");
      (len (title e) <=? 200, "Title cannot exceed 200 characters") ]
  ++ first_error
    [ (negb (bool_decide (description e = "")), "Please provide an event description");
      (10 <=? len (description e), "Description must be at least 10 characters") ]
  ++ first_error
    [ (now <? start_datetime e, "Event start datetime must be in the future") ]
  ++ first_error
    [ (start_datetime e <? end_datetime e,
       "Event end datetime must be after start datetime") ]
  ++ first_error
    [ (negb (bool_decide (venue e = "")), "Please provide event venue");
      (len (venue e) <=? 100, "Venue cannot exceed 100 characters") ]
  ++ first_error
    [ (match max_teams e with Some n => 1 <=? n | None => true end,
       "Maximum teams must be at least 1") ]
  ++ first_error
    [ (1 <=? min_team_size e, "Minimum team size must be at least 1") ]
  ++ first_error
    [ (1 <=? max_team_size e, "Maximum team size must be at least 1");
      (min_team_size e <=? max_team_size e,
       "Maximum team size must be greater than or equal to minimum team size") ]
  ++ first_error
    [ (registration_end_datetime e <? start_datetime e,
       "Registration end datetime must be before event start datetime") ]
  ++ concat (validate_field <$> form_fields e).
End Event.

Module Member.
(** A stored element of [members] ([memberSchema]). *)
Record t := mk {
  user_id : ObjectId;
  role : MemberRole;
  invite_status : InviteStatus;
  added_at : Z;
  responded_at : option Z
}.

(** The plain object a handler pushes on a members array; [undefined]
    properties are [None]. *)
Record data := mk_data {
  d_user_id : option string;
  d_email : option string;
  d_name : option string;
  d_role : string;
  d_invite_status : string
}.

Definition set_invite_status (i : InviteStatus) (m : t) : t :=
  mk (user_id m) (role m) i (added_at m) (responded_at m).

Definition set_responded_at (now : Z) (m : t) : t :=
  mk (user_id m) (role m) (invite_status m) (added_at m) (Some now).

(** [m.invite_status === 'accepted' || m.invite_status === 'auto_added'] *)
Definition counts_as_accepted (m : t) : bool :=
  bool_decide (invite_status m = accepted) || bool_decide (invite_status m = auto_added).

(** Validation of one pushed object against [memberSchema]: [user_id] is
    required, [role] and [invite_status] are enumerations; [email] and
    [name] are not paths of the schema and are dropped. *)
Definition validate (d : data) : list string :=
  match d_user_id d with
  | None => ["User ID is required"]
  | Some u => if isValidObjectId u then [] else ["Cast to ObjectId failed"]
  end
  ++ match MemberRole_of_string (d_role d) with
     | Some _ => []
     | None => [d_role d +:+ " is not a valid role"]
     end
  ++ match InviteStatus_of_string (d_invite_status d) with
     | Some _ => []
     | None => [d_invite_status d +:+ " is not a valid invite status"]
     end.

Definition cast (now : Z) (d : data) : option t :=
  u ← d_user_id d;
  oid ← castObjectId u;
  r ← MemberRole_of_string (d_role d);
  i ← InviteStatus_of_string (d_invite_status d);
  Some (mk oid r i now None).

#[global] Instance eq_dec : EqDecision t.
Proof. solve_decision. Defined.
End Member.

Module Answer.
(** A stored element of [answers] ([answerSchema]). *)
Record t := mk {
  field_id : string;
  field_label : string;
  value_text : option string;
  value_number : option Z;
  value_date : option Z
}.

(** The [answerData] object built by the create handler; a slot holds
    the submitted raw value. *)
Record data := mk_data {
  d_field_id : string;
  d_field_label : string;
  d_value_text : option JsValue;
  d_value_number : option JsValue;
  d_value_date : option JsValue
}.

Section Cast.
Context {casts : SchemaCast}.

Definition cast_slot {T} (c : JsValue → option (option T)) (v : option JsValue)
    : option (option T) :=
  match v with
  | None => Some None
  | Some v => c v
  end.

Definition validate (d : data) : list string :=
  (if decide (d_field_id d = "") then ["Field ID is required"] else [])
  ++ (if decide (d_field_label d = "") then ["Field label is required"] else [])
  ++ match cast_slot cast_String (d_value_text d) with
     | Some _ => [] | None => ["Cast to String failed"]
     end
  ++ match cast_slot cast_Number (d_value_number d) with
     | Some _ => [] | None => ["Cast to Number failed"]
     end
  ++ match cast_slot cast_Date (d_value_date d) with
     | Some _ => [] | None => ["Cast to Date failed"]
     end.

Definition cast (d : data) : option t :=
  vt ← cast_slot cast_String (d_value_text d);
  vn ← cast_slot cast_Number (d_value_number d);
  vd ← cast_slot cast_Date (d_value_date d);
  Some (mk (d_field_id d) (d_field_label d) vt vn vd).
End Cast.
End Answer.

Module Registration.
Record t := mk {
  _id : ObjectId;
  event_id : ObjectId;
  mode : Mode;
  leader_user_id : ObjectId;
  team_name : option string;
  status : Status;
  members : list Member.t;
  answers : list Answer.t;
  created_at : Z
}.

(** The [registrationData] object of the create handler. *)
Record data := mk_data {
  d_event_id : string;
  d_mode : Mode;
  d_leader_user_id : string;
  d_status : string;
  d_team_name : option string;
  d_members : option (list Member.data);
  d_answers : option (list Answer.data)
}.

Definition set_status (st : Status) (r : t) : t :=
  mk (_id r) (event_id r) (mode r) (leader_user_id r) (team_name r) st
     (members r) (answers r) (created_at r).

Definition set_members (ms : list Member.t) (r : t) : t :=
  mk (_id r) (event_id r) (mode r) (leader_user_id r) (team_name r) (status r)
     ms (answers r) (created_at r).

(** The [pre('save')] hook: for a team registration whose [members] path
    is modified, the member count is checked against the bounds of the
    event, when the event is found. *)
Definition pre_save (events : list Event.t) (members_modified : bool) (r : t)
    : option JsError :=
  if bool_decide (mode r = team) && members_modified then
    match snd <$> list_find (λ e, Event._id e = event_id r) events with
    | Some event =>
        let memberCount := Z.of_nat (length (members r)) in
        if memberCount <? Event.min_team_size event then
          Some (Error ("Team must have at least "
                       +:+ pretty (Event.min_team_size event) +:+ " members"))
        else if Event.max_team_size event <? memberCount then
          Some (Error ("Team cannot have more than "
                       +:+ pretty (Event.max_team_size event) +:+ " members"))
        else None
    | None => None
    end
  else None.

Section Cast.
Context {casts : SchemaCast}.

(** The validators of [registrationSchema] on a new document. *)
Definition validate (d : data) : list string :=
  (if isValidObjectId (d_event_id d) then [] else ["Cast to ObjectId failed"])
  ++ (if isValidObjectId (d_leader_user_id d) then [] else ["Cast to ObjectId failed"])
  ++ match d_team_name d with
     | Some n =>
         Event.first_error
           [ (Z.of_nat (String.length n) <=? 100,
              "Team name cannot exceed 100 characters");
             (negb (bool_decide (d_mode d = team))
              || negb (bool_decide (n = ""))
                 && negb (bool_decide (trim n = "")),
              "Team name is required for team registrations") ]
     | None => []
     end
  ++ match Status_of_string (d_status d) with
     | Some _ => []
     | None => [d_status d +:+ " is not a valid status"]
     end
  ++ concat (Member.validate <$> default [] (d_members d))
  ++ concat (Answer.validate <$> default [] (d_answers d)).

Definition cast (now : Z) (new_id : ObjectId) (d : data) : option t :=
  ev ← castObjectId (d_event_id d);
  ld ← castObjectId (d_leader_user_id d);
  st ← Status_of_string (d_status d);
  ms ← mapM (Member.cast now) (default [] (d_members d));
  ans ← mapM Answer.cast (default [] (d_answers d));
  Some (mk new_id ev (d_mode d) ld (d_team_name d) st ms ans now).
End Cast.
End Registration.

(** ** The database and the responses *)

Record Db := mkDb {
  users : list User.t;
  societies : list Society.t;
  events : list Event.t;
  registrations : list Registration.t
}.

Definition set_events (es : list Event.t) (db : Db) : Db :=
  mkDb (users db) (societies db) es (registrations db).

Definition set_registrations (rs : list Registration.t) (db : Db) : Db :=
  mkDb (users db) (societies db) (events db) rs.

(** What a request sees besides its own data: the clock and the ObjectId
    the driver generates for a new document. *)
Record Env := mkEnv { now : Z; new_id : ObjectId }.

(** [req.user], set by [authenticateToken]. *)
Record AuthUser := mkAuth { userId : string; user_role : string }.

(** An element of express-validator's [errors.array()]: the [path] of the
    field and the message of the validator it fails.  The other
    properties of the object, the constants [type] and [location] and the
    submitted [value], are left out. *)
Module FieldError.
Record t := mk { path : string; msg : string }.
End FieldError.

Inductive Payload :=
| no_payload
| errors_payload (errors : list string)
| validation_payload (errors : list FieldError.t) (details : list string)
| registration_payload (registration : Registration.t)
| registrations_payload (registrations : list Registration.t) (total : nat)
| event_payload (event : Event.t).

(** [res.status(code).json({ success, message, ... })] *)
Record Response := mkResponse {
  status_code : Z;
  success : bool;
  message : string;
  payload : Payload
}.

Definition fail (code : Z) (msg : string) : Response :=
  mkResponse code false msg no_payload.

Definition ok (code : Z) (msg : string) (p : Payload) : Response :=
  mkResponse code true msg p.

(** Runs the body of a handler: an early [return] and a caught exception
    leave the database as it was. *)
Definition handle (db : Db) (catch : JsError → Response)
    (body : Flow Response (Db * Response)) : Db * Response :=
  match body with
  | Next out => out
  | Return r => (db, r)
  | Throw e => (db, catch e)
  end.

(** A failure response, and a flow whose early [return]s are failures. *)
Definition is_failure (r : Response) : Prop :=
  success r = false ∧ 400 ≤ status_code r.

Definition returns_failures {A} (f : Flow Response A) : Prop :=
  match f with
  | Return r => is_failure r
  | _ => True
  end.

(** ** Request bodies of the registration routes *)

Module MemberInfo.
Record t := mk { email : string; name : string }.
End MemberInfo.

Module AnswerInput.
Record t := mk { field_id : string; value : option JsValue }.
End AnswerInput.

Module CreateBody.
Record t := mk {
  event_id : string;
  form_answers : option (list AnswerInput.t);
  team_members : option (list string);
  team_members_info : option (list MemberInfo.t);
  team_name : option string
}.
End CreateBody.

(** ** POST /api/registrations *)

Definition is_open_status (st : EventStatus) : bool :=
  bool_decide (st = ev_published) || bool_decide (st = ev_ongoing).

(** [Registration.findOne({ event_id, leader_user_id: userId })] *)
Definition findOne_registration {R} (rs : list Registration.t)
    (event_id userId : string) : Flow R (option Registration.t) :=
  match castObjectId event_id, castObjectId userId with
  | Some e, Some u =>
      Next (snd <$> list_find
              (λ r, Registration.event_id r = e ∧ Registration.leader_user_id r = u) rs)
  | _, _ => Throw CastError
  end.

(** [Registration.countDocuments({ event_id, status: { $in: ['pending', 'confirmed'] } })] *)
Definition count_active_registrations {R} (rs : list Registration.t)
    (event_id : string) : Flow R Z :=
  match castObjectId event_id with
  | Some e =>
      Next (Z.of_nat (length (filter
              (λ r, Registration.event_id r = e
                    ∧ (Registration.status r = pending ∨ Registration.status r = confirmed))
              rs)))
  | None => Throw CastError
  end.

(** The checks made before any registration data is built; the event is
    handed on when all of them pass. *)
Definition check_preconditions (env : Env) (user : AuthUser) (body : CreateBody.t)
    (db : Db) : Flow Response Event.t :=
  event ← findById Event._id (events db) (CreateBody.event_id body);
  match event with
  | None => Return (fail 404 "Event not found")
  | Some event =>
      return_if (negb (is_open_status (Event.event_status event)))
        (fail 400 "Registration is not open for this event");;
      return_if (negb (Event.registration_open event))
        (fail 400 "Registration is currently closed");;
      return_if (now env <? Event.registration_start_datetime event)
        (fail 400 "Registration has not started yet");;
      return_if (Event.registration_end_datetime event <? now env)
        (fail 400 "Registration deadline has passed");;
      existingRegistration ←
        findOne_registration (registrations db) (CreateBody.event_id body) (userId user);
      return_if (bool_decide (is_Some existingRegistration))
        (fail 409 "You are already registered for this event");;
      (if truthy_number (Event.max_teams event) then
         registrationCount ←
           count_active_registrations (registrations db) (CreateBody.event_id body);
         return_if (default 0 (Event.max_teams event) <=? registrationCount)
           (fail 400 "Event has reached maximum capacity")
       else Next ());;
      Next event
  end.

(** The loop over [team_members]: every identifier must be a user; the
    leader is skipped, every other identifier is pushed as invited. *)
Fixpoint push_team_members (users : list User.t) (userId : string)
    (team_members : list string) (members : list Member.data)
    : Flow Response (list Member.data) :=
  match team_members with
  | [] => Next members
  | memberId :: rest =>
      memberUser ← findById User._id users memberId;
      match memberUser with
      | None => Return (fail 404 ("User with ID " +:+ memberId +:+ " not found"))
      | Some _ =>
          if decide (memberId = userId) then
            push_team_members users userId rest members
          else
            push_team_members users userId rest
              (members ++ [Member.mk_data (Some memberId) None None "member" "invited"])
      end
  end.

(** The setters of the [email] path of [userSchema] ([lowercase], [trim]),
    on ASCII letters and white space. *)
Definition normalize_email (email : string) : string :=
  string_of_list_ascii (to_lower <$> list_ascii_of_string (trim email)).

(** [User.findOne({ email })]; the queried value passes the setters of the
    path. *)
Definition findOne_user_by_email (users : list User.t) (email : string)
    : option User.t :=
  snd <$> list_find (λ u, User.email u = normalize_email email) users.

(** The loop over [team_members_info]: a pair whose email belongs to a user
    is pushed with that user's identifier unless it is the leader; a pair
    whose email belongs to nobody is pushed with the email and the name. *)
Fixpoint push_team_members_info (users : list User.t) (userId : string)
    (team_members_info : list MemberInfo.t) (members : list Member.data)
    : list Member.data :=
  match team_members_info with
  | [] => members
  | memberInfo :: rest =>
      match findOne_user_by_email users (MemberInfo.email memberInfo) with
      | Some memberUser =>
          if decide (User._id memberUser ≠ userId) then
            push_team_members_info users userId rest
              (members ++ [Member.mk_data (Some (User._id memberUser)) None None
                             "member" "invited"])
          else push_team_members_info users userId rest members
      | None =>
          push_team_members_info users userId rest
            (members ++ [Member.mk_data None (Some (MemberInfo.email memberInfo))
                           (Some (MemberInfo.name memberInfo))
                           "member" "pending_registration"])
      end
  end.

(** The members array of a team registration, before the size check. *)
Definition assemble_members (users : list User.t) (userId : string)
    (body : CreateBody.t) : Flow Response (list Member.data) :=
  let members := [Member.mk_data (Some userId) None None "leader" "auto_added"] in
  members ←
    match CreateBody.team_members body with
    | Some team_members => push_team_members users userId team_members members
    | None => Next members
    end;
  Next match CreateBody.team_members_info body with
       | Some team_members_info =>
           push_team_members_info users userId team_members_info members
       | None => members
       end.

Definition check_team_size (event : Event.t) (members : list Member.data)
    : Flow Response () :=
  return_if (Z.of_nat (length members) <? Event.min_team_size event)
    (fail 400 ("Team must have at least "
               +:+ pretty (Event.min_team_size event) +:+ " members"));;
  return_if (Event.max_team_size event <? Z.of_nat (length members))
    (fail 400 ("Team cannot have more than "
               +:+ pretty (Event.max_team_size event) +:+ " members")).

(** The team branch of the handler: team name, members array, size. *)
Definition build_team (db : Db) (userId : string) (event : Event.t)
    (body : CreateBody.t) : Flow Response (list Member.data) :=
  return_if (negb (truthy_string (CreateBody.team_name body))
             || bool_decide (trim (default "" (CreateBody.team_name body)) = ""))
    (fail 400 "Team name is required for team events");;
  members ← assemble_members (users db) userId body;
  check_team_size event members;;
  Next members.

(** [event.form_fields.find(f => f.field_id === answer.field_id)] *)
Definition find_field (form_fields : list FormField.t) (field_id : string)
    : option FormField.t :=
  snd <$> list_find (λ f, FormField.field_id f = field_id) form_fields.

(** One turn of the loop over [form_answers]: [None] is the [continue]. *)
Definition answerData_of (form_fields : list FormField.t) (answer : AnswerInput.t)
    : option Answer.data :=
  match find_field form_fields (AnswerInput.field_id answer) with
  | None => None
  | Some field =>
      let field_id := AnswerInput.field_id answer in
      let field_label := FormField.label field in
      let value := AnswerInput.value answer in
      Some (if decide (FormField.field_type field = "number") then
              Answer.mk_data field_id field_label None value None
            else if decide (FormField.field_type field = "date") then
              Answer.mk_data field_id field_label None None value
            else
              Answer.mk_data field_id field_label value None None)
  end.

Definition process_answers (form_fields : list FormField.t)
    (form_answers : list AnswerInput.t) : list Answer.data :=
  omap (answerData_of form_fields) form_answers.

Section Create.
Context {casts : SchemaCast}.

(** [Registration.create(registrationData)]: schema validation, the
    pre-save hook, then the insert under the unique indexes on [_id] and
    on [(event_id, leader_user_id)]. *)
Definition Registration_create {R} (env : Env) (db : Db) (d : Registration.data)
    : Flow R (Db * Registration.t) :=
  match Registration.validate d, Registration.cast (now env) (new_id env) d with
  | [], Some r =>
      match Registration.pre_save (events db) (bool_decide (is_Some (Registration.d_members d))) r with
      | Some e => Throw e
      | None =>
          if bool_decide (Exists
               (λ r', Registration._id r' = Registration._id r
                      ∨ (Registration.event_id r' = Registration.event_id r
                         ∧ Registration.leader_user_id r' = Registration.leader_user_id r))
               (registrations db))
          then Throw MongoServerError
          else Next (set_registrations (registrations db ++ [r]) db, r)
      end
  | messages, _ => Throw (ValidationError messages)
  end.

Definition catch_create (e : JsError) : Response :=
  match e with
  | ValidationError messages =>
      mkResponse 400 false "Validation failed" (errors_payload messages)
  | _ => fail 500 "Server error during registration"
  end.

(** The handler of POST /api/registrations.  It is mounted behind
    [authenticateToken] and [validateRegistration]
    ([route_post_registrations]): [body] is [req.body] as the sanitizers
    leave it. *)
Definition post_registrations (env : Env) (user : AuthUser) (body : CreateBody.t)
    (db : Db) : Db * Response :=
  handle db catch_create (
    event ← check_preconditions env user body db;
    members ←
      (if decide (Event.registration_mode event = team)
       then members ← build_team db (userId user) event body; Next (Some members)
       else Next None);
    let registrationData :=
      Registration.mk_data (CreateBody.event_id body) (Event.registration_mode event)
        (userId user) "pending"
        (if decide (Event.registration_mode event = team)
         then CreateBody.team_name body else None)
        members
        (process_answers (Event.form_fields event) <$> CreateBody.form_answers body) in
    '(db', registration) ← Registration_create env db registrationData;
    Next (db', ok 201 "Registration successful" (registration_payload registration))).
End Create.

(** ** Saving a loaded registration *)

(** [updateOne({ _id })]: the first document with the identifier of [r] is
    replaced by [r]. *)
Fixpoint replace_registration (r : Registration.t) (rs : list Registration.t)
    : list Registration.t :=
  match rs with
  | [] => []
  | r' :: rs' =>
      if decide (Registration._id r' = Registration._id r) then r :: rs'
      else r' :: replace_registration r rs'
  end.

(** The validators of [registrationSchema] that a typed document can still
    fail: those of [team_name]. *)
Definition validate_loaded (r : Registration.t) : list string :=
  match Registration.team_name r with
  | Some n =>
      Event.first_error
        [ (Z.of_nat (String.length n) <=? 100,
           "Team name cannot exceed 100 characters");
          (negb (bool_decide (Registration.mode r = team))
           || negb (bool_decide (n = "")) && negb (bool_decide (trim n = "")),
           "Team name is required for team registrations") ]
  | None => []
  end.

(** [registration.save()] on a document loaded with [findById]:
    validation, the pre-save hook, then the write.  [members_modified] is
    [this.isModified('members')]: whether the handler has given the array
    or one of its elements a value that differs from the loaded one. *)
Definition Registration_save {R} (db : Db) (members_modified : bool)
    (r : Registration.t) : Flow R Db :=
  match validate_loaded r with
  | [] =>
      match Registration.pre_save (events db) members_modified r with
      | Some e => Throw e
      | None => Next (set_registrations (replace_registration r (registrations db)) db)
      end
  | messages => Throw (ValidationError messages)
  end.

(** [members.filter(m => m.invite_status === 'accepted' ||
    m.invite_status === 'auto_added').length] *)
Definition accepted_count (members : list Member.t) : Z :=
  Z.of_nat (length (filter (λ m, Member.counts_as_accepted m = true) members)).

(** [members.findIndex(m => m.user_id && m.user_id.toString() === id)] *)
Definition find_member (members : list Member.t) (id : string)
    : option (nat * Member.t) :=
  list_find (λ m, Member.user_id m = id) members.

(** ** GET /api/registrations *)

Module ListQuery.
Record t := mk {
  event_id : option string;
  status : option string;
  skip : option nat;
  limit : option nat
}.
End ListQuery.

(** The [$or] of the list filter.  The two conditions on [members] are
    separate conditions on the array: one element may carry the user and
    another the invite status (no [$elemMatch]). *)
Definition or_filter (u : ObjectId) (r : Registration.t) : Prop :=
  Registration.leader_user_id r = u
  ∨ (Exists (λ m, Member.user_id m = u) (Registration.members r)
     ∧ Exists (λ m, Member.invite_status m = accepted ∨ Member.invite_status m = auto_added)
         (Registration.members r)).

#[global] Instance or_filter_dec u r : Decision (or_filter u r).
Proof. unfold or_filter. apply _. Defined.

Record ListFilter := mkFilter {
  f_event_id : option ObjectId;
  f_or : option ObjectId;
  f_status : option string
}.

Definition matches (f : ListFilter) (r : Registration.t) : Prop :=
  from_option (λ e, Registration.event_id r = e) True (f_event_id f)
  ∧ from_option (λ u, or_filter u r) True (f_or f)
  ∧ from_option (λ s, Status_of_string s = Some (Registration.status r)) True (f_status f).

#[global] Instance matches_dec f r : Decision (matches f r).
Proof.
  unfold matches. destruct (f_event_id f), (f_or f), (f_status f); simpl; apply _.
Defined.

Definition catch_500 (msg : string) (e : JsError) : Response := fail 500 msg.

(** [.sort({ created_at: -1 })] *)
Definition newer_or_same (a b : Registration.t) : Prop :=
  Registration.created_at b ≤ Registration.created_at a.

#[global] Instance newer_or_same_dec a b : Decision (newer_or_same a b).
Proof. unfold newer_or_same. apply _. Defined.

Definition sort_newest_first (rs : list Registration.t) : list Registration.t :=
  merge_sort newer_or_same rs.

(** [.skip(n).limit(m)]; a limit of 0 is no limit. *)
Definition page (skip limit : nat) (rs : list Registration.t) : list Registration.t :=
  let rest := drop skip rs in
  if decide (limit = 0%nat) then rest else take limit rest.

(** The filter object the list handler builds, or its early response. *)
Definition build_filter (user : AuthUser) (q : ListQuery.t) (db : Db)
    : Flow Response ListFilter :=
  let status :=
    if truthy_string (ListQuery.status q) then ListQuery.status q else None in
  if truthy_string (ListQuery.event_id q) then
    let event_id := default "" (ListQuery.event_id q) in
    return_if (negb (isValidObjectId event_id)) (fail 400 "Invalid event ID");;
    event ← findById Event._id (events db) event_id;
    match event with
    | None => Return (fail 404 "Event not found")
    | Some event =>
        Next (mkFilter (Some event_id)
                (if bool_decide (Event.organizer_id event ≠ userId user)
                    && bool_decide (user_role user ≠ "admin")
                 then Some (userId user) else None)
                status)
    end
  else
    Next (mkFilter None (Some (userId user)) status).

(** The cast of the identifiers of a filter when the query is run. *)
Definition cast_filter {R} (f : ListFilter) : Flow R ListFilter :=
  match f_event_id f, castObjectId <$> f_event_id f,
        f_or f, castObjectId <$> f_or f with
  | Some _, Some None, _, _ => Throw CastError
  | _, _, Some _, Some None => Throw CastError
  | _, e, _, u => Next (mkFilter (mjoin e) (mjoin u) (f_status f))
  end.

Definition get_registrations (user : AuthUser) (q : ListQuery.t) (db : Db)
    : Db * Response :=
  handle db (catch_500 "Server error while fetching registrations") (
    f ← build_filter user q db;
    f ← cast_filter f;
    let found := filter (matches f) (registrations db) in
    let totalCount := length found in
    let registrations :=
      page (default 0%nat (ListQuery.skip q)) (default 20%nat (ListQuery.limit q))
        (sort_newest_first found) in
    Next (db, ok 200 "" (registrations_payload registrations totalCount))).

(** ** GET /api/registrations/invitations/pending *)

Definition get_pending_invitations (user : AuthUser) (db : Db) : Db * Response :=
  handle db (catch_500 "Server error while fetching invitations") (
    match castObjectId (userId user) with
    | None => Throw CastError
    | Some u =>
        let registrations :=
          filter (λ r, Exists (λ m, Member.user_id m = u ∧ Member.invite_status m = invited)
                          (Registration.members r))
            (registrations db) in
        Next (db, ok 200 "" (registrations_payload (sort_newest_first registrations)
                               (length registrations)))
    end).

(** ** PUT /api/registrations/:registrationId/invitation *)

Definition put_invitation (user : AuthUser) (registrationId : string)
    (action : option string) (db : Db) : Db * Response :=
  handle db (catch_500 "Server error while updating invitation") (
    return_if (negb (bool_decide (action = Some "accept") || bool_decide (action = Some "decline")))
      (fail 400 ("Invalid action. Must be " +:+ quoted "accept" +:+ " or "
                 +:+ quoted "decline"));;
    registration ← findById Registration._id (registrations db) registrationId;
    match registration with
    | None => Return (fail 404 "Registration not found")
    | Some registration =>
        match find_member (Registration.members registration) (userId user) with
        | None => Return (fail 404 "You are not invited to this team")
        | Some (memberIndex, member) =>
            return_if (bool_decide (Member.invite_status member ≠ invited))
              (fail 400 ("Invitation already "
                         +:+ InviteStatus_to_string (Member.invite_status member)));;
            let registration :=
              Registration.set_members
                (<[memberIndex :=
                     Member.set_invite_status
                       (if decide (action = Some "accept") then accepted else declined)
                       member]> (Registration.members registration))
                registration in
            db' ← Registration_save db true registration;
            Next (db', ok 200 ("Invitation " +:+ default "" action +:+ "ed successfully")
                         (registration_payload registration))
        end
    end).

(** ** POST /api/registrations/:registrationId/members *)

Module MemberToAdd.
Record t := mk { _id : string; name : string; email : string }.
End MemberToAdd.

Fixpoint push_members_to_add (env : Env) (users : list User.t)
    (members_to_add : list MemberToAdd.t) (members : list Member.t)
    : Flow Response (list Member.t) :=
  match members_to_add with
  | [] => Next members
  | memberInfo :: rest =>
      let alreadyExists :=
        bool_decide (Exists (λ m, Member.user_id m = MemberToAdd._id memberInfo) members) in
      if alreadyExists then push_members_to_add env users rest members
      else
        user ← findById User._id users (MemberToAdd._id memberInfo);
        match user with
        | Some user =>
            push_members_to_add env users rest
              (members ++ [Member.mk (User._id user) role_member invited (now env) None])
        | None => push_members_to_add env users rest members
        end
  end.

Definition post_members (env : Env) (user : AuthUser) (registrationId : string)
    (members_to_add : option (list MemberToAdd.t)) (db : Db) : Db * Response :=
  handle db (catch_500 "Server error while adding team members") (
    return_if (bool_decide (default [] members_to_add = []))
      (fail 400 "members_to_add array is required");;
    registration ← findById Registration._id (registrations db) registrationId;
    match registration with
    | None => Return (fail 404 "Registration not found")
    | Some registration =>
        return_if (bool_decide (Registration.leader_user_id registration ≠ userId user))
          (fail 403 "Only team leader can add members");;
        event ← findById Event._id (events db) (Registration.event_id registration);
        match event with
        | None => Return (fail 404 "Event not found")
        | Some event =>
            members ← push_members_to_add env (users db) (default [] members_to_add)
                        (Registration.members registration);
            return_if (Event.max_team_size event <? Z.of_nat (length members))
              (fail 400 ("Team size cannot exceed "
                         +:+ pretty (Event.max_team_size event) +:+ " members"));;
            let members_modified :=
              bool_decide (members ≠ Registration.members registration) in
            let registration := Registration.set_members members registration in
            db' ← Registration_save db members_modified registration;
            Next (db', ok 200 "Team members added successfully"
                         (registration_payload registration))
        end
    end).

(** ** DELETE /api/registrations/:registrationId/members/:memberId *)

Definition delete_member (user : AuthUser) (registrationId memberId : string)
    (db : Db) : Db * Response :=
  handle db (catch_500 "Server error while removing team member") (
    registration ← findById Registration._id (registrations db) registrationId;
    match registration with
    | None => Return (fail 404 "Registration not found")
    | Some registration =>
        return_if (bool_decide (Registration.leader_user_id registration ≠ userId user))
          (fail 403 "Only team leader can remove members");;
        match find_member (Registration.members registration) memberId with
        | None => Return (fail 404 "Member not found in team")
        | Some (memberIndex, memberToRemove) =>
            return_if (bool_decide (Member.role memberToRemove = role_leader))
              (fail 400 "Cannot remove team leader");;
            event ← findById Event._id (events db) (Registration.event_id registration);
            match event with
            | None => Return (fail 404 "Event not found")
            | Some event =>
                return_if
                  (Member.counts_as_accepted memberToRemove
                   && (accepted_count (Registration.members registration)
                       <=? Event.min_team_size event))
                  (fail 400 ("Cannot remove accepted member. Team must have at least "
                             +:+ pretty (Event.min_team_size event)
                             +:+ " accepted members"));;
                let registration :=
                  Registration.set_members
                    (delete memberIndex (Registration.members registration))
                    registration in
                db' ← Registration_save db true registration;
                Next (db', ok 200 "Team member removed successfully"
                             (registration_payload registration))
            end
        end
    end).

(** ** GET /api/registrations/:registrationId *)

Definition user_exists (users : list User.t) (id : ObjectId) : bool :=
  bool_decide (Exists (λ u, User._id u = id) users).

(** [members.some(m => m.user_id._id.toString() === userId)] on populated
    members: a member whose user is gone is [null] and the access throws. *)
Fixpoint some_member_is {R} (users : list User.t) (userId : string)
    (members : list Member.t) : Flow R bool :=
  match members with
  | [] => Next false
  | m :: rest =>
      if user_exists users (Member.user_id m) then
        if decide (Member.user_id m = userId) then Next true
        else some_member_is users userId rest
      else Throw TypeError
  end.

Definition get_registration (user : AuthUser) (registrationId : string) (db : Db)
    : Db * Response :=
  handle db (catch_500 "Server error while fetching registration") (
    return_if (negb (isValidObjectId registrationId)) (fail 400 "Invalid registration ID");;
    registration ← findById Registration._id (registrations db) registrationId;
    match registration with
    | None => Return (fail 404 "Registration not found")
    | Some registration =>
        event ← findById (R := Response) Event._id (events db)
                  (Registration.event_id registration);
        let isOrganizer :=
          match event with
          | Some event => bool_decide (Event.organizer_id event = userId user)
          | None => false
          end in
        isLeader ←
          (if user_exists (users db) (Registration.leader_user_id registration)
           then Next (bool_decide (Registration.leader_user_id registration = userId user))
           else Throw TypeError);
        isMember ← some_member_is (users db) (userId user) (Registration.members registration);
        let isAdmin := bool_decide (user_role user = "admin") in
        return_if (negb isOrganizer && negb isLeader && negb isMember && negb isAdmin)
          (fail 403 "You are not authorized to view this registration");;
        Next (db, ok 200 "" (registration_payload registration))
    end).

(** ** PUT /api/registrations/:registrationId/members/:memberId *)

Definition put_member (env : Env) (user : AuthUser) (registrationId memberId : string)
    (invite_status : option string) (db : Db) : Db * Response :=
  handle db (catch_500 "Server error while updating member status") (
    return_if (negb (isValidObjectId registrationId) || negb (isValidObjectId memberId))
      (fail 400 "Invalid registration or member ID");;
    return_if (negb (bool_decide (invite_status = Some "accepted")
                     || bool_decide (invite_status = Some "declined")))
      (fail 400 ("Invalid invite status. Must be " +:+ quoted "accepted" +:+ " or "
                 +:+ quoted "declined"));;
    registration ← findById Registration._id (registrations db) registrationId;
    match registration with
    | None => Return (fail 404 "Registration not found")
    | Some registration =>
        match find_member (Registration.members registration) memberId with
        | None => Return (fail 404 "Member not found in this registration")
        | Some (memberIndex, member) =>
            return_if (bool_decide (userId user ≠ memberId))
              (fail 403 "You can only update your own invite status");;
            let member :=
              Member.set_responded_at (now env)
                (Member.set_invite_status
                   (if decide (invite_status = Some "accepted") then accepted else declined)
                   member) in
            let members := <[memberIndex := member]> (Registration.members registration) in
            event ← findById Event._id (events db) (Registration.event_id registration);
            match event with
            | None => Throw TypeError
            | Some event =>
                let acceptedMembers := accepted_count members in
                let members_modified :=
                  bool_decide (members ≠ Registration.members registration) in
                let registration :=
                  let registration := Registration.set_members members registration in
                  if (Event.min_team_size event <=? acceptedMembers)
                     && (acceptedMembers <=? Event.max_team_size event)
                  then Registration.set_status confirmed registration
                  else registration in
                db' ← Registration_save db members_modified registration;
                Next (db', ok 200 ("Invitation " +:+ default "" invite_status)
                             (registration_payload registration))
            end
        end
    end).

(** ** DELETE /api/registrations/:registrationId *)

Definition delete_registration (user : AuthUser) (registrationId : string) (db : Db)
    : Db * Response :=
  handle db (catch_500 "Server error while cancelling registration") (
    return_if (negb (isValidObjectId registrationId)) (fail 400 "Invalid registration ID");;
    registration ← findById Registration._id (registrations db) registrationId;
    match registration with
    | None => Return (fail 404 "Registration not found")
    | Some registration =>
        let isLeader := bool_decide (Registration.leader_user_id registration = userId user) in
        let isMember :=
          bool_decide (Exists (λ m, Member.user_id m = userId user)
                         (Registration.members registration)) in
        let isAdmin := bool_decide (user_role user = "admin") in
        return_if (negb isLeader && negb isMember && negb isAdmin)
          (fail 403 "You are not authorized to cancel this registration");;
        let registration := Registration.set_status cancelled registration in
        db' ← Registration_save db false registration;
        Next (db', ok 200 "Registration cancelled successfully" no_payload)
    end).

(** ** The event routes that write events (routes/events.js) *)

Module FormFieldInput.
Record t := mk {
  field_id : option string;
  label : string;
  field_type : string;
  is_required : option bool;
  options : option (list string);
  order_index : Z
}.
End FormFieldInput.

Module EventBody.
(** The body of POST /api/events. *)
Record t := mk {
  title : string;
  description : string;
  event_type : string;
  start_datetime : Z;
  end_datetime : Z;
  venue : string;
  society_id : option string;
  registration_mode : option string;
  min_team_size : option Z;
  max_team_size : option Z;
  registration_start_datetime : Z;
  registration_end_datetime : Z;
  max_teams : option Z;
  poster_url : option string;
  form_fields : option (list FormFieldInput.t);
  event_status : option string
}.
End EventBody.

Module UpdateBody.
(** The body of PUT /api/events/:eventId; an absent property is [None]. *)
Record t := mk {
  title : option string;
  description : option string;
  venue : option string;
  poster_url : option string;
  event_status : option string;
  start_datetime : option Z;
  end_datetime : option Z;
  registration_start_datetime : option Z;
  registration_end_datetime : option Z;
  max_teams : option Z;
  registration_open : option bool;
  event_type : option string;
  organizer_id : option string
}.
End UpdateBody.

Fixpoint replace_event (e : Event.t) (es : list Event.t) : list Event.t :=
  match es with
  | [] => []
  | e' :: es' =>
      if decide (Event._id e' = Event._id e) then e :: es'
      else e' :: replace_event e es'
  end.

(** [event.save()]: the validators, which Mongoose runs on every path of
    the loaded document, the pre-save hook that stamps [updated_at], then
    the write.  [enum_errors] are the messages of the
    enumerated paths that were assigned a string outside their values.
    The hook also gives a fresh uuid to a form field whose [field_id] is
    falsy.  [Event.create] stores no such field ([cast_form_fields]) and
    no route assigns the form fields of a stored event, so [Event_save] is
    the save of an event whose form fields all have an identifier; the
    properties that pin the form fields of a saved event assume it. *)
Definition Event_save {R} (env : Env) (db : Db) (enum_errors : list string)
    (e : Event.t) : Flow R (Db * Event.t) :=
  match (enum_errors ++ Event.validate (now env) e)%list with
  | [] =>
      let e := Event.set_updated_at (now env) e in
      Next (set_events (replace_event e (events db)) db, e)
  | messages => Throw (ValidationError messages)
  end.

Definition catch_validation (msg : string) (e : JsError) : Response :=
  match e with
  | ValidationError messages =>
      mkResponse 400 false "Validation failed" (errors_payload messages)
  | _ => fail 500 msg
  end.

(** The form fields of a new event.  The default of [field_id] is a fresh
    uuid, and the pre-save hook gives one to every field whose [field_id]
    is falsy, the empty string included; [uuid i] is the one of the field
    at position [i]. *)
Definition cast_form_fields (uuid : nat → string) (fs : list FormFieldInput.t)
    : list FormField.t :=
  imap (λ i f,
    FormField.mk
      (if truthy_string (FormFieldInput.field_id f)
       then default "" (FormFieldInput.field_id f) else uuid i)
      (FormFieldInput.label f) (FormFieldInput.field_type f)
      (default true (FormFieldInput.is_required f))
      (FormFieldInput.options f) (FormFieldInput.order_index f)) fs.

Definition enum_error {A} (of_string : string → option A) (v what : string)
    : list string :=
  match of_string v with
  | Some _ => []
  | None => [v +:+ " is not a valid " +:+ what]
  end.

(** [Event.create(eventData)] *)
Definition Event_create {R} (env : Env) (uuid : nat → string) (db : Db)
    (organizer : string) (body : EventBody.t) : Flow R (Db * Event.t) :=
  let status := if truthy_string (EventBody.event_status body)
                then default "" (EventBody.event_status body) else "draft" in
  let mode := if truthy_string (EventBody.registration_mode body)
              then default "" (EventBody.registration_mode body) else "individual" in
  match castObjectId organizer with
  | None => Throw (ValidationError ["Cast to ObjectId failed"])
  | Some organizer =>
      let e :=
        Event.mk (new_id env) (trim (EventBody.title body)) (EventBody.description body)
          (default workshop (EventType_of_string (EventBody.event_type body)))
          (EventBody.start_datetime body) (EventBody.end_datetime body)
          (EventBody.venue body)
          (if truthy_string (EventBody.poster_url body) then EventBody.poster_url body else None)
          (if truthy_number (EventBody.max_teams body) then EventBody.max_teams body else None)
          true
          (default individual (Mode_of_string mode))
          (if truthy_number (EventBody.min_team_size body)
           then default 1 (EventBody.min_team_size body) else 1)
          (if truthy_number (EventBody.max_team_size body)
           then default 1 (EventBody.max_team_size body) else 1)
          (EventBody.registration_start_datetime body)
          (EventBody.registration_end_datetime body)
          (if truthy_string (EventBody.society_id body)
           then EventBody.society_id body ≫= castObjectId else None)
          organizer
          (default ev_draft (EventStatus_of_string status))
          (cast_form_fields uuid (default [] (EventBody.form_fields body)))
          (now env) (now env) in
      match ((if decide (EventBody.event_type body = "")
              then ["Please provide an event type"]
              else enum_error EventType_of_string (EventBody.event_type body) "event type")
             ++ enum_error Mode_of_string mode "registration mode"
             ++ enum_error EventStatus_of_string status "event status"
             ++ Event.validate (now env) e)%list with
      | [] =>
          if bool_decide (Exists (λ e', Event._id e' = Event._id e) (events db))
          then Throw MongoServerError
          else Next (set_events (events db ++ [e]) db, e)
      | messages => Throw (ValidationError messages)
      end
  end.

(** The handler of POST /api/events, behind
    [authorizeRoles('society_head', 'admin')].  [validateEventCreation]
    is mounted between the two ([route_post_events]): [body] is [req.body]
    as the sanitizers leave it. *)
Definition post_events (env : Env) (uuid : nat → string) (user : AuthUser)
    (body : EventBody.t) (db : Db) : Db * Response :=
  if negb (bool_decide (user_role user = "society_head")
           || bool_decide (user_role user = "admin"))
  then (db, fail 403 "Access denied. Insufficient permissions.")
  else
  handle db (catch_validation "Server error while creating event") (
    (if truthy_string (EventBody.society_id body) then
       society ← findById Society._id (societies db) (default "" (EventBody.society_id body));
       match society with
       | None => Return (fail 404 "Society not found")
       | Some society =>
           return_if (bool_decide (user_role user ≠ "admin")
                      && bool_decide (Society.head_id society ≠ userId user))
             (fail 403 "You are not authorized to create events for this society")
       end
     else Next ());;
    '(db', event) ← Event_create env uuid db (userId user) body;
    Next (db', ok 201 "Event created successfully" (event_payload event))).

(** The [allowedUpdates.forEach] assignment loop.  [event_type] and
    [organizer_id] are not among the allowed updates. *)
Definition apply_allowed_updates (body : UpdateBody.t) (e : Event.t) : Event.t :=
  Event.mk (Event._id e)
    (from_option trim (Event.title e) (UpdateBody.title body))
    (default (Event.description e) (UpdateBody.description body))
    (Event.event_type e)
    (default (Event.start_datetime e) (UpdateBody.start_datetime body))
    (default (Event.end_datetime e) (UpdateBody.end_datetime body))
    (default (Event.venue e) (UpdateBody.venue body))
    (match UpdateBody.poster_url body with
     | Some u => Some u | None => Event.poster_url e end)
    (match UpdateBody.max_teams body with
     | Some n => Some n | None => Event.max_teams e end)
    (default (Event.registration_open e) (UpdateBody.registration_open body))
    (Event.registration_mode e) (Event.min_team_size e) (Event.max_team_size e)
    (default (Event.registration_start_datetime e)
       (UpdateBody.registration_start_datetime body))
    (default (Event.registration_end_datetime e)
       (UpdateBody.registration_end_datetime body))
    (Event.society_id e) (Event.organizer_id e)
    (default (Event.event_status e)
       (UpdateBody.event_status body ≫= EventStatus_of_string))
    (Event.form_fields e) (Event.created_at e) (Event.updated_at e).

(** The handler of PUT /api/events/:eventId.  It is mounted behind
    [authenticateToken] and [validateEventUpdate] ([route_put_event]):
    [body] is [req.body] as the sanitizers leave it. *)
Definition put_event (env : Env) (user : AuthUser) (eventId : string)
    (body : UpdateBody.t) (db : Db) : Db * Response :=
  handle db (catch_validation "Server error while updating event") (
    return_if (negb (isValidObjectId eventId)) (fail 400 "Invalid event ID");;
    event ← findById Event._id (events db) eventId;
    match event with
    | None => Return (fail 404 "Event not found")
    | Some event =>
        return_if (bool_decide (Event.organizer_id event ≠ userId user)
                   && bool_decide (user_role user ≠ "admin"))
          (fail 403 "You are not authorized to update this event");;
        (if is_open_status (Event.event_status event) then
           return_if (truthy_string (UpdateBody.event_type body)
                      && bool_decide (UpdateBody.event_type body
                                      ≠ Some (EventType_to_string (Event.event_type event))))
             (fail 400 "Cannot change event type after publication");;
           return_if (truthy_string (UpdateBody.organizer_id body))
             (fail 400 "Cannot change organizer after publication")
         else Next ());;
        '(db', event) ←
          Event_save env db
            (from_option (λ s, enum_error EventStatus_of_string s "event status") []
               (UpdateBody.event_status body))
            (apply_allowed_updates body event);
        Next (db', ok 200 "Event updated successfully" (event_payload event))
    end).

(** DELETE /api/events/:eventId *)
Definition delete_event (env : Env) (user : AuthUser) (eventId : string) (db : Db)
    : Db * Response :=
  handle db (catch_500 "Server error while deleting event") (
    return_if (negb (isValidObjectId eventId)) (fail 400 "Invalid event ID");;
    event ← findById Event._id (events db) eventId;
    match event with
    | None => Return (fail 404 "Event not found")
    | Some event =>
        return_if (bool_decide (Event.organizer_id event ≠ userId user)
                   && bool_decide (user_role user ≠ "admin"))
          (fail 403 "You are not authorized to delete this event");;
        '(db', _) ← Event_save env db [] (Event.set_event_status ev_cancelled event);
        Next (db', ok 200 "Event cancelled successfully" no_payload)
    end).

(** ** The API as a transition system *)

(** The requests of the registration routes and of the event routes that
    write.  The authentication and bookmark routes write users and
    bookmarks only, the remaining event routes only read. *)

Inductive Request :=
| POST_registrations (body : CreateBody.t)
| GET_registrations (query : ListQuery.t)
| GET_invitations_pending
| PUT_invitation (registrationId : string) (action : option string)
| POST_members (registrationId : string) (members_to_add : option (list MemberToAdd.t))
| DELETE_member (registrationId memberId : string)
| GET_registration (registrationId : string)
| PUT_member (registrationId memberId : string) (invite_status : option string)
| DELETE_registration (registrationId : string)
| POST_events (uuid : nat → string) (body : EventBody.t)
| PUT_event (eventId : string) (body : UpdateBody.t)
| DELETE_event (eventId : string).

Section Api.
Context {casts : SchemaCast}.

(** One authenticated request against the database, as its handler
    serves it.  A request that the validation in front of a handler
    refuses writes nothing; every other one reaches the handler with the
    body that the sanitizers leave. *)
Definition step (env : Env) (user : AuthUser) (req : Request) (db : Db)
    : Db * Response :=
  match req with
  | POST_registrations body => post_registrations env user body db
  | GET_registrations query => get_registrations user query db
  | GET_invitations_pending => get_pending_invitations user db
  | PUT_invitation registrationId action => put_invitation user registrationId action db
  | POST_members registrationId members_to_add =>
      post_members env user registrationId members_to_add db
  | DELETE_member registrationId memberId => delete_member user registrationId memberId db
  | GET_registration registrationId => get_registration user registrationId db
  | PUT_member registrationId memberId invite_status =>
      put_member env user registrationId memberId invite_status db
  | DELETE_registration registrationId => delete_registration user registrationId db
  | POST_events uuid body => post_events env uuid user body db
  | PUT_event eventId body => put_event env user eventId body db
  | DELETE_event eventId => delete_event env user eventId db
  end.

(** A sequence of requests, each with its clock, fresh identifier and
    caller, served one after the other. *)
Fixpoint run (reqs : list (Env * AuthUser * Request)) (db : Db) : Db :=
  match reqs with
  | [] => db
  | (env, user, req) :: rest => run rest (fst (step env user req db))
  end.
End Api.

(** ** The preconditions of a create, in the words of the specification *)

Inductive ErrorKind := NotFound | InvalidState | Conflict | CapacityExceeded.

Definition http_status (k : ErrorKind) : Z :=
  match k with
  | NotFound => 404
  | InvalidState => 400
  | Conflict => 409
  | CapacityExceeded => 400
  end.

(** The identifier [id] of a request names the stored identifier [oid]. *)
Definition names (id : string) (oid : ObjectId) : Prop := castObjectId id = Some oid.

#[global] Instance names_dec id oid : Decision (names id oid).
Proof. unfold names. apply _. Defined.

(** The first precondition of the specification's list that fails:
    1. the event exists; 2. its status is published or ongoing; 3. its
    registration_open flag is true; 4. the current time is within the
    registration window; 5. no registration exists for (event, requesting
    account); 6. when max_teams is set, the count of pending or confirmed
    registrations of the event is below it. *)
Definition spec_create_failure (env : Env) (user : AuthUser) (body : CreateBody.t)
    (db : Db) : option (ErrorKind * string) :=
  match list_find (λ e, names (CreateBody.event_id body) (Event._id e)) (events db) with
  | None => Some (NotFound, "Event not found")
  | Some (_, event) =>
      if decide (Event.event_status event ≠ ev_published
                 ∧ Event.event_status event ≠ ev_ongoing)
      then Some (InvalidState, "Registration is not open for this event")
      else if decide (Event.registration_open event = false)
      then Some (InvalidState, "Registration is currently closed")
      else if decide (now env < Event.registration_start_datetime event)
      then Some (InvalidState, "Registration has not started yet")
      else if decide (Event.registration_end_datetime event < now env)
      then Some (InvalidState, "Registration deadline has passed")
      else if decide (Exists (λ r, names (CreateBody.event_id body) (Registration.event_id r)
                                   ∧ names (userId user) (Registration.leader_user_id r))
                        (registrations db))
      then Some (Conflict, "You are already registered for this event")
      else
        match Event.max_teams event with
        | Some max_teams =>
            if decide (max_teams ≤ Z.of_nat (length (filter
                 (λ r, names (CreateBody.event_id body) (Registration.event_id r)
                       ∧ (Registration.status r = pending ∨ Registration.status r = confirmed))
                 (registrations db))))
            then Some (CapacityExceeded, "Event has reached maximum capacity")
            else None
        | None => None
        end
  end.

Definition failure_response (f : ErrorKind * string) : Response :=
  fail (http_status (fst f)) (snd f).

(** The failures of the specification's list, in its order; the window
    precondition has one entry for each of its two messages. *)
Definition create_failures : list (ErrorKind * string) :=
  [ (NotFound, "Event not found");
    (InvalidState, "Registration is not open for this event");
    (InvalidState, "Registration is currently closed");
    (InvalidState, "Registration has not started yet");
    (InvalidState, "Registration deadline has passed");
    (Conflict, "You are already registered for this event");
    (CapacityExceeded, "Event has reached maximum capacity") ].

(** ** Answers: what is kept and where the value goes *)

(** The answer names a form field of the event. *)
Definition matched (form_fields : list FormField.t) (answer : AnswerInput.t) : Prop :=
  is_Some (find_field form_fields (AnswerInput.field_id answer)).

#[global] Instance matched_dec form_fields answer : Decision (matched form_fields answer).
Proof. unfold matched. apply _. Defined.

Definition with_form_answers (form_answers : option (list AnswerInput.t))
    (body : CreateBody.t) : CreateBody.t :=
  CreateBody.mk (CreateBody.event_id body) form_answers (CreateBody.team_members body)
    (CreateBody.team_members_info body) (CreateBody.team_name body).

(** The stored answer [s] is the answer [a] to its field: the identifier of
    [a], the label of the field, and the cast value of [a] in the slot of
    the field's type, the other two slots absent. *)
Definition stores_answer `{SchemaCast} (form_fields : list FormField.t)
    (a : AnswerInput.t) (s : Answer.t) : Prop :=
  ∃ field,
    find_field form_fields (AnswerInput.field_id a) = Some field
    ∧ Answer.field_id s = AnswerInput.field_id a
    ∧ Answer.field_label s = FormField.label field
    ∧ if decide (FormField.field_type field = "number") then
        Answer.value_text s = None ∧ Answer.value_date s = None
        ∧ Answer.cast_slot cast_Number (AnswerInput.value a) = Some (Answer.value_number s)
      else if decide (FormField.field_type field = "date") then
        Answer.value_text s = None ∧ Answer.value_number s = None
        ∧ Answer.cast_slot cast_Date (AnswerInput.value a) = Some (Answer.value_date s)
      else
        Answer.value_number s = None ∧ Answer.value_date s = None
        ∧ Answer.cast_slot cast_String (AnswerInput.value a) = Some (Answer.value_text s).

(** ** What a request may do to a stored document *)

(** The event of a registration, as the handlers look it up. *)
Definition event_of (events : list Event.t) (r : Registration.t) : option Event.t :=
  oid ← castObjectId (Registration.event_id r);
  snd <$> list_find (λ e, Event._id e = oid) events.

(** The accepted and auto-added members of [r] are within the team size
    bounds of its event. *)
Definition accepted_in_bounds (events : list Event.t) (r : Registration.t) : Prop :=
  ∃ event,
    event_of events r = Some event
    ∧ Event.min_team_size event ≤ accepted_count (Registration.members r)
    ∧ accepted_count (Registration.members r) ≤ Event.max_team_size event.

(** The status of a document before and after one request: unchanged, or
    confirmed with the accepted count in bounds, or cancelled. *)
Definition status_step (events : list Event.t) (r r' : Registration.t) : Prop :=
  Registration.status r' = Registration.status r
  ∨ (Registration.status r' = confirmed ∧ accepted_in_bounds events r')
  ∨ Registration.status r' = cancelled.

(** Every stored registration is still stored, at its place, under its
    identifier and for its event, after the request. *)
Definition registrations_step (db db' : Db) : Prop :=
  ∀ i r,
    registrations db !! i = Some r →
    ∃ r', registrations db' !! i = Some r'
          ∧ Registration._id r' = Registration._id r
          ∧ Registration.event_id r' = Registration.event_id r
          ∧ status_step (events db) r r'.

(** Every stored event is still stored, at its place, under its
    identifier, with its type and its organizer. *)
Definition events_step (db db' : Db) : Prop :=
  ∀ i e,
    events db !! i = Some e →
    ∃ e', events db' !! i = Some e'
          ∧ Event._id e' = Event._id e
          ∧ Event.event_type e' = Event.event_type e
          ∧ Event.organizer_id e' = Event.organizer_id e.

(** The body of an update names an event type other than the event's, or
    names an organizer. *)
Definition requests_type_change (body : UpdateBody.t) (event : Event.t) : Prop :=
  ∃ s, UpdateBody.event_type body = Some s ∧ s ≠ ""
       ∧ s ≠ EventType_to_string (Event.event_type event).

Definition requests_organizer_change (body : UpdateBody.t) : Prop :=
  ∃ s, UpdateBody.organizer_id body = Some s ∧ s ≠ "".

(** ** The scenarios of the specification as data *)

(** A cast that accepts a raw value of the very type of the path.
    Mongoose casts more than that, the string of a number to a number for
    one; the properties hold for every cast, and this one serves the
    scenarios, whose values have the type of their path. *)
Definition strict_cast : SchemaCast := {|
  cast_String v :=
    match v with JString s => Some (Some s) | JNull => Some None | _ => None end;
  cast_Number v :=
    match v with JNumber n => Some (Some n) | JNull => Some None | _ => None end;
  cast_Date v :=
    match v with JNumber n => Some (Some n) | JNull => Some None | _ => None end
|}.

Module Scenario.
Definition lea_id : ObjectId := "aaaaaaaaaaaaaaaaaaaaaaa1".
Definition bob_id : ObjectId := "aaaaaaaaaaaaaaaaaaaaaaa2".
Definition cy_id : ObjectId := "aaaaaaaaaaaaaaaaaaaaaaa3".
Definition org_id : ObjectId := "aaaaaaaaaaaaaaaaaaaaaaa9".
Definition event_id : ObjectId := "eeeeeeeeeeeeeeeeeeeeeee1".
Definition registration_id : ObjectId := "ccccccccccccccccccccccc1".

Definition lea := mkAuth lea_id "student".
Definition bob := mkAuth bob_id "student".
Definition cy := mkAuth cy_id "student".
Definition org := mkAuth org_id "society_head".

Definition accounts : list User.t :=
  [ User.mk lea_id "Lea" "lea@campus.edu" student;
    User.mk bob_id "Bob" "bob@campus.edu" student;
    User.mk cy_id "Cy" "cy@campus.edu" student;
    User.mk org_id "Org" "org@campus.edu" society_head ].

(** A published team event with the given team size bounds; registration
    is open from time 100 to time 4000 and the event starts at 5000. *)
Definition hack_night (min_team_size max_team_size : Z) : Event.t :=
  Event.mk event_id "Hack night" "Build something in a night" hackathon
    5000 6000 "Main hall" None None true team min_team_size max_team_size
    100 4000 None org_id ev_published
    [ FormField.mk "f-age" "Age" "number" true None 0;
      FormField.mk "f-why" "Motivation" "short_text" true None 1 ]
    0 0.

Definition db0 (min_team_size max_team_size : Z) : Db :=
  mkDb accounts [] [hack_night min_team_size max_team_size] [].

Definition env := mkEnv 1000 registration_id.

(** Scenario A: no additional members. *)
Definition body_alone :=
  CreateBody.mk event_id None None None (Some "Night owls").

(** Scenario B: one additional member, Bob. *)
Definition body_with_bob :=
  CreateBody.mk event_id
    (Some [ AnswerInput.mk "f-age" (Some (JNumber 20));
            AnswerInput.mk "f-unknown" (Some (JString "x")) ])
    (Some [bob_id]) None (Some "Night owls").

(** The database after scenario B: Lea leads, Bob is invited. *)
Definition db_team : Db :=
  fst (post_registrations (casts := strict_cast) env lea body_with_bob (db0 2 4)).

(** Bob named twice in the identifier list. *)
Definition body_bob_twice :=
  CreateBody.mk event_id None (Some [bob_id; bob_id]) None (Some "Night owls").

(** Bob named in the identifier list and again by his email. *)
Definition body_bob_id_and_email :=
  CreateBody.mk event_id None (Some [bob_id])
    (Some [MemberInfo.mk "bob@campus.edu" "Bob"]) (Some "Night owls").

(** Bob by identifier and a newcomer whose email belongs to no account. *)
Definition body_with_newcomer :=
  CreateBody.mk event_id None (Some [bob_id])
    (Some [MemberInfo.mk "dana@campus.edu" "Dana"]) (Some "Night owls").

Definition env_later := mkEnv 2000 registration_id.

(** The database after Bob accepted through the member route. *)
Definition db_accepted : Db :=
  fst (put_member env_later bob registration_id bob_id (Some "accepted") db_team).

(** The database after Lea cancelled the team of [db_team]. *)
Definition db_cancelled : Db :=
  fst (delete_registration lea registration_id db_team).

Definition the_registration (db : Db) : option Registration.t :=
  registrations db !! 0%nat.

(** An update that only names another event type, and one that only
    names another organizer. *)
Definition body_new_type : UpdateBody.t :=
  UpdateBody.mk None None None None None None None None None None None
    (Some "workshop") None.

Definition body_new_organizer : UpdateBody.t :=
  UpdateBody.mk None None None None None None None None None None None
    None (Some bob_id).

(** Scenario B, then Lea cancels, then Bob accepts through the member
    route. *)
Definition cancel_then_accept : list (Env * AuthUser * Request) :=
  [ (env, lea, POST_registrations body_with_bob);
    (env_later, lea, DELETE_registration registration_id);
    (env_later, bob, PUT_member registration_id bob_id (Some "accepted")) ].

Definition status_after (reqs : list (Env * AuthUser * Request)) : option Status :=
  Registration.status <$> the_registration (run (casts := strict_cast) reqs (db0 2 4)).

Definition invite_statuses (db : Db) : option (list (ObjectId * InviteStatus)) :=
  r ← the_registration db;
  Some ((λ m, (Member.user_id m, Member.invite_status m)) <$> Registration.members r).
End Scenario.

(** ** Invariants of the stored documents *)

(** The event of a registration as the pre-save hook looks it up. *)
Definition hook_event (events : list Event.t) (r : Registration.t) : option Event.t :=
  snd <$> list_find (λ e, Event._id e = Registration.event_id r) events.

(** The event of the registration is stored, and a team registration has
    a number of members within the team size bounds of that event. *)
Definition team_sized (events : list Event.t) (r : Registration.t) : Prop :=
  ∃ event,
    hook_event events r = Some event
    ∧ (Registration.mode r = team →
       Event.min_team_size event ≤ Z.of_nat (length (Registration.members r))
       ∧ Z.of_nat (length (Registration.members r)) ≤ Event.max_team_size event).

Definition team_size_invariant (db : Db) : Prop :=
  Forall (team_sized (events db)) (registrations db).

(** No two registrations share an identifier, and no two share their
    event and their leader. *)
Definition unique_registrations (db : Db) : Prop :=
  NoDup (Registration._id <$> registrations db)
  ∧ NoDup ((λ r, (Registration.event_id r, Registration.leader_user_id r))
           <$> registrations db).

(** What no write changes in an event.  The pre-save hook gives a form
    field without identifier a fresh one, so the form fields are kept when
    each of them has an identifier. *)
Definition same_event_frame (e e' : Event.t) : Prop :=
  Event._id e' = Event._id e
  ∧ Event.event_type e' = Event.event_type e
  ∧ Event.organizer_id e' = Event.organizer_id e
  ∧ Event.society_id e' = Event.society_id e
  ∧ Event.registration_mode e' = Event.registration_mode e
  ∧ Event.min_team_size e' = Event.min_team_size e
  ∧ Event.max_team_size e' = Event.max_team_size e
  ∧ Event.created_at e' = Event.created_at e
  ∧ (Forall (λ f, FormField.field_id f ≠ "") (Event.form_fields e) →
     Event.form_fields e' = Event.form_fields e).

(** Every stored event is still stored, at its place, with its frame. *)
Definition events_frame_step (db db' : Db) : Prop :=
  ∀ i e,
    events db !! i = Some e →
    ∃ e', events db' !! i = Some e' ∧ same_event_frame e e'.

(** The constraints of [eventSchema] that do not depend on the clock. *)
Definition well_formed_event (e : Event.t) : Prop :=
  Event.start_datetime e < Event.end_datetime e
  ∧ Event.registration_end_datetime e < Event.start_datetime e
  ∧ 1 ≤ Event.min_team_size e
  ∧ Event.min_team_size e ≤ Event.max_team_size e
  ∧ (∀ n, Event.max_teams e = Some n → 1 ≤ n)
  ∧ 5 ≤ Event.len (Event.title e) ∧ Event.len (Event.title e) ≤ 200
  ∧ 10 ≤ Event.len (Event.description e)
  ∧ 1 ≤ Event.len (Event.venue e) ∧ Event.len (Event.venue e) ≤ 100.

(** What no request changes in a registration. *)
Definition same_registration_frame (r r' : Registration.t) : Prop :=
  Registration._id r' = Registration._id r
  ∧ Registration.event_id r' = Registration.event_id r
  ∧ Registration.mode r' = Registration.mode r
  ∧ Registration.leader_user_id r' = Registration.leader_user_id r
  ∧ Registration.team_name r' = Registration.team_name r
  ∧ Registration.answers r' = Registration.answers r
  ∧ Registration.created_at r' = Registration.created_at r.

(** Every stored registration is still stored, at its place, with its
    frame. *)
Definition registrations_frame_step (db db' : Db) : Prop :=
  ∀ i r,
    registrations db !! i = Some r →
    ∃ r', registrations db' !! i = Some r' ∧ same_registration_frame r r'.

(** What one request of the registration routes writes: nothing; or one
    new registration at the end, under an identifier and for a pair of
    event and leader that no stored registration has; or one stored
    registration within its frame, with as many members as before or with
    members that the pre-save hook let pass. *)
Definition registration_write (db db' : Db) : Prop :=
  events db' = events db
  ∧ (registrations db' = registrations db
     ∨ (∃ new,
          registrations db' = registrations db ++ [new]
          ∧ Forall (λ r, Registration._id r ≠ Registration._id new
                         ∧ (Registration.event_id r, Registration.leader_user_id r)
                           ≠ (Registration.event_id new, Registration.leader_user_id new))
              (registrations db)
          ∧ team_sized (events db) new
          ∧ validate_loaded new = [])
     ∨ (∃ j reg r',
          registrations db !! j = Some reg
          ∧ registrations db' = <[j := r']> (registrations db)
          ∧ same_registration_frame reg r'
          ∧ (length (Registration.members r') = length (Registration.members reg)
             ∨ Registration.pre_save (events db) true r' = None))).

(** A team registration has a name that is not blank. *)
Definition named_teams (db : Db) : Prop :=
  Forall (λ r, validate_loaded r = []) (registrations db).

(** Requests on the team of [Scenario.db_team]. *)
Module Teams.
Import Scenario.

(** Lea adds Cy, Cy accepts, Lea removes Bob, Bob tries to accept. *)
Definition grow_and_shrink : list (Env * AuthUser * Request) :=
  [ (env_later, lea, POST_members registration_id
       (Some [MemberToAdd.mk cy_id "Cy" "cy@campus.edu"]));
    (env_later, cy, PUT_invitation registration_id (Some "accept"));
    (env_later, lea, DELETE_member registration_id bob_id);
    (env_later, bob, PUT_member registration_id bob_id (Some "accepted")) ].

Definition member_ids (db : Db) : list (list ObjectId) :=
  (λ r, Member.user_id <$> Registration.members r) <$> registrations db.
End Teams.


(** The object pushed for an invited account: a member with the invited
    status whose identifier casts as the identifier of a user does. *)
Definition invited_data (users : list User.t) (d : Member.data) : Prop :=
  Member.d_role d = "member"
  ∧ Member.d_invite_status d = "invited"
  ∧ ∃ id u, Member.d_user_id d = Some id ∧ u ∈ users
            ∧ castObjectId id = castObjectId (User._id u).

(** A stored entry of an invited account. *)
Definition invited_member (users : list User.t) (now : Z) (m : Member.t) : Prop :=
  Member.role m = role_member
  ∧ Member.invite_status m = invited
  ∧ Member.added_at m = now
  ∧ Member.responded_at m = None
  ∧ ∃ u, u ∈ users ∧ names (User._id u) (Member.user_id m).


(** The organizer announces a quiz night for individuals. *)
Module Quiz.
Import Scenario.

Definition quiz_id : ObjectId := "eeeeeeeeeeeeeeeeeeeeeee2".

Definition body : EventBody.t :=
  EventBody.mk "Quiz night" "Ten rounds of questions" "competition" 5000 6000
    "Room 12" None None None None 100 4000 None None None None.

Definition env := mkEnv 1000 quiz_id.
End Quiz.

(** ** Bookmarks (models/Bookmark.js, routes/bookmarks.js) *)

Module Bookmark.
Record t := mk {
  _id : ObjectId;
  user_id : ObjectId;
  event_id : ObjectId;
  created_at : Z
}.
End Bookmark.

Inductive BookmarkPayload :=
| no_bookmark_payload
| bookmark_payload (bookmark : Bookmark.t)
| bookmarks_payload (bookmarks : list Bookmark.t) (count : nat)
| isBookmarked_payload (isBookmarked : bool).

Record BookmarkResponse := mkBookmarkResponse {
  bookmark_status_code : Z;
  bookmark_success : bool;
  bookmark_message : string;
  bookmark_body : BookmarkPayload
}.

Definition bookmark_fail (code : Z) (msg : string) : BookmarkResponse :=
  mkBookmarkResponse code false msg no_bookmark_payload.

Definition bookmark_ok (code : Z) (msg : string) (p : BookmarkPayload)
    : BookmarkResponse :=
  mkBookmarkResponse code true msg p.

(** The body of a handler over a store other than [Db]: an early [return]
    and a caught exception leave the store as it was. *)
Definition run_handler {S Resp} (store : S) (catch : JsError → Resp)
    (body : Flow Resp (S * Resp)) : S * Resp :=
  match body with
  | Next out => out
  | Return r => (store, r)
  | Throw e => (store, catch e)
  end.

(** [Bookmark.findOne({ user_id, event_id })], with the place of the
    document found. *)
Definition findOne_bookmark {R} (bookmarks : list Bookmark.t)
    (userId event_id : string) : Flow R (option (nat * Bookmark.t)) :=
  match castObjectId userId, castObjectId event_id with
  | Some u, Some e =>
      Next (list_find (λ b, Bookmark.user_id b = u ∧ Bookmark.event_id b = e) bookmarks)
  | _, _ => Throw CastError
  end.

(** [Bookmark.create({ user_id, event_id })] under the unique indexes on
    [_id] and on [(user_id, event_id)]. *)
Definition Bookmark_create {R} (env : Env) (bookmarks : list Bookmark.t)
    (userId event_id : string) : Flow R (list Bookmark.t * Bookmark.t) :=
  match castObjectId userId, castObjectId event_id with
  | Some u, Some e =>
      let bookmark := Bookmark.mk (new_id env) u e (now env) in
      if bool_decide (Exists
           (λ b, Bookmark._id b = new_id env
                 ∨ (Bookmark.user_id b = u ∧ Bookmark.event_id b = e)) bookmarks)
      then Throw MongoServerError
      else Next (bookmarks ++ [bookmark], bookmark)
  | _, _ => Throw (ValidationError ["Cast to ObjectId failed"])
  end.

(** POST /api/bookmarks *)
Definition post_bookmark (env : Env) (user : AuthUser) (event_id : option string)
    (events : list Event.t) (bookmarks : list Bookmark.t)
    : list Bookmark.t * BookmarkResponse :=
  run_handler bookmarks (λ _, bookmark_fail 500 "Server error while bookmarking event") (
    return_if (negb (truthy_string event_id)
               || negb (isValidObjectId (default "" event_id)))
      (bookmark_fail 400 "Valid event ID is required");;
    event ← findById Event._id events (default "" event_id);
    match event with
    | None => Return (bookmark_fail 404 "Event not found")
    | Some _ =>
        existingBookmark ← findOne_bookmark bookmarks (userId user) (default "" event_id);
        return_if (bool_decide (is_Some existingBookmark))
          (bookmark_fail 409 "Event already bookmarked");;
        '(bookmarks', bookmark) ←
          Bookmark_create env bookmarks (userId user) (default "" event_id);
        Next (bookmarks', bookmark_ok 201 "Event bookmarked successfully"
                            (bookmark_payload bookmark))
    end).

(** [.sort({ created_at: -1 })] *)
Definition newer_bookmark (a b : Bookmark.t) : Prop :=
  Bookmark.created_at b ≤ Bookmark.created_at a.

#[global] Instance newer_bookmark_dec a b : Decision (newer_bookmark a b).
Proof. unfold newer_bookmark. apply _. Defined.

(** GET /api/bookmarks *)
Definition get_bookmarks (user : AuthUser) (bookmarks : list Bookmark.t)
    : list Bookmark.t * BookmarkResponse :=
  run_handler bookmarks (λ _, bookmark_fail 500 "Server error while fetching bookmarks") (
    match castObjectId (userId user) with
    | None => Throw CastError
    | Some u =>
        let found :=
          merge_sort newer_bookmark (filter (λ b, Bookmark.user_id b = u) bookmarks) in
        Next (bookmarks, bookmark_ok 200 "" (bookmarks_payload found (length found)))
    end).

(** DELETE /api/bookmarks/:eventId *)
Definition delete_bookmark (user : AuthUser) (eventId : string)
    (bookmarks : list Bookmark.t) : list Bookmark.t * BookmarkResponse :=
  run_handler bookmarks (λ _, bookmark_fail 500 "Server error while removing bookmark") (
    return_if (negb (isValidObjectId eventId)) (bookmark_fail 400 "Invalid event ID");;
    bookmark ← findOne_bookmark bookmarks (userId user) eventId;
    match bookmark with
    | None => Return (bookmark_fail 404 "Bookmark not found")
    | Some (i, _) =>
        Next (delete i bookmarks,
              bookmark_ok 200 "Bookmark removed successfully" no_bookmark_payload)
    end).

(** GET /api/bookmarks/check/:eventId *)
Definition check_bookmark (user : AuthUser) (eventId : string)
    (bookmarks : list Bookmark.t) : list Bookmark.t * BookmarkResponse :=
  run_handler bookmarks (λ _, bookmark_fail 500 "Server error while checking bookmark") (
    return_if (negb (isValidObjectId eventId)) (bookmark_fail 400 "Invalid event ID");;
    bookmark ← findOne_bookmark bookmarks (userId user) eventId;
    Next (bookmarks,
          bookmark_ok 200 "" (isBookmarked_payload (bool_decide (is_Some bookmark))))).

(** The bookmark routes as a transition system over the bookmarks, with
    the events they read. *)
Inductive BookmarkRequest :=
| POST_bookmark (event_id : option string)
| GET_bookmarks
| DELETE_bookmark (eventId : string)
| GET_bookmark_check (eventId : string).

Definition bookmark_step (events : list Event.t) (env : Env) (user : AuthUser)
    (req : BookmarkRequest) (bookmarks : list Bookmark.t)
    : list Bookmark.t * BookmarkResponse :=
  match req with
  | POST_bookmark event_id => post_bookmark env user event_id events bookmarks
  | GET_bookmarks => get_bookmarks user bookmarks
  | DELETE_bookmark eventId => delete_bookmark user eventId bookmarks
  | GET_bookmark_check eventId => check_bookmark user eventId bookmarks
  end.

Fixpoint bookmark_run (events : list Event.t)
    (reqs : list (Env * AuthUser * BookmarkRequest)) (bookmarks : list Bookmark.t)
    : list Bookmark.t :=
  match reqs with
  | [] => bookmarks
  | (env, user, req) :: rest =>
      bookmark_run events rest (fst (bookmark_step events env user req bookmarks))
  end.

(** No two bookmarks share an identifier, and no two share their user and
    their event. *)
Definition unique_bookmarks (bookmarks : list Bookmark.t) : Prop :=
  NoDup (Bookmark._id <$> bookmarks)
  ∧ NoDup ((λ b, (Bookmark.user_id b, Bookmark.event_id b)) <$> bookmarks).

(** The bookmarks of the accounts other than [u], in order. *)
Definition bookmarks_of_others (u : ObjectId) (bookmarks : list Bookmark.t)
    : list Bookmark.t :=
  filter (λ b, Bookmark.user_id b ≠ u) bookmarks.

Module Shelf.
Import Scenario.

Definition bookmark_id_1 : ObjectId := "bbbbbbbbbbbbbbbbbbbbbbb1".
Definition bookmark_id_2 : ObjectId := "bbbbbbbbbbbbbbbbbbbbbbb2".

(** Lea and Bob bookmark the hack night, Lea twice, then Lea removes her
    bookmark. *)
Definition requests : list (Env * AuthUser * BookmarkRequest) :=
  [ (mkEnv 1000 bookmark_id_1, lea, POST_bookmark (Some event_id));
    (mkEnv 1100 bookmark_id_2, bob, POST_bookmark (Some event_id));
    (mkEnv 1200 bookmark_id_1, lea, POST_bookmark (Some event_id));
    (mkEnv 1300 bookmark_id_1, lea, DELETE_bookmark event_id) ].
End Shelf.

(** ** The event routes that read (routes/events.js) *)

Inductive EventsPayload :=
| no_events_payload
| my_events_payload (events : list Event.t) (count : nat)
| events_page_payload (count total : nat) (events : list Event.t)
| one_event_payload (event : Event.t)
| form_fields_payload (event_title : string) (form_fields : list FormField.t).

Record EventsResponse := mkEventsResponse {
  events_status_code : Z;
  events_success : bool;
  events_message : string;
  events_body : EventsPayload
}.

Definition events_fail (code : Z) (msg : string) : EventsResponse :=
  mkEventsResponse code false msg no_events_payload.

Definition events_ok (p : EventsPayload) : EventsResponse :=
  mkEventsResponse 200 true "" p.

(** The body of a handler that only reads. *)
Definition answer {Resp} (catch : JsError → Resp) (body : Flow Resp Resp) : Resp :=
  match body with
  | Next r => r
  | Return r => r
  | Throw e => catch e
  end.

(** [.sort({ created_at: -1 })] and [.sort({ start_datetime: 1 })] *)
Definition newer_event (a b : Event.t) : Prop :=
  Event.created_at b ≤ Event.created_at a.

Definition starts_before (a b : Event.t) : Prop :=
  Event.start_datetime a ≤ Event.start_datetime b.

#[global] Instance newer_event_dec a b : Decision (newer_event a b).
Proof. unfold newer_event. apply _. Defined.

#[global] Instance starts_before_dec a b : Decision (starts_before a b).
Proof. unfold starts_before. apply _. Defined.

(** GET /api/events/my-events, behind [authenticateToken].  The [error]
    property of the 500 answer, the message of the exception, is left
    out. *)
Definition get_my_events (user : AuthUser) (db : Db) : EventsResponse :=
  answer (λ _, events_fail 500 "Error fetching events") (
    match castObjectId (userId user) with
    | None => Throw CastError
    | Some u =>
        let events :=
          merge_sort newer_event (filter (λ e, Event.organizer_id e = u) (events db)) in
        Next (events_ok (my_events_payload events (length events)))
    end).

Module EventsQuery.
Record t := mk {
  event_type : option string;
  event_status : option string;
  society_id : option string;
  skip : option nat;
  limit : option nat
}.
End EventsQuery.

(** The filter object of GET /api/events.  [req_user] is [req.user]: the
    route is mounted without [authenticateToken], which alone sets it. *)
Record EventsFilter := mkEventsFilter {
  ef_event_type : option string;
  ef_society_id : option string;
  ef_event_status : option string;
  ef_open_only : bool;
  ef_open_or_organizer : option string
}.

Definition build_events_filter (req_user : option AuthUser) (q : EventsQuery.t)
    : EventsFilter :=
  let event_type :=
    if truthy_string (EventsQuery.event_type q) then EventsQuery.event_type q else None in
  let society_id :=
    if truthy_string (EventsQuery.society_id q)
       && isValidObjectId (default "" (EventsQuery.society_id q))
    then EventsQuery.society_id q else None in
  match req_user with
  | None => mkEventsFilter event_type society_id None true None
  | Some user =>
      if truthy_string (EventsQuery.event_status q) then
        mkEventsFilter event_type society_id (EventsQuery.event_status q) false None
      else
        mkEventsFilter event_type society_id None false (Some (userId user))
  end.

(** The filter with its identifiers cast, as the query runs it. *)
Definition event_matches (f : EventsFilter) (organizer : option ObjectId)
    (e : Event.t) : Prop :=
  from_option (λ s, EventType_of_string s = Some (Event.event_type e)) True
    (ef_event_type f)
  ∧ from_option (λ s, castObjectId s = Event.society_id e) True (ef_society_id f)
  ∧ from_option (λ s, EventStatus_of_string s = Some (Event.event_status e)) True
      (ef_event_status f)
  ∧ (ef_open_only f = true → is_open_status (Event.event_status e) = true)
  ∧ from_option (λ u, is_open_status (Event.event_status e) = true
                      ∨ Event.organizer_id e = u) True organizer.

#[global] Instance event_matches_dec f organizer e : Decision (event_matches f organizer e).
Proof.
  unfold event_matches.
  destruct (ef_event_type f), (ef_society_id f), (ef_event_status f), organizer;
    simpl; apply _.
Defined.

(** [.skip(n).limit(m)]; a limit of 0 is no limit. *)
Definition page_of {A} (skip limit : nat) (l : list A) : list A :=
  let rest := drop skip l in
  if decide (limit = 0%nat) then rest else take limit rest.

(** GET /api/events *)
Definition get_events (req_user : option AuthUser) (q : EventsQuery.t) (db : Db)
    : EventsResponse :=
  answer (λ _, events_fail 500 "Server error while fetching events") (
    let f := build_events_filter req_user q in
    organizer ←
      match ef_open_or_organizer f with
      | None => Next None
      | Some userId =>
          match castObjectId userId with
          | Some u => Next (Some u)
          | None => Throw CastError
          end
      end;
    let found := filter (event_matches f organizer) (events db) in
    let events :=
      page_of (default 0%nat (EventsQuery.skip q)) (default 20%nat (EventsQuery.limit q))
        (merge_sort starts_before found) in
    Next (events_ok (events_page_payload (length events) (length found) events))).

(** GET /api/events/:eventId.  The organizer is populated: when the
    account is gone the property is [null] and the access to its [_id]
    throws. *)
Definition get_event (req_user : option AuthUser) (eventId : string) (db : Db)
    : EventsResponse :=
  answer (λ _, events_fail 500 "Server error while fetching event") (
    return_if (negb (isValidObjectId eventId)) (events_fail 400 "Invalid event ID");;
    event ← findById Event._id (events db) eventId;
    match event with
    | None => Return (events_fail 404 "Event not found")
    | Some event =>
        (if decide (Event.event_status event = ev_draft) then
           match req_user with
           | None => Return (events_fail 404 "Event not found")
           | Some user =>
               if user_exists (users db) (Event.organizer_id event) then
                 return_if (bool_decide (userId user ≠ Event.organizer_id event)
                            && bool_decide (user_role user ≠ "admin"))
                   (events_fail 404 "Event not found")
               else Throw TypeError
           end
         else Next ());;
        Next (events_ok (one_event_payload event))
    end).

(** GET /api/events/:eventId/form-fields *)
Definition get_form_fields (eventId : string) (db : Db) : EventsResponse :=
  answer (λ _, events_fail 500 "Server error while fetching form fields") (
    return_if (negb (isValidObjectId eventId)) (events_fail 400 "Invalid event ID");;
    event ← findById Event._id (events db) eventId;
    match event with
    | None => Return (events_fail 404 "Event not found")
    | Some event =>
        Next (events_ok (form_fields_payload (Event.title event) (Event.form_fields event)))
    end).

Module Drafts.
Import Scenario.

Definition draft_id : ObjectId := "eeeeeeeeeeeeeeeeeeeeeee3".

(** A draft of the organizer, beside the published hack night. *)
Definition film_night : Event.t :=
  Event.mk draft_id "Film night" "Three short films" cultural
    7000 8000 "Room 12" None None true individual 1 1
    100 6000 None org_id ev_draft
    [ FormField.mk "f-seat" "Seat" "short_text" false None 0 ]
    0 0.

Definition db : Db := mkDb accounts [] [hack_night 2 4; film_night] [].

Definition all_events : EventsQuery.t := EventsQuery.mk None None None None None.
End Drafts.

(** ** Validation of the request bodies (middleware/validation.js) *)

(** One validator of a chain with the message given to it.  A chain runs
    every validator it holds, and each one that fails adds its error. *)
Definition check (path : string) (holds : bool) (msg : string) : list FieldError.t :=
  if holds then [] else [FieldError.mk path msg].

(** [.optional()]: the chain does not run on a field that is absent. *)
Definition optional {A} (value : option A) (chain : A → list FieldError.t)
    : list FieldError.t :=
  from_option chain [] value.

(** [handleValidationErrors]: [None] lets the request pass. *)
Definition handleValidationErrors (errors : list FieldError.t) : option Response :=
  match errors with
  | [] => None
  | _ =>
      Some (mkResponse 400 false "Validation failed"
              (validation_payload errors
                 ((λ err, FieldError.path err +:+ ": " +:+ FieldError.msg err) <$> errors)))
  end.

(** [validateRegistration]: the body as the sanitizers leave it, with the
    errors of the chains.  An element of [team_members] is reported under
    its index. *)
Definition validateRegistration (body : CreateBody.t)
    : CreateBody.t * list FieldError.t :=
  let team_name := trim <$> CreateBody.team_name body in
  (CreateBody.mk (CreateBody.event_id body) (CreateBody.form_answers body)
     (CreateBody.team_members body) (CreateBody.team_members_info body) team_name,
   check "event_id" (negb (bool_decide (CreateBody.event_id body = "")))
     "Event ID is required"
   ++ check "event_id" (isValidObjectId (CreateBody.event_id body)) "Invalid event ID"
   ++ optional team_name (λ n,
        check "team_name" (Event.len n <=? 100) "Team name cannot exceed 100 characters")
   ++ optional (CreateBody.team_members body) (λ members,
        mjoin (imap (λ i id,
          check ("team_members[" +:+ pretty i +:+ "]") (isValidObjectId id)
            "Invalid team member user ID") members))).

(** [validateEventUpdate]; [isURL] is the validator of that name. *)
Definition validateEventUpdate (isURL : string → bool) (body : UpdateBody.t)
    : UpdateBody.t * list FieldError.t :=
  let title := trim <$> UpdateBody.title body in
  let description := trim <$> UpdateBody.description body in
  let venue := trim <$> UpdateBody.venue body in
  (UpdateBody.mk title description venue (UpdateBody.poster_url body)
     (UpdateBody.event_status body) (UpdateBody.start_datetime body)
     (UpdateBody.end_datetime body) (UpdateBody.registration_start_datetime body)
     (UpdateBody.registration_end_datetime body) (UpdateBody.max_teams body)
     (UpdateBody.registration_open body) (UpdateBody.event_type body)
     (UpdateBody.organizer_id body),
   optional title (λ t,
     check "title" ((5 <=? Event.len t) && (Event.len t <=? 200))
       "Title must be between 5 and 200 characters")
   ++ optional description (λ d,
        check "description" (10 <=? Event.len d)
          "Description must be at least 10 characters")
   ++ optional venue (λ v,
        check "venue" (Event.len v <=? 100) "Venue cannot exceed 100 characters")
   ++ optional (UpdateBody.event_status body) (λ s,
        check "event_status"
          (bool_decide (s ∈ ["draft"; "published"; "ongoing"; "completed"; "cancelled"]))
          "Invalid event status")
   ++ optional (UpdateBody.poster_url body) (λ u,
        check "poster_url" (isURL u) "Invalid poster URL")).

(** [validateEventCreation].  The dates of a typed body are dates, so the
    chains of the four dates keep their custom validators only. *)
Definition validateEventCreation (body : EventBody.t)
    : EventBody.t * list FieldError.t :=
  let title := trim (EventBody.title body) in
  let description := trim (EventBody.description body) in
  let venue := trim (EventBody.venue body) in
  (EventBody.mk title description (EventBody.event_type body)
     (EventBody.start_datetime body) (EventBody.end_datetime body) venue
     (EventBody.society_id body) (EventBody.registration_mode body)
     (EventBody.min_team_size body) (EventBody.max_team_size body)
     (EventBody.registration_start_datetime body)
     (EventBody.registration_end_datetime body) (EventBody.max_teams body)
     (EventBody.poster_url body) (EventBody.form_fields body)
     (EventBody.event_status body),
   check "title" (negb (bool_decide (title = ""))) "Event title is required"
   ++ check "title" (5 <=? Event.len title) "Title must be at least 5 characters"
   ++ check "title" (Event.len title <=? 200) "Title cannot exceed 200 characters"
   ++ check "description" (negb (bool_decide (description = "")))
        "Event description is required"
   ++ check "description" (10 <=? Event.len description)
        "Description must be at least 10 characters"
   ++ check "event_type" (negb (bool_decide (EventBody.event_type body = "")))
        "Event type is required"
   ++ check "event_type"
        (bool_decide (EventBody.event_type body
                      ∈ ["workshop"; "seminar"; "competition"; "cultural"; "sports";
                         "orientation"; "hackathon"]))
        "Invalid event type"
   ++ check "end_datetime"
        (EventBody.start_datetime body <? EventBody.end_datetime body)
        "Event end datetime must be after start datetime"
   ++ check "venue" (negb (bool_decide (venue = ""))) "Event venue is required"
   ++ check "venue" (Event.len venue <=? 100) "Venue cannot exceed 100 characters"
   ++ optional (EventBody.registration_mode body) (λ m,
        check "registration_mode" (bool_decide (m ∈ ["individual"; "team"]))
          ("Registration mode must be either " +:+ quoted "individual" +:+ " or "
           +:+ quoted "team"))
   ++ optional (EventBody.min_team_size body) (λ n,
        check "min_team_size" (1 <=? n) "Minimum team size must be at least 1")
   ++ optional (EventBody.max_team_size body) (λ n,
        check "max_team_size" (1 <=? n) "Maximum team size must be at least 1"
        ++ check "max_team_size"
             (negb (truthy_number (EventBody.min_team_size body)
                    && (n <? default 0 (EventBody.min_team_size body))))
             "Maximum team size must be greater than or equal to minimum team size")
   ++ check "registration_end_datetime"
        (EventBody.registration_end_datetime body <? EventBody.start_datetime body)
        "Registration end datetime must be before event start datetime"
   ++ optional (EventBody.max_teams body) (λ n,
        check "max_teams" (1 <=? n) "Maximum teams must be at least 1")
   ++ optional (EventBody.society_id body) (λ s,
        check "society_id" (isValidObjectId s) "Invalid society ID")).

(** ** Authentication (middleware/auth.js) *)

(** [String.prototype.split] on a one-character separator. *)
Fixpoint split_on (sep : ascii) (s : string) : list string :=
  match s with
  | EmptyString => [""]
  | String c rest =>
      if decide (c = sep) then "" :: split_on sep rest
      else match split_on sep rest with
           | w :: ws => String c w :: ws
           | [] => [String c ""]
           end
  end.

(** What [jwt.verify(token, secret)] does: it returns the decoded payload
    or throws one of its errors. *)
Inductive JwtResult :=
| Decoded (userId role : string)
| JsonWebTokenError
| TokenExpiredError
| OtherJwtError.

Inductive AuthOutcome :=
| Authenticated (user : AuthUser)
| Denied (code : Z) (msg : string).

(** The [try] block after the token is extracted, with its [catch]. *)
Definition verified (r : JwtResult) : AuthOutcome :=
  match r with
  | Decoded userId role => Authenticated (mkAuth userId role)
  | JsonWebTokenError => Denied 401 "Access denied. Invalid token."
  | TokenExpiredError => Denied 401 "Access denied. Token has expired."
  | OtherJwtError => Denied 500 "Internal server error during authentication."
  end.

Definition authenticateToken (verify : string → JwtResult)
    (authHeader : option string) : AuthOutcome :=
  if negb (truthy_string authHeader) then
    Denied 401 "Access denied. No token provided."
  else
    let token := split_on " " (default "" authHeader) !! 1%nat in
    if negb (truthy_string token) then
      Denied 401 ("Access denied. Invalid token format. Expected "
                  +:+ quoted "Bearer <token>" +:+ ".")
    else verified (verify (default "" token)).

(** [authorizeRoles(...allowedRoles)]: [None] lets the request pass. *)
Definition authorizeRoles (allowedRoles : list string) (req_user : option AuthUser)
    : option (Z * string) :=
  match req_user with
  | None => Some (401, "Access denied. User not authenticated.")
  | Some user =>
      if bool_decide (user_role user ∈ allowedRoles) then None
      else Some (403, "Access denied. Insufficient permissions.")
  end.

(** The string holds no space. *)
Definition one_word (s : string) : Prop :=
  Forall (λ c, c ≠ " "%char) (list_ascii_of_string s).

Module Tokens.
(** A verifier that knows one token, Lea's. *)
Definition verify (token : string) : JwtResult :=
  if decide (token = "lea-token") then Decoded Scenario.lea_id "student"
  else JsonWebTokenError.
End Tokens.

(** POST /api/events as it is mounted: [authenticateToken], then
    [authorizeRoles('society_head', 'admin')], [validateEventCreation] and
    the handler, which reads the body that the sanitizers have rewritten. *)
Definition route_post_events (verify : string → JwtResult) (authHeader : option string)
    (env : Env) (uuid : nat → string) (body : EventBody.t) (db : Db) : Db * Response :=
  match authenticateToken verify authHeader with
  | Denied code msg => (db, fail code msg)
  | Authenticated user =>
      match authorizeRoles ["society_head"; "admin"] (Some user) with
      | Some (code, msg) => (db, fail code msg)
      | None =>
          let '(body, errors) := validateEventCreation body in
          match handleValidationErrors errors with
          | Some r => (db, r)
          | None => post_events env uuid user body db
          end
      end
  end.

(** POST /api/registrations as it is mounted: [authenticateToken], then
    [validateRegistration] and the handler. *)
Definition route_post_registrations `{casts : SchemaCast} (verify : string → JwtResult)
    (authHeader : option string) (env : Env) (body : CreateBody.t) (db : Db)
    : Db * Response :=
  match authenticateToken verify authHeader with
  | Denied code msg => (db, fail code msg)
  | Authenticated user =>
      let '(body, errors) := validateRegistration body in
      match handleValidationErrors errors with
      | Some r => (db, r)
      | None => post_registrations env user body db
      end
  end.

(** PUT /api/events/:eventId as it is mounted: [authenticateToken], then
    [validateEventUpdate] and the handler. *)
Definition route_put_event (verify : string → JwtResult) (isURL : string → bool)
    (authHeader : option string) (env : Env) (eventId : string) (body : UpdateBody.t)
    (db : Db) : Db * Response :=
  match authenticateToken verify authHeader with
  | Denied code msg => (db, fail code msg)
  | Authenticated user =>
      let '(body, errors) := validateEventUpdate isURL body in
      match handleValidationErrors errors with
      | Some r => (db, r)
      | None => put_event env user eventId body db
      end
  end.

(** ** The registration form of the event page (pages/EventDetail.jsx) *)

Module EventDetail.

Module TeamMember.
Record t := mk { _id : string; name : string; email : string }.
End TeamMember.

(** The state of the component that the form reads and writes.  The
    object [formAnswers] is the list of its properties in insertion order,
    the order of [Object.keys] for names that are not array indices, as
    the generated field identifiers are. *)
Record State := mkState {
  formAnswers : list (string * string);
  teamName : string;
  teamMembers : list TeamMember.t;
  registrationError : string
}.

Definition set_teamMembers (ms : list TeamMember.t) (st : State) : State :=
  mkState (formAnswers st) (teamName st) ms (registrationError st).

Definition setRegistrationError (msg : string) (st : State) : State :=
  mkState (formAnswers st) (teamName st) (teamMembers st) msg.

(** [{ ...prev, [fieldId]: value }] *)
Fixpoint assign (fieldId value : string) (o : list (string * string))
    : list (string * string) :=
  match o with
  | [] => [(fieldId, value)]
  | (k, v) :: rest =>
      if decide (k = fieldId) then (k, value) :: rest
      else (k, v) :: assign fieldId value rest
  end.

Definition handleAnswerChange (fieldId value : string) (st : State) : State :=
  mkState (assign fieldId value (formAnswers st)) (teamName st) (teamMembers st)
    (registrationError st).

(** [formAnswers[fieldId]] *)
Definition answer_of (o : list (string * string)) (fieldId : string) : option string :=
  snd <$> (snd <$> list_find (λ kv, fst kv = fieldId) o).

Definition addTeamMember (event : Event.t) (user : TeamMember.t) (st : State) : State :=
  if Event.max_team_size event - 1 <=? Z.of_nat (length (teamMembers st)) then
    setRegistrationError
      ("Maximum " +:+ pretty (Event.max_team_size event)
       +:+ " team members allowed (including you)") st
  else
    setRegistrationError ""
      (set_teamMembers
         (teamMembers st
          ++ [TeamMember.mk (TeamMember._id user) (TeamMember.name user)
                (TeamMember.email user)]) st).

(** [teamMembers.filter((_, i) => i !== index)] *)
Definition removeTeamMember (index : nat) (st : State) : State :=
  set_teamMembers
    (snd <$> filter (λ im, fst im ≠ index) (imap (λ i m, (i, m)) (teamMembers st))) st.

(** [validateForm]: the state after it, and what it returns. *)
Definition validateForm (event : Event.t) (st : State) : State * bool :=
  let totalMembers := Z.of_nat (length (teamMembers st)) + 1 in
  if bool_decide (Event.registration_mode event = team)
     && bool_decide (trim (teamName st) = "") then
    (setRegistrationError "Please enter a team name" st, false)
  else if bool_decide (Event.registration_mode event = team)
          && (totalMembers <? Event.min_team_size event) then
    (setRegistrationError
       ("Team must have at least " +:+ pretty (Event.min_team_size event)
        +:+ " members (including you). Currently: " +:+ pretty totalMembers) st,
     false)
  else if bool_decide (Event.registration_mode event = team)
          && (Event.max_team_size event <? totalMembers) then
    (setRegistrationError
       ("Team cannot exceed " +:+ pretty (Event.max_team_size event) +:+ " members") st,
     false)
  else
    match list_find
            (λ field, FormField.is_required field = true
                      ∧ trim (default "" (answer_of (formAnswers st)
                                            (FormField.field_id field))) = "")
            (Event.form_fields event) with
    | Some (_, field) =>
        (setRegistrationError
           ("Please fill in the required field: " +:+ FormField.label field) st,
         false)
    | None => (st, true)
    end.

(** The [registrationData] that [handleRegistration] sends.  The
    identifier of a picked member is sent along but no handler reads it. *)
Definition registrationData (eventId : string) (event : Event.t) (st : State)
    : CreateBody.t :=
  CreateBody.mk eventId
    (Some ((λ kv, AnswerInput.mk (fst kv) (Some (JString (snd kv)))) <$> formAnswers st))
    None
    (if decide (Event.registration_mode event = team)
     then Some ((λ m, MemberInfo.mk (TeamMember.email m) (TeamMember.name m))
                <$> teamMembers st)
     else None)
    (if decide (Event.registration_mode event = team) then Some (teamName st) else None).

(** What the user does with the team picker. *)
Inductive PickerAction :=
| Add (user : TeamMember.t)
| Remove (index : nat).

Definition pick (event : Event.t) (a : PickerAction) (st : State) : State :=
  match a with
  | Add user => addTeamMember event user st
  | Remove index => removeTeamMember index st
  end.

Definition initial : State := mkState [] "" [] "".

Definition bob : TeamMember.t :=
  TeamMember.mk Scenario.bob_id "Bob" "bob@campus.edu".

Definition cy : TeamMember.t :=
  TeamMember.mk Scenario.cy_id "Cy" "cy@campus.edu".

(** Lea names her team and picks Bob, Cy and Bob again, then drops the
    first pick. *)
Definition filled : State :=
  foldl (λ st a, pick (Scenario.hack_night 2 3) a st)
    (handleAnswerChange "f-why" "For the fun of it"
       (handleAnswerChange "f-age" "20" (mkState [] "Night owls" [] "")))
    [Add bob; Add cy; Add bob; Remove 0%nat].
End EventDetail.

(** ** A cancelled event over time *)

(** An update of the event that [eventId] names may name a status only
    when that status is cancelled. *)
Definition keeps_cancelled (eventId : string) (req : Request) : Prop :=
  match req with
  | PUT_event id body =>
      castObjectId id = castObjectId eventId →
      from_option (λ s, s = "cancelled") True (UpdateBody.event_status body)
  | _ => True
  end.

#[global] Instance keeps_cancelled_dec eventId req : Decision (keeps_cancelled eventId req).
Proof.
  destruct req; simpl; try apply _.
  destruct (UpdateBody.event_status body); simpl; apply _.
Defined.

(** Every stored event is still stored, at its place and under its
    identifier, and the event [oid] is still cancelled when it was. *)
Definition stays_cancelled (oid : ObjectId) (db db' : Db) : Prop :=
  ∀ i e,
    events db !! i = Some e →
    ∃ e', events db' !! i = Some e'
          ∧ Event._id e' = Event._id e
          ∧ (Event._id e = oid → Event.event_status e = ev_cancelled →
             Event.event_status e' = ev_cancelled).

(** ** More requests on the scenarios *)

Module More.
Import Scenario.

(** Lea asks to add Cy and, once more, Bob to her team. *)
Definition add_cy_and_bob : option (list MemberToAdd.t) :=
  Some [ MemberToAdd.mk cy_id "Cy" "cy@campus.edu";
         MemberToAdd.mk bob_id "Bob" "bob@campus.edu" ].

(** The organizer moves the event to another room. *)
Definition body_new_venue : UpdateBody.t :=
  UpdateBody.mk None None (Some "Room 12") None None None None None None None None
    None None.

(** A request made after the event of the scenarios has started. *)
Definition env_started := mkEnv 7000 registration_id.

(** A verifier that knows the token of the organizer besides Lea's. *)
Definition verify (token : string) : JwtResult :=
  if decide (token = "org-token") then Decoded org_id "society_head"
  else Tokens.verify token.

(** The organizer moves the event to another room, with white space
    around the name of the room. *)
Definition body_padded_venue : UpdateBody.t :=
  UpdateBody.mk None None (Some "  Room 12 ") None None None None None None None None
    None None.

(** Scenario B with white space around the team name. *)
Definition body_padded_name :=
  CreateBody.mk event_id None (Some [bob_id]) None (Some "  Night owls ").

(** After the cancel of the event: the organizer moves it to another
    room, Bob answers his invitation, Lea cancels her team and the
    organizer cancels the event once more. *)
Definition after_cancel : list (Env * AuthUser * Request) :=
  [ (env, org, PUT_event event_id body_new_venue);
    (env_later, bob, PUT_invitation registration_id (Some "accept"));
    (env_later, lea, DELETE_registration registration_id);
    (env_later, org, DELETE_event event_id) ].

(** The organizer publishes the event again. *)
Definition body_republish : UpdateBody.t :=
  UpdateBody.mk None None None None (Some "published") None None None None None None
    None None.

End More.

(** * Properties *)

(** ** Control flow *)

Lemma castObjectId_valid id : isValidObjectId id = true → is_Some (castObjectId id).
Proof. unfold castObjectId. intros ->. eauto. Qed.

Lemma findById_names {R D} (key : D → ObjectId) coll id oid :
  castObjectId id = Some oid →
  findById (R := R) key coll id
  = Next (snd <$> list_find (λ d, names id (key d)) coll).
Proof.
  intros Hid. unfold findById. rewrite Hid. f_equal. f_equal.
  apply list_find_ext. intros d. unfold names. rewrite Hid. naive_solver.
Qed.

(** ** Create: the preconditions *)

Lemma check_preconditions_spec env user body db :
  isValidObjectId (CreateBody.event_id body) = true →
  isValidObjectId (userId user) = true →
  Forall (λ ev, Event.max_teams ev ≠ Some 0) (events db) →
  match spec_create_failure env user body db with
  | Some f => check_preconditions env user body db = Return (failure_response f)
  | None =>
      ∃ i event,
        list_find (λ e, names (CreateBody.event_id body) (Event._id e)) (events db)
        = Some (i, event)
        ∧ check_preconditions env user body db = Next event
  end.
Proof.
  intros [e He]%castObjectId_valid [u Hu]%castObjectId_valid Hmax.
  unfold spec_create_failure, check_preconditions.
  rewrite (findById_names _ _ _ _ He).
  destruct (list_find _ (events db)) as [[i event]|] eqn:Hfind; simpl; [|done].
  assert (Event.max_teams event ≠ Some 0) as Hmax'.
  { apply list_find_Some in Hfind as (Hi & _ & _).
    eapply Forall_lookup_1 in Hmax; eauto. }
  unfold is_open_status.
  destruct (decide (_ ∧ _)) as [[? ?]|Hst].
  { rewrite (bool_decide_eq_false_2 (_ = ev_published)), (bool_decide_eq_false_2 (_ = ev_ongoing)) by done.
    done. }
  assert (bool_decide (Event.event_status event = ev_published)
          || bool_decide (Event.event_status event = ev_ongoing) = true) as ->.
  { destruct (decide (Event.event_status event = ev_published)) as [->|?]; [done|].
    destruct (decide (Event.event_status event = ev_ongoing)) as [->|?]; [done|].
    naive_solver. }
  simpl.
  destruct (decide (Event.registration_open event = false)) as [->|Hopen]; [done|].
  apply not_false_is_true in Hopen. rewrite Hopen. simpl.
  destruct (decide (now env < _)) as [Hlt|Hge].
  { apply Z.ltb_lt in Hlt. rewrite Hlt. done. }
  apply Z.ltb_nlt in Hge. rewrite Hge. simpl.
  destruct (decide (_ < now env)) as [Hlt|Hge'].
  { apply Z.ltb_lt in Hlt. rewrite Hlt. done. }
  apply Z.ltb_nlt in Hge'. rewrite Hge'. simpl.
  unfold findOne_registration. rewrite He, Hu. simpl.
  destruct (decide (Exists _ (registrations db))) as [Hex|Hnex].
  { apply Exists_exists in Hex as (r & Hr & Hre & Hru).
    unfold names in Hre, Hru. rewrite He in Hre. rewrite Hu in Hru.
    destruct (list_find_elem_of
                (λ r, Registration.event_id r = e ∧ Registration.leader_user_id r = u)
                (registrations db) r) as [[j r'] Hj]; [done|naive_solver|].
    rewrite Hj. simpl. done. }
  destruct (list_find _ (registrations db)) as [[j r']|] eqn:Hj.
  { exfalso. apply Hnex. apply list_find_Some in Hj as (Hjr & [? ?] & _).
    apply Exists_exists. exists r'. unfold names. rewrite He, Hu.
    split; [by eapply list_elem_of_lookup_2|naive_solver]. }
  simpl.
  destruct (Event.max_teams event) as [max_teams|] eqn:Hmt; simpl; [|eauto].
  assert ((max_teams =? 0) = false) as -> by (apply Z.eqb_neq; congruence).
  simpl. unfold count_active_registrations. rewrite He. simpl.
  rewrite (list_filter_iff
             (λ r, Registration.event_id r = e
                   ∧ (Registration.status r = pending ∨ Registration.status r = confirmed))
             (λ r, names (CreateBody.event_id body) (Registration.event_id r)
                   ∧ (Registration.status r = pending ∨ Registration.status r = confirmed))).
  2:{ intros r. unfold names. rewrite He. intuition congruence. }
  destruct (decide (max_teams ≤ _)) as [Hle|Hgt].
  { apply Z.leb_le in Hle. rewrite Hle. done. }
  apply Z.leb_nle in Hgt. rewrite Hgt. simpl. eauto.
Qed.

Lemma is_failure_fail code msg : 400 ≤ code → is_failure (fail code msg).
Proof. by split. Qed.

Lemma returns_failures_bind {A B} (f : Flow Response A) (k : A → Flow Response B) :
  returns_failures f → (∀ a, returns_failures (k a)) → returns_failures (f ≫= k).
Proof. destruct f; simpl; auto. Qed.

Lemma returns_failures_return_if c code msg :
  400 ≤ code → returns_failures (return_if c (fail code msg)).
Proof. destruct c; [apply is_failure_fail|done]. Qed.

Lemma returns_failures_findById {D} (key : D → ObjectId) coll id :
  returns_failures (findById (R := Response) key coll id).
Proof. unfold findById. by destruct (castObjectId id). Qed.

Ltac flow_fails :=
  repeat first
    [ apply returns_failures_return_if; lia
    | apply returns_failures_findById
    | apply is_failure_fail; lia
    | apply returns_failures_bind; [|intros ?]
    | progress simpl
    | done
    | case_match ].

Lemma check_preconditions_fails env user body db :
  returns_failures (check_preconditions env user body db).
Proof.
  unfold check_preconditions, findOne_registration, count_active_registrations.
  flow_fails.
Qed.

Lemma push_team_members_fails users userId ids members :
  returns_failures (push_team_members users userId ids members).
Proof.
  revert members. induction ids as [|id ids IH]; intros members; simpl; [done|].
  apply returns_failures_bind; [apply returns_failures_findById|].
  intros [u|]; [|by apply is_failure_fail]. by destruct (decide (id = userId)).
Qed.

Lemma build_team_fails db userId event body :
  returns_failures (build_team db userId event body).
Proof.
  unfold build_team, assemble_members, check_team_size.
  apply returns_failures_bind; [by apply returns_failures_return_if|intros _].
  apply returns_failures_bind; [|intros ms].
  - apply returns_failures_bind; [|done].
    destruct (CreateBody.team_members body); [apply push_team_members_fails|done].
  - flow_fails.
Qed.

(** ** Create: the members array *)

Lemma push_team_members_extends users userId ids members res :
  push_team_members users userId ids members = Next res →
  ∃ rest, res = members ++ rest.
Proof.
  revert members. induction ids as [|id ids IH]; intros members; simpl.
  - intros [= <-]. exists []. by rewrite app_nil_r.
  - destruct (findById User._id users id) as [[u|]|r|e]; simpl; try done.
    destruct (decide (id = userId)); [by apply IH|].
    intros (rest & ->)%IH. rewrite <- app_assoc. eauto.
Qed.

Lemma push_team_members_info_extends users userId infos members :
  ∃ rest, push_team_members_info users userId infos members = members ++ rest.
Proof.
  revert members. induction infos as [|info infos IH]; intros members; simpl.
  - exists []. by rewrite app_nil_r.
  - destruct (findOne_user_by_email users (MemberInfo.email info)) as [u|].
    + destruct (decide (User._id u ≠ userId)); [|by apply IH].
      destruct (IH (members ++ [Member.mk_data (Some (User._id u)) None None
                                  "member" "invited"])) as (rest & ->).
      rewrite <- app_assoc. eauto.
    + destruct (IH (members ++ [Member.mk_data None (Some (MemberInfo.email info))
                                  (Some (MemberInfo.name info))
                                  "member" "pending_registration"])) as (rest & ->).
      rewrite <- app_assoc. eauto.
Qed.

Lemma assemble_members_leader_first users userId body members :
  assemble_members users userId body = Next members →
  ∃ rest,
    members = Member.mk_data (Some userId) None None "leader" "auto_added" :: rest.
Proof.
  unfold assemble_members. intros Hm.
  destruct (CreateBody.team_members body) as [ids|]; simpl in Hm.
  - destruct (push_team_members users userId ids _) as [ms| |] eqn:Hids; simplify_eq/=.
    apply push_team_members_extends in Hids as (rest & ->).
    destruct (CreateBody.team_members_info body) as [infos|]; [|by eauto].
    destruct (push_team_members_info_extends users userId infos
                ([Member.mk_data (Some userId) None None "leader" "auto_added"] ++ rest))
      as (rest' & ->).
    simpl. eauto.
  - simplify_eq/=. destruct (CreateBody.team_members_info body) as [infos|]; [|by eauto].
    destruct (push_team_members_info_extends users userId infos
                [Member.mk_data (Some userId) None None "leader" "auto_added"])
      as (rest' & ->).
    simpl. eauto.
Qed.

Section CreateProperties.
Context {casts : SchemaCast}.

Lemma Registration_create_not_Return {R} env db d (r : R) :
  Registration_create env db d ≠ Return r.
Proof. unfold Registration_create. repeat case_match; done. Qed.

Lemma catch_create_fails e : is_failure (catch_create e).
Proof. by destruct e. Qed.

(** What a create does once its preconditions hold: it answers with a
    failure and leaves the database alone, or it inserts the document
    that [Registration.create] builds and answers 201. *)
Lemma post_registrations_inv env user body db :
  (∃ r, post_registrations env user body db = (db, r) ∧ is_failure r)
  ∨ (∃ event members db' registration,
       check_preconditions env user body db = Next event
       ∧ match members with
         | Some ms =>
             Event.registration_mode event = team
             ∧ build_team db (userId user) event body = Next ms
         | None => Event.registration_mode event ≠ team
         end
       ∧ Registration_create (R := Response) env db
           (Registration.mk_data (CreateBody.event_id body)
              (Event.registration_mode event) (userId user) "pending"
              (if decide (Event.registration_mode event = team)
               then CreateBody.team_name body else None)
              members
              (process_answers (Event.form_fields event) <$> CreateBody.form_answers body))
         = Next (db', registration)
       ∧ post_registrations env user body db
         = (db', ok 201 "Registration successful" (registration_payload registration))).
Proof.
  unfold post_registrations.
  pose proof (check_preconditions_fails env user body db) as Hpre'.
  destruct (check_preconditions env user body db) as [event|r|e] eqn:Hpre; simpl;
    [|left; eauto|left; eauto using catch_create_fails].
  pose proof (build_team_fails db (userId user) event body) as Hteam'.
  set (d := λ members,
         Registration.mk_data (CreateBody.event_id body)
           (Event.registration_mode event) (userId user) "pending"
           (if decide (Event.registration_mode event = team)
            then CreateBody.team_name body else None)
           members
           (process_answers (Event.form_fields event) <$> CreateBody.form_answers body)).
  assert (∀ members,
    match members with
    | Some ms =>
        Event.registration_mode event = team
        ∧ build_team db (userId user) event body = Next ms
    | None => Event.registration_mode event ≠ team
    end →
    (∃ r, handle db catch_create
            ('(db', registration) ← Registration_create env db (d members);
             Next (db', ok 201 "Registration successful"
                          (registration_payload registration)))
          = (db, r) ∧ is_failure r)
    ∨ (∃ db' registration,
         Registration_create (R := Response) env db (d members) = Next (db', registration)
         ∧ handle db catch_create
             ('(db', registration) ← Registration_create env db (d members);
              Next (db', ok 201 "Registration successful"
                           (registration_payload registration)))
           = (db', ok 201 "Registration successful" (registration_payload registration))))
    as Hcreate.
  { intros members _.
    destruct (Registration_create (R := Response) env db (d members))
      as [[db' reg]|r|e] eqn:Hc; simpl.
    - right. eauto.
    - by apply Registration_create_not_Return in Hc.
    - left. eauto using catch_create_fails. }
  destruct (decide (Event.registration_mode event = team)) as [Hteam|Hteam]; simpl.
  - destruct (build_team db (userId user) event body) as [ms|r|e] eqn:Hbuild; simpl;
      [|left; eauto|left; eauto using catch_create_fails].
    destruct (Hcreate (Some ms)) as [Hfail|(db' & reg & Hc & Hres)]; [done|by left|].
    right. exists event, (Some ms), db', reg. unfold d in *.
    repeat case_decide; done.
  - destruct (Hcreate None) as [Hfail|(db' & reg & Hc & Hres)]; [done|by left|].
    right. exists event, None, db', reg. unfold d in *.
    repeat case_decide; done.
Qed.
Lemma Registration_create_Next {R} env db d db' r :
  Registration_create (R := R) env db d = Next (db', r) →
  Registration.validate d = []
  ∧ Registration.cast (now env) (new_id env) d = Some r
  ∧ db' = set_registrations (registrations db ++ [r]) db.
Proof.
  unfold Registration_create. intros Hc.
  repeat case_match; simplify_eq. done.
Qed.

Lemma Registration_cast_status now new_id d r :
  Registration.cast now new_id d = Some r →
  Status_of_string (Registration.d_status d) = Some (Registration.status r).
Proof.
  unfold Registration.cast. intros Hc. simplify_option_eq. done.
Qed.

(** C1. For a create request that passed input validation, the
    preconditions are checked in the order of the specification: the
    first one that fails decides the response (404 for a missing event,
    400 with its own message for a closed status, a closed flag, a window
    not yet open and a deadline passed, 409 for an existing registration
    of the caller, 400 for a full event), the messages are pairwise
    distinct, and the database changes or the answer is 201 only when
    none of them fails; the inserted registration is then pending. *)
Theorem create_preconditions_in_order env user body db :
  isValidObjectId (CreateBody.event_id body) = true →
  isValidObjectId (userId user) = true →
  Forall (λ ev, Event.max_teams ev ≠ Some 0) (events db) →
  (∀ f, spec_create_failure env user body db = Some f →
        f ∈ create_failures
        ∧ post_registrations env user body db = (db, failure_response f))
  ∧ NoDup (snd <$> create_failures)
  ∧ (∀ db' r, post_registrations env user body db = (db', r) →
       db' ≠ db ∨ status_code r = 201 →
       spec_create_failure env user body db = None
       ∧ ∃ registration,
           r = ok 201 "Registration successful" (registration_payload registration)
           ∧ db' = set_registrations (registrations db ++ [registration]) db
           ∧ Registration.status registration = pending).
Proof.
  intros Hev Hu Hmax.
  pose proof (check_preconditions_spec env user body db Hev Hu Hmax) as Hspec.
  split_and!.
  - intros f Hf. rewrite Hf in Hspec. split.
    + unfold spec_create_failure in Hf. unfold create_failures.
      repeat case_match; simplify_eq; rewrite !elem_of_cons; tauto.
    + unfold post_registrations. by rewrite Hspec.
  - apply (bool_decide_unpack _). vm_compute. exact I.
  - intros db' r Hpost Hcreated.
    destruct (post_registrations_inv env user body db)
      as [(r' & Hr' & Hfail & Hcode)|(event & members & db'' & reg & Hpre & _ & Hc & Hr')];
      rewrite Hpost in Hr'; simplify_eq.
    { destruct Hcreated as [?|Hcode']; [done|]. rewrite Hcode' in Hcode. lia. }
    split.
    + destruct (spec_create_failure env user body db) as [f|]; [|done].
      rewrite Hspec in Hpre. discriminate.
    + apply Registration_create_Next in Hc as (_ & Hcast & ->).
      exists reg. split_and!; [done|reflexivity|].
      apply Registration_cast_status in Hcast.
      change (Some pending = Some (Registration.status reg)) in Hcast.
      congruence.
Qed.
(** C5. In a team create that reaches the size check, the assembled
    members start with the leader, and the create fails with a message
    naming the bound when their number (whatever their invite status) is
    below [min_team_size] or above [max_team_size]; with a minimum of 2
    and no additional member the failure reads "Team must have at least
    2 members". *)
Theorem create_rejects_team_size env user body db event members :
  check_preconditions env user body db = Next event →
  Event.registration_mode event = team →
  truthy_string (CreateBody.team_name body) = true →
  trim (default "" (CreateBody.team_name body)) ≠ "" →
  assemble_members (users db) (userId user) body = Next members →
  (∃ rest,
     members = Member.mk_data (Some (userId user)) None None "leader" "auto_added" :: rest)
  ∧ (Z.of_nat (length members) < Event.min_team_size event →
     post_registrations env user body db
     = (db, fail 400 ("Team must have at least "
                      +:+ pretty (Event.min_team_size event) +:+ " members")))
  ∧ (Event.min_team_size event ≤ Z.of_nat (length members) →
     Event.max_team_size event < Z.of_nat (length members) →
     post_registrations env user body db
     = (db, fail 400 ("Team cannot have more than "
                      +:+ pretty (Event.max_team_size event) +:+ " members")))
  ∧ (Event.min_team_size event = 2 →
     default [] (CreateBody.team_members body) = [] →
     default [] (CreateBody.team_members_info body) = [] →
     post_registrations env user body db
     = (db, fail 400 "Team must have at least 2 members")).
Proof.
  intros Hpre Hteam Hname Htrim Hm.
  assert (∀ r, check_team_size event members = Return r →
               post_registrations env user body db = (db, r)) as Hpost.
  { intros r Hr. unfold post_registrations. rewrite Hpre. simpl.
    destruct (decide (Event.registration_mode event = team)); [|done].
    unfold build_team.
    rewrite Hname, bool_decide_eq_false_2 by done. simpl.
    rewrite Hm. simpl. rewrite Hr. reflexivity. }
  split_and!.
  - by eapply assemble_members_leader_first.
  - intros Hlt. apply Hpost. unfold check_team_size.
    apply Z.ltb_lt in Hlt. by rewrite Hlt.
  - intros Hge Hgt. apply Hpost. unfold check_team_size.
    apply Z.ltb_ge in Hge. apply Z.ltb_lt in Hgt. by rewrite Hge, Hgt.
  - intros Hmin Hids Hinfos. apply Hpost. unfold check_team_size.
    assert (members = [Member.mk_data (Some (userId user)) None None
                         "leader" "auto_added"]) as ->.
    { unfold assemble_members in Hm.
      destruct (CreateBody.team_members body) as [ids|],
        (CreateBody.team_members_info body) as [infos|];
        simplify_eq/=; done. }
    rewrite Hmin. reflexivity.
Qed.
End CreateProperties.

Lemma create_rejects_team_size_witness :
  post_registrations (casts := strict_cast)
    Scenario.env Scenario.lea Scenario.body_alone (Scenario.db0 2 4)
  = (Scenario.db0 2 4, fail 400 "Team must have at least 2 members").
Proof.
  apply (create_rejects_team_size (casts := strict_cast)
           Scenario.env Scenario.lea Scenario.body_alone (Scenario.db0 2 4)
           (Scenario.hack_night 2 4)
           [Member.mk_data (Some Scenario.lea_id) None None "leader" "auto_added"]);
    vm_compute; congruence.
Defined.


Lemma create_preconditions_in_order_witness :
  spec_create_failure Scenario.env Scenario.lea Scenario.body_with_bob Scenario.db_team
  = Some (Conflict, "You are already registered for this event")
  ∧ post_registrations (casts := strict_cast)
      Scenario.env Scenario.lea Scenario.body_with_bob Scenario.db_team
    = (Scenario.db_team, fail 409 "You are already registered for this event").
Proof.
  split; [vm_compute; reflexivity|].
  apply (proj1 (create_preconditions_in_order (casts := strict_cast)
           Scenario.env Scenario.lea Scenario.body_with_bob Scenario.db_team
           ltac:(vm_compute; reflexivity) ltac:(vm_compute; reflexivity)
           ltac:(vm_compute; repeat constructor; discriminate))
         (Conflict, "You are already registered for this event")).
  vm_compute; reflexivity.
Defined.

(** ** Create: the answers *)

Lemma answerData_of_matched form_fields a :
  matched form_fields a ↔ is_Some (answerData_of form_fields a).
Proof.
  unfold matched, answerData_of.
  destruct (find_field form_fields (AnswerInput.field_id a)); split; intros [? ?]; eauto;
    done.
Qed.

Lemma omap_cons {A B} (f : A → option B) a l :
  omap f (a :: l) = match f a with Some y => y :: omap f l | None => omap f l end.
Proof. reflexivity. Qed.

Lemma process_answers_drops_unmatched form_fields form_answers :
  process_answers form_fields (filter (matched form_fields) form_answers)
  = process_answers form_fields form_answers.
Proof.
  unfold process_answers.
  induction form_answers as [|a l IH]; [done|].
  destruct (decide (matched form_fields a)) as [Hm|Hm].
  - rewrite filter_cons_True by done. rewrite !omap_cons. by rewrite IH.
  - rewrite filter_cons_False by done. rewrite omap_cons, IH.
    destruct (answerData_of form_fields a) eqn:Hd; [|done].
    exfalso. apply Hm, answerData_of_matched. eauto.
Qed.

Section AnswerProperties.
Context {casts : SchemaCast}.

Lemma answerData_cast form_fields a d s :
  answerData_of form_fields a = Some d →
  Answer.cast d = Some s →
  stores_answer form_fields a s.
Proof.
  unfold answerData_of, stores_answer, Answer.cast.
  destruct (find_field form_fields (AnswerInput.field_id a)) as [field|]; [|done].
  intros [= <-] Hs. exists field. split; [done|].
  repeat case_decide; simplify_option_eq; done.
Qed.

Lemma process_answers_cast form_fields form_answers stored :
  mapM Answer.cast (process_answers form_fields form_answers) = Some stored →
  Forall2 (stores_answer form_fields) (filter (matched form_fields) form_answers) stored.
Proof.
  unfold process_answers. revert stored.
  induction form_answers as [|a l IH]; intros stored.
  - simpl. intros [= <-]. constructor.
  - destruct (answerData_of form_fields a) as [d|] eqn:Hd.
    + rewrite filter_cons_True by (apply answerData_of_matched; eauto).
      rewrite omap_cons, Hd. simpl.
      destruct (Answer.cast d) as [s|] eqn:Hs; simpl; [|done].
      destruct (mapM Answer.cast (omap (answerData_of form_fields) l))
        as [stored'|] eqn:Hl; simpl; [|done].
      intros [= <-]. constructor; [by eapply answerData_cast|by apply IH].
    + rewrite filter_cons_False.
      * rewrite omap_cons, Hd. apply IH.
      * rewrite answerData_of_matched, Hd. by intros [? [=]].
Qed.

(** C7. In a create that reaches its answer processing, the answers
    whose field identifier names no form field of the event are dropped
    without any effect on the outcome, and when the registration is
    created its stored answers are, in order, the other answers: each
    with the label of its field and its cast value in [value_number]
    for a number field, [value_date] for a date field and [value_text]
    for any other, the two other slots absent. *)
Theorem create_answers_by_field env user body db event :
  check_preconditions env user body db = Next event →
  post_registrations env user
    (with_form_answers
       (filter (matched (Event.form_fields event)) <$> CreateBody.form_answers body) body)
    db
  = post_registrations env user body db
  ∧ ∀ db' registration msg,
      post_registrations env user body db
      = (db', ok 201 msg (registration_payload registration)) →
      Forall2 (stores_answer (Event.form_fields event))
        (filter (matched (Event.form_fields event))
           (default [] (CreateBody.form_answers body)))
        (Registration.answers registration).
Proof.
  intros Hpre. split.
  - unfold post_registrations.
    change (check_preconditions env user (with_form_answers _ body) db)
      with (check_preconditions env user body db).
    rewrite Hpre. simpl.
    change (build_team db (userId user) event (with_form_answers _ body))
      with (build_team db (userId user) event body).
    destruct (CreateBody.form_answers body) as [answers|]; simpl; [|done].
    by rewrite process_answers_drops_unmatched.
  - intros db' reg msg Hpost.
    destruct (post_registrations_inv env user body db)
      as [(r' & Hr' & Hfail & Hcode)|(event' & members & db'' & reg' & Hpre' & _ & Hc & Hr')];
      rewrite Hpost in Hr'; simplify_eq.
    rewrite Hpre in Hpre'. simplify_eq.
    apply Registration_create_Next in Hc as (_ & Hcast & _).
    unfold Registration.cast in Hcast. simpl in Hcast.
    destruct (CreateBody.form_answers body) as [answers|]; simpl in *.
    + simplify_option_eq; by apply process_answers_cast.
    + simplify_option_eq; constructor.
Qed.
End AnswerProperties.

Lemma create_answers_by_field_witness :
  ∃ db' registration,
    post_registrations (casts := strict_cast)
      Scenario.env Scenario.lea Scenario.body_with_bob (Scenario.db0 2 4)
    = (db', ok 201 "Registration successful" (registration_payload registration))
    ∧ Registration.answers registration = [Answer.mk "f-age" "Age" None (Some 20) None]
    ∧ Forall2 (stores_answer (H := strict_cast) (Event.form_fields (Scenario.hack_night 2 4)))
        [AnswerInput.mk "f-age" (Some (JNumber 20))]
        (Registration.answers registration).
Proof.
  eexists _, _. split; [vm_compute; reflexivity|]. split; [reflexivity|].
  eapply (proj2 (create_answers_by_field (casts := strict_cast)
                   Scenario.env Scenario.lea Scenario.body_with_bob (Scenario.db0 2 4)
                   (Scenario.hack_night 2 4) ltac:(vm_compute; reflexivity))).
  vm_compute; reflexivity.
Defined.

(** ** Create: members that name the same account, members without account *)

(** C10. The create does not deduplicate member identifiers other than
    the leader's.  With Bob named twice in the identifier list, and with
    Bob named once by identifier and once by his email, the registration
    is created with two member entries for Bob's account next to the
    leader; each entry counts for the size bounds: the three entries meet a
    minimum of 3, and exceed a maximum of 2. *)
Theorem create_keeps_duplicate_members :
  (∃ db' registration,
     post_registrations (casts := strict_cast)
       Scenario.env Scenario.lea Scenario.body_bob_twice (Scenario.db0 3 4)
     = (db', ok 201 "Registration successful" (registration_payload registration))
     ∧ Member.user_id <$> Registration.members registration
       = [Scenario.lea_id; Scenario.bob_id; Scenario.bob_id]
     ∧ Z.of_nat (length (Registration.members registration))
       = Event.min_team_size (Scenario.hack_night 3 4))
  ∧ (∃ db' registration,
       post_registrations (casts := strict_cast)
         Scenario.env Scenario.lea Scenario.body_bob_id_and_email (Scenario.db0 3 4)
       = (db', ok 201 "Registration successful" (registration_payload registration))
       ∧ Member.user_id <$> Registration.members registration
         = [Scenario.lea_id; Scenario.bob_id; Scenario.bob_id]
       ∧ Z.of_nat (length (Registration.members registration))
         = Event.min_team_size (Scenario.hack_night 3 4))
  ∧ post_registrations (casts := strict_cast)
      Scenario.env Scenario.lea Scenario.body_bob_twice (Scenario.db0 2 2)
    = (Scenario.db0 2 2, fail 400 "Team cannot have more than 2 members")
  ∧ post_registrations (casts := strict_cast)
      Scenario.env Scenario.lea Scenario.body_bob_id_and_email (Scenario.db0 2 2)
    = (Scenario.db0 2 2, fail 400 "Team cannot have more than 2 members")
  ∧ Scenario.bob_id ≠ userId Scenario.lea.
Proof.
  split_and!.
  - eexists _, _. split; [vm_compute; reflexivity|]. split; reflexivity.
  - eexists _, _. split; [vm_compute; reflexivity|]. split; reflexivity.
  - vm_compute; reflexivity.
  - vm_compute; reflexivity.
  - discriminate.
Qed.

Lemma push_team_members_info_unresolved users userId infos members info :
  info ∈ infos →
  findOne_user_by_email users (MemberInfo.email info) = None →
  ∃ d, d ∈ push_team_members_info users userId infos members
       ∧ Member.d_user_id d = None
       ∧ Member.d_email d = Some (MemberInfo.email info)
       ∧ Member.d_invite_status d = "pending_registration".
Proof.
  intros Hin Hnone. revert members.
  induction infos as [|i infos IH]; intros members; [by apply elem_of_nil in Hin|].
  apply elem_of_cons in Hin as [->|Hin]; simpl.
  - rewrite Hnone.
    destruct (push_team_members_info_extends users userId infos
                (members ++ [Member.mk_data None (Some (MemberInfo.email i))
                               (Some (MemberInfo.name i)) "member" "pending_registration"]))
      as (rest & ->).
    exists (Member.mk_data None (Some (MemberInfo.email i))
              (Some (MemberInfo.name i)) "member" "pending_registration").
    split; [|done].
    rewrite !elem_of_app, elem_of_cons. eauto.
  - destruct (findOne_user_by_email users (MemberInfo.email i)); [|by apply IH].
    destruct (decide _); by apply IH.
Qed.

Lemma concat_nil_elem {A} (ls : list (list A)) l :
  concat ls = [] → l ∈ ls → l = [].
Proof.
  induction ls as [|l' ls IH]; simpl; [by intros _ ?%elem_of_nil|].
  intros [-> ?]%app_eq_nil [->|?]%elem_of_cons; auto.
Qed.

Lemma Member_validate_no_user d : Member.d_user_id d = None → Member.validate d ≠ [].
Proof. unfold Member.validate. by intros ->. Qed.

Lemma build_team_infos db userId event body infos ms :
  build_team db userId event body = Next ms →
  CreateBody.team_members_info body = Some infos →
  ∃ ms0, ms = push_team_members_info (users db) userId infos ms0.
Proof.
  unfold build_team, assemble_members. intros Hbuild Hinfos. rewrite Hinfos in Hbuild.
  destruct (return_if _ _); simplify_eq/=.
  destruct (match CreateBody.team_members body with
            | Some ids => _ | None => _ end) as [ms0| |]; simplify_eq/=.
  destruct (check_team_size event _); simplify_eq/=. eauto.
Qed.

Section UnresolvedPairs.
Context {casts : SchemaCast}.

(** The schema refuses any members array that holds an entry without
    [user_id]: a team create whose pairs include one that names no account
    is never answered 201 and never changes the database. *)
Lemma create_with_unresolved_pair_fails env user body db event infos info :
  check_preconditions env user body db = Next event →
  Event.registration_mode event = team →
  CreateBody.team_members_info body = Some infos →
  info ∈ infos →
  findOne_user_by_email (users db) (MemberInfo.email info) = None →
  ∃ r, post_registrations env user body db = (db, r) ∧ is_failure r.
Proof.
  intros Hpre Hteam Hinfos Hin Hnone.
  destruct (post_registrations_inv env user body db)
    as [?|(event' & members & db' & reg & Hpre' & Hms & Hc & _)]; [done|].
  exfalso. rewrite Hpre in Hpre'. simplify_eq.
  destruct members as [ms|]; [|done]. destruct Hms as [_ Hbuild].
  apply Registration_create_Next in Hc as (Hvalid & _).
  assert (∃ d, d ∈ ms ∧ Member.d_user_id d = None) as (d & Hd & Hnouser).
  { destruct (build_team_infos _ _ _ _ _ _ Hbuild Hinfos) as (ms0 & ->).
    destruct (push_team_members_info_unresolved (users db) (userId user) infos ms0 info)
      as (d & ? & ? & _); eauto. }
  unfold Registration.validate in Hvalid. simpl in Hvalid.
  repeat (apply app_eq_nil in Hvalid as [? Hvalid]).
  match goal with Hc : concat (Member.validate <$> ms) = [] |- _ =>
    pose proof (concat_nil_elem _ (Member.validate d) Hc) as Hall end.
  eapply Member_validate_no_user; [done|].
  apply Hall. by apply list_elem_of_fmap_2.
Qed.
End UnresolvedPairs.

(** C2, on the code.  Lea creates a team with Bob by identifier and Dana
    by an email that belongs to no account.  The handler pushes Dana as an
    entry without [user_id] and with invite status pending_registration;
    [memberSchema] requires [user_id] and has no such invite status, so
    the create is answered 400 "Validation failed" and nothing is stored. *)
Theorem create_unresolved_pair_rejected_by_schema :
  findOne_user_by_email Scenario.accounts "dana@campus.edu" = None
  ∧ build_team (Scenario.db0 2 4) Scenario.lea_id (Scenario.hack_night 2 4)
      Scenario.body_with_newcomer
    = Next [ Member.mk_data (Some Scenario.lea_id) None None "leader" "auto_added";
             Member.mk_data (Some Scenario.bob_id) None None "member" "invited";
             Member.mk_data None (Some "dana@campus.edu") (Some "Dana")
               "member" "pending_registration" ]
  ∧ ∃ errors,
      post_registrations (casts := strict_cast)
        Scenario.env Scenario.lea Scenario.body_with_newcomer (Scenario.db0 2 4)
      = (Scenario.db0 2 4,
         mkResponse 400 false "Validation failed" (errors_payload errors))
      ∧ "User ID is required" ∈ errors
      ∧ "pending_registration is not a valid invite status" ∈ errors.
Proof.
  split_and!; [vm_compute; reflexivity..|].
  eexists. split; [vm_compute; reflexivity|].
  rewrite !elem_of_cons. auto.
Qed.

(** ** Answering an invitation *)

Ltac failed := eexists; split; [reflexivity|by apply is_failure_fail].

(** The invitation route refuses an answer to an invitation that is no
    longer open, and writes nothing. *)
Lemma put_invitation_guard user registrationId action db registration memberIndex member :
  action = Some "accept" ∨ action = Some "decline" →
  findById (R := Response) Registration._id (registrations db) registrationId
  = Next (Some registration) →
  find_member (Registration.members registration) (userId user)
  = Some (memberIndex, member) →
  Member.invite_status member ≠ invited →
  put_invitation user registrationId action db
  = (db, fail 400 ("Invitation already "
                   +:+ InviteStatus_to_string (Member.invite_status member))).
Proof.
  intros Haction Hfind Hmember Hstatus. unfold put_invitation.
  assert (negb (bool_decide (action = Some "accept")
                || bool_decide (action = Some "decline")) = false) as ->.
  { destruct Haction as [->| ->]; reflexivity. }
  simpl. rewrite Hfind. simpl. rewrite Hmember. simpl.
  by rewrite bool_decide_eq_true_2.
Qed.

(** C4, on the code.  After Bob accepted, the invitation route answers a
    second response of Bob with 400 "Invitation already accepted"; the
    member route has no such guard: Bob's "declined" is answered 200 and
    his stored invite status changes from accepted to declined. *)
Theorem member_route_overwrites_answered_invitation :
  Scenario.invite_statuses Scenario.db_accepted
  = Some [(Scenario.lea_id, auto_added); (Scenario.bob_id, accepted)]
  ∧ put_invitation Scenario.bob Scenario.registration_id (Some "decline")
      Scenario.db_accepted
    = (Scenario.db_accepted, fail 400 "Invitation already accepted")
  ∧ ∃ db' registration,
      put_member Scenario.env_later Scenario.bob Scenario.registration_id
        Scenario.bob_id (Some "declined") Scenario.db_accepted
      = (db', ok 200 "Invitation declined" (registration_payload registration))
      ∧ Scenario.invite_statuses db'
        = Some [(Scenario.lea_id, auto_added); (Scenario.bob_id, declined)].
Proof.
  split_and!; [vm_compute; reflexivity..|].
  eexists _, _. split; vm_compute; reflexivity.
Qed.

(** ** Removing a member *)

(** The target of a removal is never a member with the leader role. *)
Lemma delete_member_keeps_leader user registrationId memberId db registration
    memberIndex memberToRemove :
  findById (R := Response) Registration._id (registrations db) registrationId
  = Next (Some registration) →
  find_member (Registration.members registration) memberId
  = Some (memberIndex, memberToRemove) →
  Member.role memberToRemove = role_leader →
  ∃ r, delete_member user registrationId memberId db = (db, r) ∧ is_failure r.
Proof.
  intros Hfind Hmember Hrole. unfold delete_member. rewrite Hfind. simpl.
  destruct (bool_decide (Registration.leader_user_id registration ≠ userId user));
    simpl; [failed|].
  rewrite Hmember. simpl. rewrite Hrole. simpl. failed.
Qed.

(** An accepted or auto-added member is not removed while the accepted
    count is at or below the minimum of the event. *)
Lemma delete_member_at_minimum user registrationId memberId db registration
    memberIndex memberToRemove event :
  findById (R := Response) Registration._id (registrations db) registrationId
  = Next (Some registration) →
  Registration.leader_user_id registration = userId user →
  find_member (Registration.members registration) memberId
  = Some (memberIndex, memberToRemove) →
  Member.role memberToRemove ≠ role_leader →
  findById (R := Response) Event._id (events db) (Registration.event_id registration)
  = Next (Some event) →
  Member.counts_as_accepted memberToRemove = true →
  accepted_count (Registration.members registration) ≤ Event.min_team_size event →
  delete_member user registrationId memberId db
  = (db, fail 400 ("Cannot remove accepted member. Team must have at least "
                   +:+ pretty (Event.min_team_size event) +:+ " accepted members")).
Proof.
  intros Hfind Hleader Hmember Hrole Hevent Hacc Hcount. unfold delete_member.
  rewrite Hfind. simpl.
  rewrite bool_decide_eq_false_2 by (by intros ?). simpl.
  rewrite Hmember. simpl. rewrite bool_decide_eq_false_2 by done. simpl.
  rewrite Hevent. simpl. rewrite Hacc. apply Z.leb_le in Hcount. by rewrite Hcount.
Qed.

(** C6, on the code.  Lea leads a team of two for an event with a minimum
    of 2; Bob is only invited.  The handler skips the accepted-count check
    for Bob, but the pre-save hook of the schema counts all members, finds
    one left, and rejects the save: the removal is answered 500 and Bob
    stays in the team. *)
Theorem remove_invited_member_blocked_by_save_hook :
  Scenario.invite_statuses Scenario.db_team
  = Some [(Scenario.lea_id, auto_added); (Scenario.bob_id, invited)]
  ∧ (∃ registration,
       Scenario.the_registration Scenario.db_team = Some registration
       ∧ Registration.pre_save (events Scenario.db_team) true
           (Registration.set_members (delete 1%nat (Registration.members registration))
              registration)
         = Some (Error "Team must have at least 2 members"))
  ∧ delete_member Scenario.lea Scenario.registration_id Scenario.bob_id Scenario.db_team
    = (Scenario.db_team, fail 500 "Server error while removing team member").
Proof.
  split_and!; [vm_compute; reflexivity| |vm_compute; reflexivity].
  eexists. split; vm_compute; reflexivity.
Qed.

(** ** Who sees a registration *)

Lemma some_member_is_false {R} users userId members :
  Forall (λ m, Member.user_id m ≠ userId) members →
  some_member_is (R := R) users userId members = Next false
  ∨ some_member_is (R := R) users userId members = Throw TypeError.
Proof.
  induction 1 as [|m ms Hm _ IH]; simpl; [by left|].
  destruct (user_exists users (Member.user_id m)); [|by right].
  by rewrite decide_False.
Qed.

(** A caller who is neither the organizer of the event, nor the leader,
    nor listed among the members, nor an administrator is refused the
    registration. *)
Lemma get_registration_refuses_strangers user registrationId db registration :
  findById (R := Response) Registration._id (registrations db) registrationId
  = Next (Some registration) →
  Forall (λ e, names (Registration.event_id registration) (Event._id e) →
               Event.organizer_id e ≠ userId user) (events db) →
  Registration.leader_user_id registration ≠ userId user →
  Forall (λ m, Member.user_id m ≠ userId user) (Registration.members registration) →
  user_role user ≠ "admin" →
  ∃ r, get_registration user registrationId db = (db, r) ∧ is_failure r.
Proof.
  intros Hfind Horg Hleader Hmembers Hadmin. unfold get_registration.
  destruct (isValidObjectId registrationId); simpl; [|failed].
  rewrite Hfind. simpl.
  unfold findById at 1.
  destruct (castObjectId (Registration.event_id registration)) as [oid|] eqn:Hoid;
    simpl; [|failed].
  assert (match snd <$> list_find (λ d, Event._id d = oid) (events db) with
          | Some event => bool_decide (Event.organizer_id event = userId user)
          | None => false
          end = false) as ->.
  { destruct (list_find _ (events db)) as [[i e]|] eqn:He; [|done]. simpl.
    apply list_find_Some in He as (Hi & He & _).
    apply bool_decide_eq_false_2. rewrite Forall_lookup in Horg.
    apply (Horg i e Hi). unfold names. by rewrite Hoid, He. }
  destruct (user_exists (users db) _); simpl; [|failed].
  rewrite (bool_decide_eq_false_2 _ Hleader).
  destruct (some_member_is_false (R := Response) (users db) (userId user) _ Hmembers)
    as [-> | ->]; simpl; [|failed].
  rewrite (bool_decide_eq_false_2 _ Hadmin). simpl. failed.
Qed.

Lemma page_subseteq skip limit rs : page skip limit rs ⊆ rs.
Proof.
  unfold page. destruct (decide (limit = 0%nat)).
  - apply subseteq_drop.
  - etrans; [apply subseteq_take|apply subseteq_drop].
Qed.

(** The listed registrations are among the stored ones that match the
    filter of the request. *)
Lemma get_registrations_listed user q db db' msg regs total :
  get_registrations user q db = (db', ok 200 msg (registrations_payload regs total)) →
  ∃ f0 f, build_filter user q db = Next f0
          ∧ cast_filter (R := Response) f0 = Next f
          ∧ regs ⊆ filter (matches f) (registrations db).
Proof.
  unfold get_registrations. intros Hget.
  destruct (build_filter user q db) as [f0|r|e] eqn:Hf0; simpl in Hget.
  - destruct (cast_filter (R := Response) f0) as [f|r|e] eqn:Hf; simplify_eq/=.
    + exists f0, f. split_and!; [done..|].
      etrans; [apply page_subseteq|].
      intros r. unfold sort_newest_first. by rewrite merge_sort_Permutation.
    + unfold cast_filter in Hf. repeat case_match; done.
  - assert (is_failure r) as [Hs _]; [|by simplify_eq/=].
    change (returns_failures (A := ListFilter) (Return r)). rewrite <- Hf0.
    unfold build_filter. flow_fails.
  - simplify_eq/=.
Qed.

(** A caller who is neither the organizer of the event of a registration,
    nor its leader, nor listed among its members, nor an administrator does
    not find it in any list. *)
Lemma get_registrations_excludes_strangers user q db db' msg regs total registration :
  get_registrations user q db = (db', ok 200 msg (registrations_payload regs total)) →
  Forall (λ e, Event._id e = Registration.event_id registration →
               Event.organizer_id e ≠ userId user) (events db) →
  ¬ names (userId user) (Registration.leader_user_id registration) →
  Forall (λ m, ¬ names (userId user) (Member.user_id m)) (Registration.members registration) →
  user_role user ≠ "admin" →
  registration ∉ regs.
Proof.
  intros (f0 & f & Hf0 & Hf & Hregs)%get_registrations_listed Horg Hleader Hmembers Hadmin Hin.
  apply Hregs, list_elem_of_filter in Hin as [(Hev & Hor & _) _].
  assert (or_filter_of : ∀ u, castObjectId (userId user) = Some u →
                              ¬ or_filter u registration).
  { intros u Hu [?|[Hex _]]; [by apply Hleader; unfold names; rewrite Hu; f_equal|].
    apply Exists_exists in Hex as (m & Hm & Hmu).
    rewrite Forall_forall in Hmembers. apply (Hmembers m Hm).
    unfold names. by rewrite Hu, Hmu. }
  unfold build_filter in Hf0.
  destruct (truthy_string (ListQuery.event_id q)).
  - destruct (return_if _ _); simplify_eq/=.
    unfold findById in Hf0.
    destruct (castObjectId (default "" (ListQuery.event_id q))) as [e|] eqn:He;
      simplify_eq/=.
    destruct (list_find _ (events db)) as [[i event]|] eqn:Hfind; simplify_eq/=.
    apply list_find_Some in Hfind as (Hi & Hid & _).
    unfold cast_filter in Hf. simpl in Hf. rewrite He in Hf. simpl in Hf.
    assert (f_event_id f = Some e) as Hfe.
    { destruct (bool_decide _ && bool_decide _); simpl in Hf;
        [destruct (castObjectId (userId user)); simpl in Hf|];
        by simplify_eq. }
    rewrite Hfe in Hev. simpl in Hev.
    assert (Event.organizer_id event ≠ userId user) as Hno.
    { rewrite Forall_lookup in Horg. apply (Horg i event Hi). congruence. }
    rewrite !bool_decide_eq_true_2 in Hf by done. simpl in Hf.
    destruct (castObjectId (userId user)) as [u|] eqn:Hu; simplify_eq/=.
    by eapply or_filter_of.
  - simplify_eq/=. unfold cast_filter in Hf. simpl in Hf.
    destruct (castObjectId (userId user)) as [u|] eqn:Hu; simplify_eq/=.
    by eapply or_filter_of.
Qed.

(** C9, on the code.  Bob is invited to Lea's team and has not answered;
    he is neither organizer, nor leader, nor administrator.  A direct get
    answers 200 with the registration (any listed member passes), and the
    list contains it, with and without the event filter: the two member
    conditions of the filter are met by different members, Bob for the
    user and Lea for the invite status. *)
Theorem invited_member_sees_registration :
  ∃ registration,
    Scenario.the_registration Scenario.db_team = Some registration
    ∧ Scenario.invite_statuses Scenario.db_team
      = Some [(Scenario.lea_id, auto_added); (Scenario.bob_id, invited)]
    ∧ Registration.leader_user_id registration ≠ userId Scenario.bob
    ∧ Event.organizer_id (Scenario.hack_night 2 4) ≠ userId Scenario.bob
    ∧ user_role Scenario.bob ≠ "admin"
    ∧ get_registration Scenario.bob Scenario.registration_id Scenario.db_team
      = (Scenario.db_team, ok 200 "" (registration_payload registration))
    ∧ get_registrations Scenario.bob (ListQuery.mk None None None None) Scenario.db_team
      = (Scenario.db_team, ok 200 "" (registrations_payload [registration] 1))
    ∧ get_registrations Scenario.bob
        (ListQuery.mk (Some Scenario.event_id) None None None) Scenario.db_team
      = (Scenario.db_team, ok 200 "" (registrations_payload [registration] 1)).
Proof.
  eexists. split; [vm_compute; reflexivity|].
  split_and!; try discriminate; vm_compute; reflexivity.
Qed.

(** ** Successful paths of a handler *)

Lemma handle_inv db catch body db' r :
  handle db catch body = (db', r) → db' = db ∨ body = Next (db', r).
Proof. destruct body as [[? ?]| |]; simpl; intros [= <- <-]; auto. Qed.

Lemma bind_Next_inv {R A B} (m : Flow R A) (k : A → Flow R B) b :
  (m ≫= k) = Next b → ∃ a, m = Next a ∧ k a = Next b.
Proof. destruct m; simpl; [eauto|done..]. Qed.

Lemma return_if_Next {R} c (r : R) u : return_if c r = Next u → c = false.
Proof. by destruct c. Qed.

Lemma findById_Next {R D} (key : D → ObjectId) coll id d :
  findById (R := R) key coll id = Next (Some d) →
  ∃ oid j, castObjectId id = Some oid
           ∧ list_find (λ d, key d = oid) coll = Some (j, d).
Proof.
  unfold findById. destruct (castObjectId id) as [oid|]; [|done].
  destruct (list_find _ coll) as [[j d']|] eqn:Hfind; simpl; [|done].
  intros [= ->]. eauto.
Qed.

(** Inverts a hypothesis [body = Next out] along the binds, early returns
    and case distinctions of [body]. *)
Ltac flow_inv :=
  repeat match goal with
  | H : (_ ≫= _) = Next _ |- _ =>
      let a := fresh "a" in let Ha := fresh "Ha" in
      apply bind_Next_inv in H as (a & Ha & H)
  | H : return_if _ _ = Next _ |- _ => apply return_if_Next in H
  | H : Next _ = Next _ |- _ => injection H as H; try subst
  | H : Return _ = Next _ |- _ => discriminate H
  | H : Throw _ = Next _ |- _ => discriminate H
  | H : (_, _) = (_, _) |- _ => injection H as ? ?; try subst
  | H : match ?x with _ => _ end = Next _ |- _ =>
      let E := fresh "E" in destruct x eqn:E
  end.

Lemma replace_registration_insert r rs oid j reg :
  list_find (λ d, Registration._id d = oid) rs = Some (j, reg) →
  Registration._id r = oid →
  replace_registration r rs = <[j := r]> rs.
Proof.
  intros Hfind <-. revert j Hfind.
  induction rs as [|r0 rs IH]; intros j; simpl; [done|].
  destruct (decide (Registration._id r0 = Registration._id r)); simpl.
  - intros [= <- <-]. done.
  - destruct (list_find _ rs) as [[j' reg']|] eqn:Hrs; simpl; [|done].
    intros [= <- <-]. simpl. f_equal. by apply IH.
Qed.

Lemma replace_event_insert e es oid j event :
  list_find (λ d, Event._id d = oid) es = Some (j, event) →
  Event._id e = oid →
  replace_event e es = <[j := e]> es.
Proof.
  intros Hfind <-. revert j Hfind.
  induction es as [|e0 es IH]; intros j; simpl; [done|].
  destruct (decide (Event._id e0 = Event._id e)); simpl.
  - intros [= <- <-]. done.
  - destruct (list_find _ es) as [[j' event']|] eqn:Hes; simpl; [|done].
    intros [= <- <-]. simpl. f_equal. by apply IH.
Qed.

Lemma Registration_save_Next {R} db members_modified r db' :
  Registration_save (R := R) db members_modified r = Next db' →
  db' = set_registrations (replace_registration r (registrations db)) db.
Proof. unfold Registration_save. intros H. flow_inv. done. Qed.

Lemma Event_save_Next {R} env db enum_errors e db' e' :
  Event_save (R := R) env db enum_errors e = Next (db', e') →
  e' = Event.set_updated_at (now env) e
  ∧ db' = set_events (replace_event e' (events db)) db.
Proof. unfold Event_save. intros H. flow_inv. done. Qed.

(** ** The effect of each route on the stored registrations *)

Lemma status_step_refl events r : status_step events r r.
Proof. by left. Qed.

Lemma registrations_step_refl db : registrations_step db db.
Proof. intros i r Hi. exists r. eauto using status_step_refl. Qed.

Lemma registrations_step_events db es : registrations_step db (set_events es db).
Proof. intros i r Hi. exists r. eauto using status_step_refl. Qed.

Lemma registrations_step_append db new :
  registrations_step db (set_registrations (registrations db ++ [new]) db).
Proof.
  intros i r Hi. exists r. split; [|eauto using status_step_refl].
  simpl. by apply lookup_app_l_Some.
Qed.

Lemma registrations_step_update db oid j reg r' :
  list_find (λ d, Registration._id d = oid) (registrations db) = Some (j, reg) →
  Registration._id r' = Registration._id reg →
  Registration.event_id r' = Registration.event_id reg →
  status_step (events db) reg r' →
  registrations_step db
    (set_registrations (replace_registration r' (registrations db)) db).
Proof.
  intros Hfind Hid Hev Hstep i r Hi. simpl.
  pose proof Hfind as (Hj & Hoid & _)%list_find_Some.
  rewrite (replace_registration_insert r' _ oid j reg) by congruence.
  destruct (decide (i = j)) as [->|Hne].
  - exists r'. rewrite list_lookup_insert_eq by by eapply lookup_lt_Some.
    by simplify_eq.
  - exists r. rewrite list_lookup_insert_ne by done.
    eauto using status_step_refl.
Qed.

Lemma findById_event_of {R} events r event :
  findById (R := R) Event._id events (Registration.event_id r) = Next (Some event) →
  event_of events r = Some event.
Proof.
  intros (oid & j & Hoid & Hfind)%findById_Next.
  unfold event_of. rewrite Hoid. simpl. by rewrite Hfind.
Qed.

(** The update of a loaded registration that the handlers save. *)
Lemma saved_registration_step {R} db registrationId reg members_modified r' db' :
  findById (R := R) Registration._id (registrations db) registrationId = Next (Some reg) →
  Registration_save (R := R) db members_modified r' = Next db' →
  Registration._id r' = Registration._id reg →
  Registration.event_id r' = Registration.event_id reg →
  status_step (events db) reg r' →
  registrations_step db db'.
Proof.
  intros (oid & j & _ & Hfind)%findById_Next ->%Registration_save_Next Hid Hev Hstep.
  by eapply registrations_step_update.
Qed.

Lemma put_member_step env user registrationId memberId invite_status db :
  registrations_step db (fst (put_member env user registrationId memberId invite_status db)).
Proof.
  destruct (put_member env user registrationId memberId invite_status db)
    as [db' r] eqn:Hput. simpl.
  unfold put_member in Hput.
  apply handle_inv in Hput as [->|Hput]; [apply registrations_step_refl|].
  flow_inv.
  match goal with
  | Hreg : findById Registration._id _ _ = Next (Some ?reg),
    Hev : findById Event._id _ _ = Next (Some ?event),
    Hsave : Registration_save _ _ _ = Next _ |- _ =>
      apply findById_event_of in Hev;
      destruct (_ && _) eqn:Hbounds in Hsave;
      eapply (saved_registration_step _ _ _ _ _ _ Hreg Hsave); try done
  end.
  - right; left. split; [done|].
    apply andb_true_iff in Hbounds as [?%Z.leb_le ?%Z.leb_le].
    eexists. split_and!; [|done..]. done.
  - by left.
Qed.

Lemma put_invitation_step user registrationId action db :
  registrations_step db (fst (put_invitation user registrationId action db)).
Proof.
  destruct (put_invitation user registrationId action db) as [db' r] eqn:Hput. simpl.
  unfold put_invitation in Hput.
  apply handle_inv in Hput as [->|Hput]; [apply registrations_step_refl|].
  flow_inv.
  match goal with
  | Hreg : findById Registration._id _ _ = Next (Some ?reg),
    Hsave : Registration_save _ _ _ = Next _ |- _ =>
      eapply (saved_registration_step _ _ _ _ _ _ Hreg Hsave); try done
  end.
  by left.
Qed.

Lemma post_members_step env user registrationId members_to_add db :
  registrations_step db (fst (post_members env user registrationId members_to_add db)).
Proof.
  destruct (post_members env user registrationId members_to_add db) as [db' r] eqn:Hpost.
  simpl. unfold post_members in Hpost.
  apply handle_inv in Hpost as [->|Hpost]; [apply registrations_step_refl|].
  flow_inv.
  match goal with
  | Hreg : findById Registration._id _ _ = Next (Some ?reg),
    Hsave : Registration_save _ _ _ = Next _ |- _ =>
      eapply (saved_registration_step _ _ _ _ _ _ Hreg Hsave); try done
  end.
  by left.
Qed.

Lemma delete_member_step user registrationId memberId db :
  registrations_step db (fst (delete_member user registrationId memberId db)).
Proof.
  destruct (delete_member user registrationId memberId db) as [db' r] eqn:Hdel.
  simpl. unfold delete_member in Hdel.
  apply handle_inv in Hdel as [->|Hdel]; [apply registrations_step_refl|].
  flow_inv.
  match goal with
  | Hreg : findById Registration._id _ _ = Next (Some ?reg),
    Hsave : Registration_save _ _ _ = Next _ |- _ =>
      eapply (saved_registration_step _ _ _ _ _ _ Hreg Hsave); try done
  end.
  by left.
Qed.

Lemma delete_registration_step user registrationId db :
  registrations_step db (fst (delete_registration user registrationId db)).
Proof.
  destruct (delete_registration user registrationId db) as [db' r] eqn:Hdel.
  simpl. unfold delete_registration in Hdel.
  apply handle_inv in Hdel as [->|Hdel]; [apply registrations_step_refl|].
  flow_inv.
  match goal with
  | Hreg : findById Registration._id _ _ = Next (Some ?reg),
    Hsave : Registration_save _ _ _ = Next _ |- _ =>
      eapply (saved_registration_step _ _ _ _ _ _ Hreg Hsave); try done
  end.
  by right; right.
Qed.

Lemma get_registrations_step user q db :
  registrations_step db (fst (get_registrations user q db)).
Proof.
  destruct (get_registrations user q db) as [db' r] eqn:Hget. simpl.
  unfold get_registrations in Hget.
  apply handle_inv in Hget as [->|Hget]; [apply registrations_step_refl|].
  flow_inv. apply registrations_step_refl.
Qed.

Lemma get_pending_invitations_step user db :
  registrations_step db (fst (get_pending_invitations user db)).
Proof.
  destruct (get_pending_invitations user db) as [db' r] eqn:Hget. simpl.
  unfold get_pending_invitations in Hget.
  apply handle_inv in Hget as [->|Hget]; [apply registrations_step_refl|].
  flow_inv. apply registrations_step_refl.
Qed.

Lemma get_registration_step user registrationId db :
  registrations_step db (fst (get_registration user registrationId db)).
Proof.
  destruct (get_registration user registrationId db) as [db' r] eqn:Hget. simpl.
  unfold get_registration in Hget.
  apply handle_inv in Hget as [->|Hget]; [apply registrations_step_refl|].
  flow_inv; apply registrations_step_refl.
Qed.

(** ** The effect of each route on the stored events *)

Lemma events_step_refl db : events_step db db.
Proof. intros i e Hi. exists e. done. Qed.

Lemma events_step_registrations db rs : events_step db (set_registrations rs db).
Proof. intros i e Hi. exists e. done. Qed.

Lemma events_step_trans db1 db2 db3 :
  events_step db1 db2 → events_step db2 db3 → events_step db1 db3.
Proof.
  intros H12 H23 i e Hi.
  destruct (H12 i e Hi) as (e' & Hi' & ? & ? & ?).
  destruct (H23 i e' Hi') as (e'' & Hi'' & ? & ? & ?).
  exists e''. split_and!; congruence.
Qed.

Lemma events_step_saved {R} env db eventId event enum_errors e db' e' :
  findById (R := R) Event._id (events db) eventId = Next (Some event) →
  Event_save (R := R) env db enum_errors e = Next (db', e') →
  Event._id e = Event._id event →
  Event.event_type e = Event.event_type event →
  Event.organizer_id e = Event.organizer_id event →
  events_step db db'.
Proof.
  intros (oid & j & _ & Hfind)%findById_Next [-> ->]%Event_save_Next Hid Hty Horg i e0 Hi.
  simpl. pose proof Hfind as (Hj & Hoid & _)%list_find_Some.
  rewrite (replace_event_insert _ _ oid j event) by (simpl; congruence).
  destruct (decide (i = j)) as [->|Hne].
  - eexists. rewrite list_lookup_insert_eq by by eapply lookup_lt_Some.
    split; [done|]. by simplify_eq.
  - exists e0. by rewrite list_lookup_insert_ne.
Qed.

Lemma put_event_step env user eventId body db :
  events_step db (fst (put_event env user eventId body db)).
Proof.
  destruct (put_event env user eventId body db) as [db' r] eqn:Hput. simpl.
  unfold put_event in Hput.
  apply handle_inv in Hput as [->|Hput]; [apply events_step_refl|].
  flow_inv;
    match goal with
    | Hev : findById Event._id _ _ = Next (Some ?event),
      Hsave : Event_save _ _ _ _ = Next _ |- _ =>
        by eapply (events_step_saved _ _ _ _ _ _ _ _ Hev Hsave)
    end.
Qed.

Lemma delete_event_step env user eventId db :
  events_step db (fst (delete_event env user eventId db)).
Proof.
  destruct (delete_event env user eventId db) as [db' r] eqn:Hdel. simpl.
  unfold delete_event in Hdel.
  apply handle_inv in Hdel as [->|Hdel]; [apply events_step_refl|].
  flow_inv;
    match goal with
    | Hev : findById Event._id _ _ = Next (Some ?event),
      Hsave : Event_save _ _ _ _ = Next _ |- _ =>
        by eapply (events_step_saved _ _ _ _ _ _ _ _ Hev Hsave)
    end.
Qed.

Lemma Event_create_Next {R} env uuid db organizer body db' e :
  Event_create (R := R) env uuid db organizer body = Next (db', e) →
  db' = set_events (events db ++ [e]) db.
Proof. unfold Event_create. intros H. flow_inv. done. Qed.

Lemma post_events_inv env uuid user body db db' r :
  post_events env uuid user body db = (db', r) →
  db' = db ∨ ∃ e, db' = set_events (events db ++ [e]) db.
Proof.
  unfold post_events. destruct (negb _); [intros [= <- <-]; by left|].
  intros [->|Hpost]%handle_inv; [by left|]. right.
  flow_inv; match goal with H : Event_create _ _ _ _ _ = Next _ |- _ =>
    apply Event_create_Next in H as -> end; eauto.
Qed.

Lemma post_events_step env uuid user body db :
  events_step db (fst (post_events env uuid user body db)).
Proof.
  destruct (post_events env uuid user body db) as [db' r] eqn:Hpost. simpl.
  apply post_events_inv in Hpost as [->|[e ->]]; [apply events_step_refl|].
  intros i e0 Hi. exists e0. split; [|done]. simpl. by apply lookup_app_l_Some.
Qed.

(** The event routes write events only. *)
Lemma post_events_registrations env uuid user body db :
  registrations (fst (post_events env uuid user body db)) = registrations db.
Proof.
  destruct (post_events env uuid user body db) as [db' r] eqn:Hpost. simpl.
  by apply post_events_inv in Hpost as [->|[e ->]].
Qed.

Lemma put_event_registrations env user eventId body db :
  registrations (fst (put_event env user eventId body db)) = registrations db.
Proof.
  destruct (put_event env user eventId body db) as [db' r] eqn:Hput. simpl.
  unfold put_event in Hput.
  apply handle_inv in Hput as [->|Hput]; [done|].
  flow_inv; match goal with H : Event_save _ _ _ _ = Next _ |- _ =>
    apply Event_save_Next in H as [_ ->] end; done.
Qed.

Lemma delete_event_registrations env user eventId db :
  registrations (fst (delete_event env user eventId db)) = registrations db.
Proof.
  destruct (delete_event env user eventId db) as [db' r] eqn:Hdel. simpl.
  unfold delete_event in Hdel.
  apply handle_inv in Hdel as [->|Hdel]; [done|].
  flow_inv; match goal with H : Event_save _ _ _ _ = Next _ |- _ =>
    apply Event_save_Next in H as [_ ->] end; done.
Qed.

Lemma registrations_step_same db db' :
  registrations db' = registrations db → registrations_step db db'.
Proof.
  intros Hsame i r Hi. exists r. rewrite Hsame. eauto using status_step_refl.
Qed.

(** The registration routes write registrations only. *)
Ltac saves_registration H :=
  apply handle_inv in H as [->|H]; [done|];
  flow_inv;
  repeat match goal with
  | Hs : Registration_save _ _ _ = Next _ |- _ => apply Registration_save_Next in Hs as ->
  end; done.

Lemma put_invitation_events user registrationId action db :
  events (fst (put_invitation user registrationId action db)) = events db.
Proof.
  destruct (put_invitation _ _ _ _) as [db' r] eqn:Hh. simpl.
  unfold put_invitation in Hh. saves_registration Hh.
Qed.

Lemma post_members_events env user registrationId members_to_add db :
  events (fst (post_members env user registrationId members_to_add db)) = events db.
Proof.
  destruct (post_members _ _ _ _ _) as [db' r] eqn:Hh. simpl.
  unfold post_members in Hh. saves_registration Hh.
Qed.

Lemma delete_member_events user registrationId memberId db :
  events (fst (delete_member user registrationId memberId db)) = events db.
Proof.
  destruct (delete_member _ _ _ _) as [db' r] eqn:Hh. simpl.
  unfold delete_member in Hh. saves_registration Hh.
Qed.

Lemma put_member_events env user registrationId memberId invite_status db :
  events (fst (put_member env user registrationId memberId invite_status db)) = events db.
Proof.
  destruct (put_member _ _ _ _ _ _) as [db' r] eqn:Hh. simpl.
  unfold put_member in Hh. saves_registration Hh.
Qed.

Lemma delete_registration_events user registrationId db :
  events (fst (delete_registration user registrationId db)) = events db.
Proof.
  destruct (delete_registration _ _ _) as [db' r] eqn:Hh. simpl.
  unfold delete_registration in Hh. saves_registration Hh.
Qed.

Lemma get_registrations_events user q db :
  events (fst (get_registrations user q db)) = events db.
Proof.
  destruct (get_registrations _ _ _) as [db' r] eqn:Hh. simpl.
  unfold get_registrations in Hh. saves_registration Hh.
Qed.

Lemma get_pending_invitations_events user db :
  events (fst (get_pending_invitations user db)) = events db.
Proof.
  destruct (get_pending_invitations _ _) as [db' r] eqn:Hh. simpl.
  unfold get_pending_invitations in Hh. saves_registration Hh.
Qed.

Lemma get_registration_events user registrationId db :
  events (fst (get_registration user registrationId db)) = events db.
Proof.
  destruct (get_registration _ _ _) as [db' r] eqn:Hh. simpl.
  unfold get_registration in Hh. saves_registration Hh.
Qed.

Lemma events_step_same db db' : events db' = events db → events_step db db'.
Proof. intros Hsame i e Hi. exists e. by rewrite Hsame. Qed.

Section ApiProperties.
Context {casts : SchemaCast}.

Lemma post_registrations_effect env user body db :
  fst (post_registrations env user body db) = db
  ∨ ∃ new, fst (post_registrations env user body db)
           = set_registrations (registrations db ++ [new]) db
           ∧ Registration.status new = pending.
Proof.
  destruct (post_registrations_inv env user body db)
    as [(r & -> & _)|(event & members & db' & reg & _ & _ & Hc & ->)]; [by left|].
  right. exists reg. simpl.
  apply Registration_create_Next in Hc as (_ & Hcast & ->). split; [done|].
  apply Registration_cast_status in Hcast.
  change (Some pending = Some (Registration.status reg)) in Hcast. congruence.
Qed.

Lemma step_registrations env user req db :
  registrations_step db (fst (step env user req db)).
Proof.
  destruct req; simpl;
    eauto using put_invitation_step, post_members_step, delete_member_step,
      put_member_step, delete_registration_step, get_registrations_step,
      get_pending_invitations_step, get_registration_step,
      registrations_step_same, post_events_registrations, put_event_registrations,
      delete_event_registrations.
  destruct (post_registrations_effect env user body db) as [->|(new & -> & _)];
    [apply registrations_step_refl|apply registrations_step_append].
Qed.

Lemma step_events env user req db : events_step db (fst (step env user req db)).
Proof.
  destruct req; simpl;
    eauto using put_event_step, delete_event_step, post_events_step,
      events_step_same, put_invitation_events, post_members_events,
      delete_member_events, put_member_events, delete_registration_events,
      get_registrations_events, get_pending_invitations_events,
      get_registration_events.
  destruct (post_registrations_effect env user body db) as [->|(new & -> & _)];
    [apply events_step_refl|apply events_step_registrations].
Qed.

Lemma run_events reqs db : events_step db (run reqs db).
Proof.
  revert db. induction reqs as [|[[env user] req] reqs IH]; intros db; simpl.
  - apply events_step_refl.
  - eapply events_step_trans; [apply step_events|apply IH].
Qed.
End ApiProperties.

(** ** Events: the publication guard and the soft delete *)

Lemma handle_fails db catch body db' r :
  returns_failures body →
  (∀ e, is_failure (catch e)) →
  handle db catch body = (db', r) →
  (db' = db ∧ is_failure r) ∨ body = Next (db', r).
Proof.
  intros Hbody Hcatch. destruct body as [[? ?]| |]; simpl; intros [= <- <-]; auto.
Qed.

Lemma Event_save_fails env db enum_errors e (k : Db * Event.t → Flow Response (Db * Response)) :
  (∀ a, returns_failures (k a)) →
  returns_failures (Event_save env db enum_errors e ≫= k).
Proof.
  intros Hk. unfold Event_save. destruct (_ ++ _); simpl; [apply Hk|done].
Qed.

Lemma delete_event_inv env user eventId db db' r :
  delete_event env user eventId db = (db', r) →
  (db' = db ∧ is_failure r)
  ∨ (∃ j event,
       events db !! j = Some event
       ∧ names eventId (Event._id event)
       ∧ db' = set_events
                 (<[j := Event.set_updated_at (now env)
                           (Event.set_event_status ev_cancelled event)]> (events db)) db
       ∧ r = ok 200 "Event cancelled successfully" no_payload).
Proof.
  unfold delete_event. intros Hdel.
  apply handle_fails in Hdel; [| |by intros; apply is_failure_fail].
  2:{ apply returns_failures_bind; [by apply returns_failures_return_if|intros _].
      apply returns_failures_bind; [apply returns_failures_findById|].
      intros [event|]; [|by apply is_failure_fail].
      apply returns_failures_bind; [by apply returns_failures_return_if|intros _].
      by apply Event_save_fails; intros [? ?]. }
  destruct Hdel as [?|Hdel]; [by left|].
  right. flow_inv.
  match goal with
  | Hev : findById Event._id _ _ = Next (Some ?event),
    Hsave : Event_save _ _ _ _ = Next _ |- _ =>
      apply findById_Next in Hev as (oid & j & Hoid & Hfind);
      apply Event_save_Next in Hsave as [-> ->];
      pose proof Hfind as (Hj & Hid & _)%list_find_Some;
      exists j, event; split_and!; [done|by unfold names; rewrite Hoid, Hid| |done]
  end.
  by rewrite (replace_event_insert _ _ oid j t).
Qed.

Lemma put_event_guard env user eventId body db event :
  findById (R := Response) Event._id (events db) eventId = Next (Some event) →
  is_open_status (Event.event_status event) = true →
  requests_type_change body event ∨ requests_organizer_change body →
  ∃ r, put_event env user eventId body db = (db, r)
       ∧ is_failure r
       ∧ (Event.organizer_id event = userId user ∨ user_role user = "admin" →
          r = fail 400 "Cannot change event type after publication"
          ∨ r = fail 400 "Cannot change organizer after publication").
Proof.
  intros Hfound Hopen Hchange.
  unfold put_event.
  assert (isValidObjectId eventId = true) as ->.
  { apply findById_Next in Hfound as (oid & _ & Hoid & _).
    unfold castObjectId in Hoid. by destruct (isValidObjectId eventId). }
  simpl. rewrite Hfound. simpl.
  destruct (bool_decide (Event.organizer_id event ≠ userId user)
            && bool_decide (user_role user ≠ "admin")) eqn:Hauth; simpl.
  { eexists; split_and!; [done|by apply is_failure_fail|].
    intros Hallowed.
    apply andb_true_iff in Hauth as [?%bool_decide_eq_true ?%bool_decide_eq_true].
    by destruct Hallowed. }
  rewrite Hopen.
  destruct (truthy_string (UpdateBody.event_type body)
            && bool_decide (UpdateBody.event_type body
                            ≠ Some (EventType_to_string (Event.event_type event))))
    eqn:Htype; simpl.
  { eexists; split_and!; [done|by apply is_failure_fail|auto]. }
  destruct Hchange as [(s & Hs & Hne & Hdiff)|(s & Hs & Hne)].
  { exfalso. rewrite Hs in Htype. simpl in Htype.
    rewrite (bool_decide_eq_false_2 _ Hne) in Htype. simpl in Htype.
    apply bool_decide_eq_false in Htype. apply Htype. congruence. }
  rewrite Hs. simpl. rewrite (bool_decide_eq_false_2 _ Hne). simpl.
  eexists; split_and!; [done|by apply is_failure_fail|auto].
Qed.

Lemma authenticateToken_Denied verify authHeader code msg :
  authenticateToken verify authHeader = Denied code msg → 400 ≤ code.
Proof.
  unfold authenticateToken, verified. intros H.
  repeat case_match; simplify_eq; lia.
Qed.

Lemma handleValidationErrors_Some errors r :
  handleValidationErrors errors = Some r → is_failure r.
Proof.
  unfold handleValidationErrors. destruct errors; [done|]. intros [= <-].
  split; [done|simpl; lia].
Qed.

Lemma handleValidationErrors_None errors :
  handleValidationErrors errors = None → errors = [].
Proof. unfold handleValidationErrors. by destruct errors. Qed.

(** The sanitizers of [validateEventUpdate] leave the event type and the
    organizer of the body as they are, so the guard of the handler sees
    them. *)
Lemma route_put_event_guard verify isURL authHeader env eventId body db event :
  findById (R := Response) Event._id (events db) eventId = Next (Some event) →
  is_open_status (Event.event_status event) = true →
  requests_type_change body event ∨ requests_organizer_change body →
  ∃ r, route_put_event verify isURL authHeader env eventId body db = (db, r)
       ∧ is_failure r.
Proof.
  intros Hfound Hopen Hchange. unfold route_put_event.
  destruct (authenticateToken verify authHeader) as [user|code msg] eqn:Hauth.
  2:{ eexists. split; [done|]. eapply is_failure_fail, authenticateToken_Denied; done. }
  destruct (validateEventUpdate isURL body) as [body' errors] eqn:Hvalidate.
  destruct (handleValidationErrors errors) as [r|] eqn:Herrors.
  { exists r. split; [done|]. by eapply handleValidationErrors_Some. }
  assert (requests_type_change body' event ∨ requests_organizer_change body') as Hchange'.
  { unfold validateEventUpdate in Hvalidate. by injection Hvalidate as <- _. }
  destruct (put_event_guard env user eventId body' db event Hfound Hopen Hchange')
    as (r & Hput & Hfail & _).
  eauto.
Qed.

(** No validator of the event schema reads the status. *)
Lemma Event_validate_status now st e :
  Event.validate now (Event.set_event_status st e) = Event.validate now e.
Proof. done. Qed.

Lemma delete_event_cancels env user eventId db event :
  findById (R := Response) Event._id (events db) eventId = Next (Some event) →
  Event.organizer_id event = userId user ∨ user_role user = "admin" →
  Event.validate (now env) event = [] →
  ∃ j db' e',
    delete_event env user eventId db
    = (db', ok 200 "Event cancelled successfully" no_payload)
    ∧ events db !! j = Some event
    ∧ db' = set_events (<[j := e']> (events db)) db
    ∧ events db' !! j = Some e'
    ∧ Event.event_status e' = ev_cancelled
    ∧ Event.updated_at e' = now env
    ∧ same_event_frame event e'.
Proof.
  intros Hfound Hcaller Hvalid.
  pose proof Hfound as (oid & j & Hoid & Hfind)%findById_Next.
  pose proof Hfind as (Hj & Hid & _)%list_find_Some.
  exists j. unfold delete_event.
  assert (isValidObjectId eventId = true) as ->.
  { unfold castObjectId in Hoid. by destruct (isValidObjectId eventId). }
  simpl. rewrite Hfound. simpl.
  assert (bool_decide (Event.organizer_id event ≠ userId user)
          && bool_decide (user_role user ≠ "admin") = false) as ->.
  { apply andb_false_iff.
    destruct Hcaller as [Hc|Hc]; [left|right]; apply bool_decide_eq_false; by intros ?. }
  simpl. unfold Event_save. rewrite Event_validate_status, Hvalid. simpl.
  rewrite (replace_event_insert _ _ oid j event Hfind) by done.
  eexists _, _. split_and!; [done|done|done| |done|done|].
  - simpl. rewrite list_lookup_insert_eq; [done|by eapply lookup_lt_Some].
  - by unfold same_event_frame.
Qed.

Section EventProperties.
Context {casts : SchemaCast}.

(** C8. While an event is published or ongoing, an update that names
    another event type or names an organizer is rejected and writes
    nothing (for the organizer of the event and for an administrator the
    answer is 400 with the message of the guard).  A delete either fails
    and writes nothing, or keeps the record at its place with its status
    set to cancelled.  Over every sequence of requests every stored event
    stays stored, at its place and under its identifier, with its type
    and its organizer.  The mounted update route, with its authentication
    and its validation in front of the handler, rejects such an update as
    well and writes nothing.  The delete of a stored event by its
    organizer or by an administrator, while the event passes the
    validators of its schema, succeeds: the answer is 200 and the event is
    stored at its place with the status cancelled, the time of the request
    as its update time and its frame kept. *)
Theorem published_event_guard_and_soft_delete :
  (∀ env user eventId body db event,
     findById (R := Response) Event._id (events db) eventId = Next (Some event) →
     is_open_status (Event.event_status event) = true →
     requests_type_change body event ∨ requests_organizer_change body →
     ∃ r, put_event env user eventId body db = (db, r)
          ∧ is_failure r
          ∧ (Event.organizer_id event = userId user ∨ user_role user = "admin" →
             r = fail 400 "Cannot change event type after publication"
             ∨ r = fail 400 "Cannot change organizer after publication"))
  ∧ (∀ env user eventId db db' r,
       delete_event env user eventId db = (db', r) →
       (db' = db ∧ is_failure r)
       ∨ (∃ j event,
            events db !! j = Some event
            ∧ names eventId (Event._id event)
            ∧ events db' !! j
              = Some (Event.set_updated_at (now env)
                        (Event.set_event_status ev_cancelled event))
            ∧ length (events db') = length (events db)
            ∧ r = ok 200 "Event cancelled successfully" no_payload))
  ∧ (∀ reqs db, events_step db (run reqs db))
  ∧ (∀ verify isURL authHeader env eventId body db event,
       findById (R := Response) Event._id (events db) eventId = Next (Some event) →
       is_open_status (Event.event_status event) = true →
       requests_type_change body event ∨ requests_organizer_change body →
       ∃ r, route_put_event verify isURL authHeader env eventId body db = (db, r)
            ∧ is_failure r)
  ∧ (∀ env user eventId db event,
       findById (R := Response) Event._id (events db) eventId = Next (Some event) →
       Event.organizer_id event = userId user ∨ user_role user = "admin" →
       Event.validate (now env) event = [] →
       ∃ j db' e',
         delete_event env user eventId db
         = (db', ok 200 "Event cancelled successfully" no_payload)
         ∧ events db !! j = Some event
         ∧ db' = set_events (<[j := e']> (events db)) db
         ∧ events db' !! j = Some e'
         ∧ Event.event_status e' = ev_cancelled
         ∧ Event.updated_at e' = now env
         ∧ same_event_frame event e').
Proof.
  split_and!.
  - intros env user eventId body db event. apply put_event_guard.
  - intros env user eventId db db' r
      [?|(j & event & Hj & Hname & -> & ->)]%delete_event_inv; [by left|].
    right. exists j, event. simpl. split_and!; [done..| | |done].
    + rewrite list_lookup_insert_eq; [done|by eapply lookup_lt_Some].
    + by rewrite length_insert.
  - intros reqs db. apply run_events.
  - intros verify isURL authHeader env eventId body db event.
    apply route_put_event_guard.
  - intros env user eventId db event. apply delete_event_cancels.
Qed.
End EventProperties.

Lemma published_event_guard_and_soft_delete_witness :
  put_event Scenario.env Scenario.org Scenario.event_id Scenario.body_new_type
    (Scenario.db0 2 4)
  = (Scenario.db0 2 4, fail 400 "Cannot change event type after publication")
  ∧ put_event Scenario.env Scenario.org Scenario.event_id Scenario.body_new_organizer
      (Scenario.db0 2 4)
    = (Scenario.db0 2 4, fail 400 "Cannot change organizer after publication")
  ∧ ∃ db',
      delete_event Scenario.env Scenario.org Scenario.event_id (Scenario.db0 2 4)
      = (db', ok 200 "Event cancelled successfully" no_payload)
      ∧ Event.event_status <$> events db' = [ev_cancelled].
Proof.
  pose proof (proj1 (published_event_guard_and_soft_delete (casts := strict_cast)))
    as Hguard.
  pose proof (proj2 (proj2 (proj2 (proj2
                (published_event_guard_and_soft_delete (casts := strict_cast))))))
    as Hdelete.
  split_and!.
  - destruct (Hguard Scenario.env Scenario.org Scenario.event_id Scenario.body_new_type
                (Scenario.db0 2 4) (Scenario.hack_night 2 4))
      as (r & Hput & _ & Hmsg).
    + vm_compute; reflexivity.
    + vm_compute; reflexivity.
    + left. exists "workshop". split_and!; [reflexivity|discriminate|discriminate].
    + rewrite Hput. f_equal.
      destruct Hmsg as [-> | ->]; [by left|reflexivity|].
      vm_compute in Hput. discriminate Hput.
  - destruct (Hguard Scenario.env Scenario.org Scenario.event_id Scenario.body_new_organizer
                (Scenario.db0 2 4) (Scenario.hack_night 2 4))
      as (r & Hput & _ & Hmsg).
    + vm_compute; reflexivity.
    + vm_compute; reflexivity.
    + right. exists Scenario.bob_id. split; [reflexivity|discriminate].
    + rewrite Hput. f_equal.
      destruct Hmsg as [-> | ->]; [by left| |reflexivity].
      vm_compute in Hput. discriminate Hput.
  - destruct (Hdelete Scenario.env Scenario.org Scenario.event_id (Scenario.db0 2 4)
                (Scenario.hack_night 2 4))
      as (j & db' & e' & Hdel & Hj & -> & _ & Hstatus & _).
    + vm_compute; reflexivity.
    + by left.
    + vm_compute; reflexivity.
    + exists (set_events (<[j := e']> (events (Scenario.db0 2 4))) (Scenario.db0 2 4)).
      split; [exact Hdel|].
      destruct j as [|j]; [|discriminate Hj].
      simpl. by rewrite Hstatus.
Defined.

(** ** The status of a registration over time *)

Lemma Registration_save_fails {B} db members_modified r (k : Db → Flow Response B) :
  (∀ a, returns_failures (k a)) →
  returns_failures (Registration_save db members_modified r ≫= k).
Proof.
  intros Hk. unfold Registration_save.
  destruct (validate_loaded r); [|done].
  destruct (Registration.pre_save _ _ _); simpl; [done|apply Hk].
Qed.

Lemma is_failure_not_ok r : is_failure r → success r = true → False.
Proof. intros [Hs _]. by rewrite Hs. Qed.

Lemma put_member_inv env user registrationId memberId invite_status db db' msg reg' :
  put_member env user registrationId memberId invite_status db
  = (db', ok 200 msg (registration_payload reg')) →
  ∃ j reg,
    registrations db !! j = Some reg
    ∧ names registrationId (Registration._id reg)
    ∧ registrations db' !! j = Some reg'
    ∧ Registration._id reg' = Registration._id reg
    ∧ (accepted_in_bounds (events db) reg' → Registration.status reg' = confirmed)
    ∧ (¬ accepted_in_bounds (events db) reg' →
       Registration.status reg' = Registration.status reg).
Proof.
  unfold put_member. intros Hput.
  apply handle_fails in Hput; [| |by intros; apply is_failure_fail].
  2:{ repeat first
        [ apply returns_failures_return_if; lia
        | apply returns_failures_findById
        | apply is_failure_fail; lia
        | apply Registration_save_fails; intros ?
        | apply returns_failures_bind; [|intros ?]
        | progress simpl
        | done
        | case_match ]. }
  destruct Hput as [[_ Hfail]|Hput]; [by destruct (is_failure_not_ok _ Hfail)|].
  flow_inv.
  match goal with
  | Hreg : findById Registration._id _ _ = Next (Some ?reg),
    Hev : findById Event._id _ _ = Next (Some ?event),
    Hsave : Registration_save _ _ _ = Next _ |- _ =>
      apply findById_event_of in Hev; rename Hev into Hevent;
      apply findById_Next in Hreg as (oid & j & Hoid & Hfind);
      apply Registration_save_Next in Hsave as ->;
      pose proof Hfind as (Hj & Hid & _)%list_find_Some;
      exists j, reg
  end.
  simpl.
  match goal with |- context [replace_registration ?r _] =>
    rewrite (replace_registration_insert r _ oid j t)
      by (done || by destruct (_ && _)) end.
  rewrite list_lookup_insert_eq by by eapply lookup_lt_Some.
  destruct (_ && _) eqn:Hbounds.
  - split_and!; try done; [by unfold names; rewrite Hoid, Hid|].
    intros Hout. exfalso. apply Hout.
    apply andb_true_iff in Hbounds as [?%Z.leb_le ?%Z.leb_le].
    eexists. split_and!; [|done..]. done.
  - split_and!; try done; [by unfold names; rewrite Hoid, Hid|].
    intros (event & Hev' & Hmin & Hmax). exfalso.
    change (event_of (events db) t = Some event) in Hev'.
    rewrite Hevent in Hev'. simplify_eq.
    apply andb_false_iff in Hbounds as [?%Z.leb_gt|?%Z.leb_gt]; simpl in *; lia.
Qed.

Lemma delete_registration_inv user registrationId db db' r :
  delete_registration user registrationId db = (db', r) →
  success r = true →
  ∃ j reg,
    registrations db !! j = Some reg
    ∧ names registrationId (Registration._id reg)
    ∧ registrations db' !! j = Some (Registration.set_status cancelled reg).
Proof.
  unfold delete_registration. intros Hdel Hok.
  apply handle_fails in Hdel; [| |by intros; apply is_failure_fail].
  2:{ repeat first
        [ apply returns_failures_return_if; lia
        | apply returns_failures_findById
        | apply is_failure_fail; lia
        | apply Registration_save_fails; intros ?
        | apply returns_failures_bind; [|intros ?]
        | progress simpl
        | done
        | case_match ]. }
  destruct Hdel as [[_ Hfail]|Hdel]; [by destruct (is_failure_not_ok _ Hfail)|].
  flow_inv.
  match goal with
  | Hreg : findById Registration._id _ _ = Next (Some ?reg),
    Hsave : Registration_save _ _ _ = Next _ |- _ =>
      apply findById_Next in Hreg as (oid & j & Hoid & Hfind);
      apply Registration_save_Next in Hsave as ->;
      pose proof Hfind as (Hj & Hid & _)%list_find_Some;
      exists j, reg
  end.
  simpl. rewrite (replace_registration_insert _ _ oid j t) by done.
  rewrite list_lookup_insert_eq by by eapply lookup_lt_Some.
  split_and!; [done|by unfold names; rewrite Hoid, Hid|done].
Qed.

Lemma status_step_not_pending events r r' :
  status_step events r r' →
  Registration.status r ≠ pending → Registration.status r' ≠ pending.
Proof. intros [Hs|[[Hs _]|Hs]] Hr; rewrite Hs; done. Qed.

Section StatusProperties.
Context {casts : SchemaCast}.

Lemma run_registrations reqs db i r :
  registrations db !! i = Some r →
  ∃ r', registrations (run reqs db) !! i = Some r'
        ∧ Registration._id r' = Registration._id r
        ∧ (Registration.status r ≠ pending → Registration.status r' ≠ pending).
Proof.
  revert db r. induction reqs as [|[[env user] req] reqs IH]; intros db r Hi; simpl.
  - eauto.
  - destruct (step_registrations env user req db i r Hi) as (r1 & Hi1 & Hid1 & _ & Hstep).
    destruct (IH _ _ Hi1) as (r' & Hi' & Hid' & Hstatus).
    exists r'. split_and!; [done|congruence|].
    eauto using status_step_not_pending.
Qed.

(** C3, as the code has it.  One request leaves the status of a stored
    registration as it is, or sets it to confirmed with the count of
    accepted and auto-added members within the team size bounds of its
    event, or sets it to cancelled; over every sequence of requests a
    status that has left pending never is pending again.  A successful
    member-status update sets confirmed exactly when that count is within
    the bounds after it, whatever the status was, and a successful cancel
    sets cancelled, whatever the status was. *)
Theorem status_changes_only_forward :
  (∀ env user req db, registrations_step db (fst (step env user req db)))
  ∧ (∀ reqs db i r,
       registrations db !! i = Some r →
       ∃ r', registrations (run reqs db) !! i = Some r'
             ∧ Registration._id r' = Registration._id r
             ∧ (Registration.status r ≠ pending → Registration.status r' ≠ pending))
  ∧ (∀ env user registrationId memberId invite_status db db' msg reg',
       put_member env user registrationId memberId invite_status db
       = (db', ok 200 msg (registration_payload reg')) →
       ∃ j reg,
         registrations db !! j = Some reg
         ∧ names registrationId (Registration._id reg)
         ∧ registrations db' !! j = Some reg'
         ∧ Registration._id reg' = Registration._id reg
         ∧ (accepted_in_bounds (events db) reg' → Registration.status reg' = confirmed)
         ∧ (¬ accepted_in_bounds (events db) reg' →
            Registration.status reg' = Registration.status reg))
  ∧ (∀ user registrationId db db' r,
       delete_registration user registrationId db = (db', r) →
       success r = true →
       ∃ j reg,
         registrations db !! j = Some reg
         ∧ names registrationId (Registration._id reg)
         ∧ registrations db' !! j = Some (Registration.set_status cancelled reg)).
Proof.
  split_and!.
  - apply step_registrations.
  - apply run_registrations.
  - apply put_member_inv.
  - apply delete_registration_inv.
Qed.
End StatusProperties.

Lemma status_changes_only_forward_witness :
  ∃ reg reg',
    Scenario.the_registration Scenario.db_team = Some reg
    ∧ Scenario.the_registration Scenario.db_accepted = Some reg'
    ∧ Registration.status reg = pending
    ∧ accepted_in_bounds (events Scenario.db_team) reg'
    ∧ Registration.status reg' = confirmed.
Proof.
  destruct (proj1 (proj2 (proj2 (status_changes_only_forward (casts := strict_cast))))
              Scenario.env_later Scenario.bob Scenario.registration_id Scenario.bob_id
              (Some "accepted") Scenario.db_team Scenario.db_accepted "Invitation accepted"
              (Registration.mk Scenario.registration_id Scenario.event_id team
                 Scenario.lea_id (Some "Night owls") confirmed
                 [ Member.mk Scenario.lea_id role_leader auto_added 1000 None;
                   Member.mk Scenario.bob_id role_member accepted 1000 (Some 2000) ]
                 [ Answer.mk "f-age" "Age" None (Some 20) None ] 1000))
    as (j & reg & Hj & Hname & Hj' & Hid & Hconfirmed & _).
  { vm_compute; reflexivity. }
  assert (accepted_in_bounds (events Scenario.db_team)
            (Registration.mk Scenario.registration_id Scenario.event_id team
               Scenario.lea_id (Some "Night owls") confirmed
               [ Member.mk Scenario.lea_id role_leader auto_added 1000 None;
                 Member.mk Scenario.bob_id role_member accepted 1000 (Some 2000) ]
               [ Answer.mk "f-age" "Age" None (Some 20) None ] 1000)) as Hbounds.
  { eexists. split_and!; [vm_compute; reflexivity|vm_compute; discriminate..]. }
  eexists _, _. split_and!; [vm_compute; reflexivity..|exact Hbounds|exact (Hconfirmed Hbounds)].
Defined.

(** C3, as the specification states it, fails on the code: cancelled is
    not terminal.
    Lea creates a team with Bob (pending), Lea cancels it (cancelled), Bob
    then accepts through the member route: two accepted members are
    within the bounds 2..4 and the status becomes confirmed. *)
Lemma cancelled_registration_becomes_confirmed :
  Scenario.status_after (take 1 Scenario.cancel_then_accept) = Some pending
  ∧ Scenario.status_after (take 2 Scenario.cancel_then_accept) = Some cancelled
  ∧ Scenario.status_after Scenario.cancel_then_accept = Some confirmed.
Proof. split_and!; vm_compute; reflexivity. Qed.

(** * Further properties of the routes *)

(** Early returns of a handler body, with the saves of a loaded document. *)
Ltac body_fails :=
  repeat first
    [ apply returns_failures_return_if; lia
    | apply returns_failures_findById
    | apply is_failure_fail; lia
    | apply Registration_save_fails; intros ?
    | apply returns_failures_bind; [|intros ?]
    | progress simpl
    | done
    | case_match ].

(** ** Adding members *)

Lemma push_members_to_add_fails env users to_add members :
  returns_failures (push_members_to_add env users to_add members).
Proof.
  revert members. induction to_add as [|i to_add IH]; intros members; simpl; [done|].
  destruct (bool_decide _); [apply IH|].
  apply returns_failures_bind; [apply returns_failures_findById|].
  intros [u|]; apply IH.
Qed.

(** The loop appends to the members it starts from; every appended entry
    is an invited member stamped with the clock, for an existing user
    whose identifier one of the submitted identifiers names. *)
Lemma push_members_to_add_Next env users to_add members res :
  push_members_to_add env users to_add members = Next res →
  ∃ added,
    res = members ++ added
    ∧ Forall (λ m, Member.role m = role_member
                   ∧ Member.invite_status m = invited
                   ∧ Member.added_at m = now env
                   ∧ Member.responded_at m = None
                   ∧ (∃ u, u ∈ users ∧ User._id u = Member.user_id m)
                   ∧ ∃ i, i ∈ to_add ∧ names (MemberToAdd._id i) (Member.user_id m))
        added.
Proof.
  revert members. induction to_add as [|i to_add IH]; intros members; simpl.
  - intros [= <-]. exists []. by rewrite app_nil_r.
  - destruct (bool_decide _).
    { intros (added & -> & Hadded)%IH. exists added. split; [done|].
      eapply Forall_impl; [done|]. intros m (? & ? & ? & ? & ? & i' & ? & ?).
      split_and!; try done. exists i'. rewrite elem_of_cons. auto. }
    destruct (findById User._id users (MemberToAdd._id i)) as [[u|]|r|e] eqn:Hu;
      simpl; try done.
    + intros (added & -> & Hadded)%IH.
      apply findById_Next in Hu as (oid & j & Hoid & Hfind).
      apply list_find_Some in Hfind as (Hj & Hid & _).
      exists (Member.mk (User._id u) role_member invited (now env) None :: added).
      split; [by rewrite <- app_assoc|].
      constructor.
      * simpl. split_and!; try done.
        -- exists u. split; [by eapply list_elem_of_lookup_2|done].
        -- exists i. split; [by left|]. unfold names. by rewrite Hoid, Hid.
      * eapply Forall_impl; [done|]. intros m (? & ? & ? & ? & ? & i' & ? & ?).
        split_and!; try done. exists i'. rewrite elem_of_cons. auto.
    + intros (added & -> & Hadded)%IH. exists added. split; [done|].
      eapply Forall_impl; [done|]. intros m (? & ? & ? & ? & ? & i' & ? & ?).
      split_and!; try done. exists i'. rewrite elem_of_cons. auto.
Qed.

(** With identifiers submitted in their stored form, the loop adds no
    account twice and none that is already in the team. *)
Lemma push_members_to_add_NoDup env users to_add members res :
  Forall (λ i, castObjectId (MemberToAdd._id i) = Some (MemberToAdd._id i)) to_add →
  NoDup (Member.user_id <$> members) →
  push_members_to_add env users to_add members = Next res →
  NoDup (Member.user_id <$> res).
Proof.
  intros Hcanon. revert members.
  induction Hcanon as [|i to_add Hi _ IH]; intros members Hnodup; simpl.
  - by intros [= <-].
  - destruct (bool_decide _) eqn:Hexists; [by apply IH|].
    apply bool_decide_eq_false in Hexists.
    unfold findById. rewrite Hi. simpl.
    destruct (list_find _ users) as [[j u]|] eqn:Hfind; simpl; [|by apply IH].
    apply IH. apply list_find_Some in Hfind as (_ & Hid & _).
    rewrite fmap_app. simpl. apply NoDup_app. split_and!; [done| |apply NoDup_singleton].
    intros x Hx ->%list_elem_of_singleton. apply Hexists.
    apply list_elem_of_fmap in Hx as (m & Hm & Hin).
    apply Exists_exists. exists m. split; [done|congruence].
Qed.

(** X1. A successful add is made by the leader; the stored team is the old
    members followed by new entries, each an invited member stamped with
    the clock for an existing account named in the request; the team does
    not exceed the maximum of its event; and when the identifiers are
    submitted in their stored form, a team without repeated accounts
    stays without repeated accounts. *)
Theorem add_members_appends_invited env user registrationId members_to_add db db' msg reg' :
  post_members env user registrationId members_to_add db
  = (db', ok 200 msg (registration_payload reg')) →
  ∃ j reg event added,
    registrations db !! j = Some reg
    ∧ names registrationId (Registration._id reg)
    ∧ Registration.leader_user_id reg = userId user
    ∧ event_of (events db) reg = Some event
    ∧ reg' = Registration.set_members (Registration.members reg ++ added) reg
    ∧ db' = set_registrations (<[j := reg']> (registrations db)) db
    ∧ Forall (λ m, Member.role m = role_member
                   ∧ Member.invite_status m = invited
                   ∧ Member.added_at m = now env
                   ∧ Member.responded_at m = None
                   ∧ (∃ u, u ∈ users db ∧ User._id u = Member.user_id m)
                   ∧ ∃ i, i ∈ default [] members_to_add
                          ∧ names (MemberToAdd._id i) (Member.user_id m))
        added
    ∧ Z.of_nat (length (Registration.members reg')) ≤ Event.max_team_size event
    ∧ (Forall (λ i, castObjectId (MemberToAdd._id i) = Some (MemberToAdd._id i))
         (default [] members_to_add) →
       NoDup (Member.user_id <$> Registration.members reg) →
       NoDup (Member.user_id <$> Registration.members reg')).
Proof.
  unfold post_members. intros Hpost.
  apply handle_fails in Hpost; [| |by intros; apply is_failure_fail].
  2:{ apply returns_failures_bind; [by apply returns_failures_return_if|intros _].
      apply returns_failures_bind; [apply returns_failures_findById|].
      intros [reg|]; [|by apply is_failure_fail].
      apply returns_failures_bind; [by apply returns_failures_return_if|intros _].
      apply returns_failures_bind; [apply returns_failures_findById|].
      intros [event|]; [|by apply is_failure_fail].
      apply returns_failures_bind; [apply push_members_to_add_fails|intros ms].
      body_fails. }
  destruct Hpost as [[_ Hfail]|Hpost]; [by destruct (is_failure_not_ok _ Hfail)|].
  flow_inv.
  rename select (findById Registration._id _ _ = _) into Hreg.
  rename select (findById Event._id _ _ = _) into Hev.
  rename select (push_members_to_add _ _ _ _ = _) into Hpush.
  rename select (bool_decide (_ ≠ _) = false) into Hleader.
  rename select ((_ <? _) = false) into Hmax.
  rename select (Registration_save _ _ _ = _) into Hsave.
  apply findById_event_of in Hev.
  apply findById_Next in Hreg as (oid & j & Hoid & Hfind).
  apply Registration_save_Next in Hsave as ->.
  pose proof Hfind as (Hj & Hid & _)%list_find_Some.
  pose proof Hpush as (added & Hres & Hadded)%push_members_to_add_Next.
  apply bool_decide_eq_false in Hleader. apply dec_stable in Hleader.
  apply Z.ltb_ge in Hmax.
  eexists j, _, _, added.
  rewrite (replace_registration_insert _ _ oid j _ Hfind) by done.
  split_and!; try done.
  - unfold names. by rewrite Hoid, Hid.
  - by rewrite Hres.
  - intros Hcanon Hnodup. simpl.
    by apply (push_members_to_add_NoDup _ _ _ _ _ Hcanon Hnodup Hpush).
Qed.

Lemma add_members_appends_invited_witness :
  ∃ db' reg',
    post_members Scenario.env_later Scenario.lea Scenario.registration_id
      More.add_cy_and_bob Scenario.db_team
    = (db', ok 200 "Team members added successfully" (registration_payload reg'))
    ∧ Member.user_id <$> Registration.members reg'
      = [Scenario.lea_id; Scenario.bob_id; Scenario.cy_id]
    ∧ NoDup (Member.user_id <$> Registration.members reg').
Proof.
  eexists _, _. split; [vm_compute; reflexivity|]. split; [reflexivity|].
  destruct (add_members_appends_invited Scenario.env_later Scenario.lea
              Scenario.registration_id More.add_cy_and_bob Scenario.db_team
              _ _ _ ltac:(vm_compute; reflexivity))
    as (j & reg & event & added & Hj & _ & _ & _ & _ & _ & _ & _ & Hnodup).
  apply Hnodup.
  - vm_compute. repeat constructor.
  - assert (j = 0%nat) as ->.
    { destruct j as [|[|j]]; [done|vm_compute in Hj; discriminate Hj..]. }
    vm_compute in Hj. injection Hj as <-. vm_compute.
    apply (bool_decide_unpack _). vm_compute. exact I.
Defined.

(** ** Answering an invitation: what is written *)

(** X2. A successful answer on the invitation route rewrites one entry of
    one registration: the first entry of the caller, which was invited and
    becomes accepted or declined as asked.  The status of the
    registration, its other members and its answers stay as they were. *)
Theorem invitation_answer_rewrites_own_entry user registrationId action db db' msg reg' :
  put_invitation user registrationId action db
  = (db', ok 200 msg (registration_payload reg')) →
  ∃ j reg n m,
    registrations db !! j = Some reg
    ∧ names registrationId (Registration._id reg)
    ∧ find_member (Registration.members reg) (userId user) = Some (n, m)
    ∧ Member.invite_status m = invited
    ∧ (action = Some "accept" ∨ action = Some "decline")
    ∧ reg' = Registration.set_members
               (<[n := Member.set_invite_status
                         (if decide (action = Some "accept") then accepted else declined) m]>
                  (Registration.members reg)) reg
    ∧ db' = set_registrations (<[j := reg']> (registrations db)) db
    ∧ Registration.status reg' = Registration.status reg
    ∧ Registration.answers reg' = Registration.answers reg.
Proof.
  unfold put_invitation. intros Hput.
  apply handle_fails in Hput; [| |by intros; apply is_failure_fail].
  2:{ body_fails. }
  destruct Hput as [[_ Hfail]|Hput]; [by destruct (is_failure_not_ok _ Hfail)|].
  flow_inv.
  rename select (findById Registration._id _ _ = _) into Hreg.
  rename select (find_member _ _ = _) into Hmember.
  rename select (bool_decide (_ ≠ invited) = false) into Hinvited.
  rename select (negb _ = false) into Haction.
  rename select (Registration_save _ _ _ = _) into Hsave.
  apply findById_Next in Hreg as (oid & j & Hoid & Hfind).
  apply Registration_save_Next in Hsave as ->.
  pose proof Hfind as (Hj & Hid & _)%list_find_Some.
  apply bool_decide_eq_false in Hinvited. apply dec_stable in Hinvited.
  apply negb_false_iff, orb_true_iff in Haction.
  eexists j, _, _, _.
  rewrite (replace_registration_insert _ _ oid j _ Hfind) by done.
  split_and!; try done.
  - unfold names. by rewrite Hoid, Hid.
  - destruct Haction as [?%bool_decide_eq_true|?%bool_decide_eq_true]; auto.
Qed.

Lemma invitation_answer_rewrites_own_entry_witness :
  ∃ db' reg',
    put_invitation Scenario.bob Scenario.registration_id (Some "accept") Scenario.db_team
    = (db', ok 200 "Invitation accepted successfully" (registration_payload reg'))
    ∧ Registration.status reg' = pending.
Proof.
  eexists _, _. split; [vm_compute; reflexivity|].
  destruct (invitation_answer_rewrites_own_entry Scenario.bob Scenario.registration_id
              (Some "accept") Scenario.db_team _ _ _ ltac:(vm_compute; reflexivity))
    as (j & reg & n & m & Hj & _ & _ & _ & _ & _ & _ & Hstatus & _).
  rewrite Hstatus.
  destruct j as [|[|j]]; [|vm_compute in Hj; discriminate Hj..].
  vm_compute in Hj. by injection Hj as <-.
Defined.

(** ** What a write of an event keeps *)

Lemma first_error_nil checks :
  Event.first_error checks = [] → Forall (λ c, fst c = true) checks.
Proof.
  unfold Event.first_error.
  destruct (list_find _ checks) as [[i c]|] eqn:Hfind; [done|].
  intros _. apply list_find_None in Hfind.
  eapply Forall_impl; [done|]. intros [[] ?]; simpl; congruence.
Qed.

Lemma Event_validate_well_formed now e :
  Event.validate now e = [] → now < Event.start_datetime e ∧ well_formed_event e.
Proof.
  unfold Event.validate. intros Hv.
  repeat (apply app_eq_nil in Hv as [?%first_error_nil Hv]).
  repeat match goal with
  | H : Forall _ (_ :: _) |- _ => apply Forall_cons in H as [? H]
  | H : Forall _ [] |- _ => clear H
  end.
  simpl in *.
  repeat match goal with
  | H : (_ <? _) = true |- _ => apply Z.ltb_lt in H
  | H : (_ <=? _) = true |- _ => apply Z.leb_le in H
  | H : negb (bool_decide _) = true |- _ =>
      apply negb_true_iff, bool_decide_eq_false in H
  end.
  assert (∀ s, s ≠ "" → 1 ≤ Event.len s) as Hlen.
  { intros [|c s] Hs; [done|]. unfold Event.len. simpl. lia. }
  split; [done|]. unfold well_formed_event. split_and!; try done; try lia.
  - intros n Hn. rename select (match Event.max_teams e with _ => _ end = true) into Hmt.
    rewrite Hn in Hmt. by apply Z.leb_le.
  - by apply Hlen.
Qed.

Lemma same_event_frame_refl e : same_event_frame e e.
Proof. by unfold same_event_frame. Qed.

Lemma same_event_frame_trans e1 e2 e3 :
  same_event_frame e1 e2 → same_event_frame e2 e3 → same_event_frame e1 e3.
Proof.
  unfold same_event_frame.
  intros (? & ? & ? & ? & ? & ? & ? & ? & Hf12) (? & ? & ? & ? & ? & ? & ? & ? & Hf23).
  split_and!; try congruence.
  intros Hids. rewrite Hf23; [by apply Hf12|]. by rewrite Hf12.
Qed.

Lemma apply_allowed_updates_frame body e :
  same_event_frame e (apply_allowed_updates body e).
Proof. by unfold same_event_frame. Qed.

Lemma events_frame_step_refl db : events_frame_step db db.
Proof. intros i e Hi. exists e. split; [done|apply same_event_frame_refl]. Qed.

Lemma events_frame_step_same db db' :
  events db' = events db → events_frame_step db db'.
Proof. intros Hsame. unfold events_frame_step. rewrite Hsame. apply events_frame_step_refl. Qed.

Lemma events_frame_step_trans db1 db2 db3 :
  events_frame_step db1 db2 → events_frame_step db2 db3 → events_frame_step db1 db3.
Proof.
  intros H12 H23 i e Hi.
  destruct (H12 i e Hi) as (e' & Hi' & ?).
  destruct (H23 i e' Hi') as (e'' & Hi'' & ?).
  exists e''. eauto using same_event_frame_trans.
Qed.

Lemma events_frame_step_saved {R} env db eventId event enum_errors e db' e' :
  findById (R := R) Event._id (events db) eventId = Next (Some event) →
  Event_save (R := R) env db enum_errors e = Next (db', e') →
  same_event_frame event e →
  events_frame_step db db'.
Proof.
  intros (oid & j & _ & Hfind)%findById_Next [-> ->]%Event_save_Next Hframe i e0 Hi.
  simpl. pose proof Hfind as (Hj & Hoid & _)%list_find_Some.
  rewrite (replace_event_insert _ _ oid j event)
    by (done || destruct Hframe as [? _]; simpl; congruence).
  destruct (decide (i = j)) as [->|Hne].
  - eexists. rewrite list_lookup_insert_eq by by eapply lookup_lt_Some.
    split; [done|]. by simplify_eq.
  - exists e0. rewrite list_lookup_insert_ne by done.
    split; [done|apply same_event_frame_refl].
Qed.

Lemma put_event_frame_step env user eventId body db :
  events_frame_step db (fst (put_event env user eventId body db)).
Proof.
  destruct (put_event env user eventId body db) as [db' r] eqn:Hput. simpl.
  unfold put_event in Hput.
  apply handle_inv in Hput as [->|Hput]; [apply events_frame_step_refl|].
  flow_inv;
    match goal with
    | Hev : findById Event._id _ _ = Next (Some ?event),
      Hsave : Event_save _ _ _ _ = Next _ |- _ =>
        by eapply (events_frame_step_saved _ _ _ _ _ _ _ _ Hev Hsave)
    end.
Qed.

Lemma delete_event_frame_step env user eventId db :
  events_frame_step db (fst (delete_event env user eventId db)).
Proof.
  destruct (delete_event env user eventId db) as [db' r] eqn:Hdel. simpl.
  unfold delete_event in Hdel.
  apply handle_inv in Hdel as [->|Hdel]; [apply events_frame_step_refl|].
  flow_inv;
    match goal with
    | Hev : findById Event._id _ _ = Next (Some ?event),
      Hsave : Event_save _ _ _ _ = Next _ |- _ =>
        by eapply (events_frame_step_saved _ _ _ _ _ _ _ _ Hev Hsave)
    end.
Qed.

Lemma post_events_frame_step env uuid user body db :
  events_frame_step db (fst (post_events env uuid user body db)).
Proof.
  destruct (post_events env uuid user body db) as [db' r] eqn:Hpost. simpl.
  apply post_events_inv in Hpost as [->|[e ->]]; [apply events_frame_step_refl|].
  intros i e0 Hi. exists e0. split; [|apply same_event_frame_refl].
  simpl. by apply lookup_app_l_Some.
Qed.

Section EventFrame.
Context {casts : SchemaCast}.

Lemma step_events_frame env user req db :
  events_frame_step db (fst (step env user req db)).
Proof.
  destruct req; simpl;
    eauto using put_event_frame_step, delete_event_frame_step, post_events_frame_step,
      events_frame_step_same, put_invitation_events, post_members_events,
      delete_member_events, put_member_events, delete_registration_events,
      get_registrations_events, get_pending_invitations_events,
      get_registration_events.
  destruct (post_registrations_effect env user body db) as [->|(new & -> & _)];
    [apply events_frame_step_refl|by apply events_frame_step_same].
Qed.

(** X3. Over every sequence of requests a stored event stays at its place
    with its identifier, type, organizer, society, registration mode, team
    size bounds and creation time, and with its form fields when each of
    them has an identifier. *)
Theorem stored_event_keeps_frame reqs db : events_frame_step db (run reqs db).
Proof.
  revert db. induction reqs as [|[[env user] req] reqs IH]; intros db; simpl.
  - apply events_frame_step_refl.
  - eapply events_frame_step_trans; [apply step_events_frame|apply IH].
Qed.
End EventFrame.

(** ** A successful update of an event *)

Lemma well_formed_set_updated_at now e :
  well_formed_event (Event.set_updated_at now e) ↔ well_formed_event e.
Proof. done. Qed.

Lemma Event_save_valid {R} env db enum_errors e db' e' :
  Event_save (R := R) env db enum_errors e = Next (db', e') →
  enum_errors = [] ∧ Event.validate (now env) e = [].
Proof.
  unfold Event_save. destruct (_ ++ _)%list eqn:Hmsgs; [|done].
  intros _. by apply app_eq_nil in Hmsgs.
Qed.

Lemma put_event_fails env user eventId body db :
  returns_failures (
    return_if (negb (isValidObjectId eventId)) (fail 400 "Invalid event ID");;
    event ← findById Event._id (events db) eventId;
    match event with
    | None => Return (fail 404 "Event not found")
    | Some event =>
        return_if (bool_decide (Event.organizer_id event ≠ userId user)
                   && bool_decide (user_role user ≠ "admin"))
          (fail 403 "You are not authorized to update this event");;
        (if is_open_status (Event.event_status event) then
           return_if (truthy_string (UpdateBody.event_type body)
                      && bool_decide (UpdateBody.event_type body
                                      ≠ Some (EventType_to_string (Event.event_type event))))
             (fail 400 "Cannot change event type after publication");;
           return_if (truthy_string (UpdateBody.organizer_id body))
             (fail 400 "Cannot change organizer after publication")
         else Next ());;
        '(db', event) ←
          Event_save env db
            (from_option (λ s, enum_error EventStatus_of_string s "event status") []
               (UpdateBody.event_status body))
            (apply_allowed_updates body event);
        Next (db', ok 200 "Event updated successfully" (event_payload event))
    end).
Proof.
  apply returns_failures_bind; [by apply returns_failures_return_if|intros _].
  apply returns_failures_bind; [apply returns_failures_findById|].
  intros [event|]; [|by apply is_failure_fail].
  apply returns_failures_bind; [by apply returns_failures_return_if|intros _].
  apply returns_failures_bind.
  { destruct (is_open_status _); [|done].
    apply returns_failures_bind; [by apply returns_failures_return_if|intros _].
    by apply returns_failures_return_if. }
  intros _. by apply Event_save_fails; intros [? ?].
Qed.

Lemma catch_validation_fails msg e : is_failure (catch_validation msg e).
Proof. destruct e; by apply is_failure_fail || (split; [done|simpl; lia]). Qed.

Lemma trim_start_head s c s' : trim_start s = String c s' → is_whitespace c = false.
Proof.
  induction s as [|c0 s IH]; simpl; [done|].
  destruct (is_whitespace c0) eqn:Hc0; [done|]. by intros [= <- _].
Qed.

Lemma trim_start_id s :
  (∀ c s', s = String c s' → is_whitespace c = false) → trim_start s = s.
Proof. destruct s as [|c s]; simpl; [done|]. intros H. by rewrite (H c s). Qed.

Lemma trim_start_suffix s :
  ∃ w, list_ascii_of_string s = w ++ list_ascii_of_string (trim_start s).
Proof.
  induction s as [|c s [w IH]]; simpl; [by exists []|].
  destruct (is_whitespace c).
  - exists (c :: w). by rewrite IH.
  - by exists [].
Qed.

Lemma string_rev_involutive s : string_rev (string_rev s) = s.
Proof.
  unfold string_rev.
  by rewrite list_ascii_of_string_of_list_ascii, rev_involutive,
    string_of_list_ascii_of_string.
Qed.

Lemma trim_idemp s : trim (trim s) = trim s.
Proof.
  unfold trim.
  set (a := trim_start s). set (b := trim_start (string_rev a)).
  assert (trim_start b = b) as Hb.
  { apply trim_start_id. intros c s' Hc. by eapply trim_start_head. }
  assert (trim_start (string_rev b) = string_rev b) as Ht.
  { apply trim_start_id. intros c t' Hc.
    destruct (trim_start_suffix (string_rev a)) as [w Hw]. fold b in Hw.
    unfold string_rev in Hw at 1. rewrite list_ascii_of_string_of_list_ascii in Hw.
    apply (f_equal (@rev ascii)) in Hw. rewrite rev_involutive, rev_app_distr in Hw.
    apply (f_equal list_ascii_of_string) in Hc.
    unfold string_rev in Hc. rewrite list_ascii_of_string_of_list_ascii in Hc.
    simpl in Hc. rewrite Hc in Hw. simpl in Hw.
    apply (trim_start_head s c (string_of_list_ascii (list_ascii_of_string t' ++ rev w))).
    fold a. rewrite <- (string_of_list_ascii_of_string a), Hw. done. }
  by rewrite Ht, string_rev_involutive, Hb.
Qed.

Lemma put_event_inv env user eventId body db db' msg e' :
  put_event env user eventId body db = (db', ok 200 msg (event_payload e')) →
  ∃ j event,
    findById (R := Response) Event._id (events db) eventId = Next (Some event)
    ∧ events db !! j = Some event
    ∧ names eventId (Event._id event)
    ∧ (Event.organizer_id event = userId user ∨ user_role user = "admin")
    ∧ e' = Event.set_updated_at (now env) (apply_allowed_updates body event)
    ∧ db' = set_events (<[j := e']> (events db)) db
    ∧ now env < Event.start_datetime e'
    ∧ well_formed_event e'
    ∧ (∀ s, UpdateBody.event_status body = Some s →
            EventStatus_of_string s = Some (Event.event_status e'))
    ∧ same_event_frame event e'.
Proof.
  unfold put_event. intros Hput.
  apply handle_fails in Hput; [|apply put_event_fails|apply catch_validation_fails].
  destruct Hput as [[_ Hfail]|Hput]; [by destruct (is_failure_not_ok _ Hfail)|].
  flow_inv;
    rename select (findById Event._id _ _ = _) into Hev;
    rename select (Event_save _ _ _ _ = _) into Hsave;
    rename select ((bool_decide (Event.organizer_id _ ≠ _) && _) = false) into Hauth;
    pose proof Hev as Hfound;
    apply findById_Next in Hev as (oid & j & Hoid & Hfind);
    pose proof Hsave as [Henum Hvalid]%Event_save_valid;
    apply Event_save_Next in Hsave as [-> ->];
    pose proof Hfind as (Hj & Hid & _)%list_find_Some;
    apply Event_validate_well_formed in Hvalid as [Hfuture Hwf];
    exists j, t;
    rewrite (replace_event_insert _ _ oid j t Hfind) by done;
    (split_and!; try done;
     [ by unfold names; rewrite Hoid, Hid
     | apply andb_false_iff in Hauth
         as [Hauth%bool_decide_eq_false|Hauth%bool_decide_eq_false];
         apply dec_stable in Hauth; auto
     | intros s Hs; rewrite Hs in Henum; simpl in Henum; simpl; rewrite Hs; simpl;
         unfold enum_error in Henum; by destruct (EventStatus_of_string s) ]).
Qed.

(** X4. Through the mounted route a successful update is made by the
    account that the token names, the organizer of the event or an
    administrator, with a body that passes [validateEventUpdate].  The
    stored event has the title, the description and the venue of the body
    without the white space around them, and its updated time is the
    clock.  When every form field of the old event has an identifier, the
    stored event is the old one with the allowed properties of the
    sanitized body assigned and the update time stamped.  It passes the
    validators of the schema, so it starts after the request; a status named
    in the body is one of the enumeration and is the stored one; the frame
    of the event is kept. *)
Theorem update_event_writes_valid_event verify isURL authHeader env eventId body
    db db' msg e' :
  route_put_event verify isURL authHeader env eventId body db
  = (db', ok 200 msg (event_payload e')) →
  ∃ user j event,
    authenticateToken verify authHeader = Authenticated user
    ∧ snd (validateEventUpdate isURL body) = []
    ∧ events db !! j = Some event
    ∧ names eventId (Event._id event)
    ∧ (Event.organizer_id event = userId user ∨ user_role user = "admin")
    ∧ Event.title e' = from_option trim (Event.title event) (UpdateBody.title body)
    ∧ Event.description e'
      = from_option trim (Event.description event) (UpdateBody.description body)
    ∧ Event.venue e' = from_option trim (Event.venue event) (UpdateBody.venue body)
    ∧ Event.updated_at e' = now env
    ∧ (Forall (λ f, FormField.field_id f ≠ "") (Event.form_fields event) →
       e' = Event.set_updated_at (now env)
              (apply_allowed_updates (fst (validateEventUpdate isURL body)) event))
    ∧ db' = set_events (<[j := e']> (events db)) db
    ∧ now env < Event.start_datetime e'
    ∧ well_formed_event e'
    ∧ (∀ s, UpdateBody.event_status body = Some s →
            EventStatus_of_string s = Some (Event.event_status e'))
    ∧ same_event_frame event e'.
Proof.
  unfold route_put_event.
  destruct (authenticateToken verify authHeader) as [user|code m] eqn:Hauth; [|done].
  destruct (validateEventUpdate isURL body) as [body' errors] eqn:Hvalidate.
  destruct (handleValidationErrors errors) as [r|] eqn:Herrors.
  { intros [= _ ->]. apply handleValidationErrors_Some in Herrors as [[=] _]. }
  apply handleValidationErrors_None in Herrors as ->.
  intros (j & event & _ & Hj & Hname & Hcaller & He' & Hdb' & Hfuture & Hwf & Hstatus
          & Hframe)%put_event_inv.
  unfold validateEventUpdate in Hvalidate. injection Hvalidate as <- _.
  exists user, j, event. simpl in *.
  split_and!; try done.
  - rewrite He'. simpl. destruct (UpdateBody.title body); simpl; [|done].
    apply trim_idemp.
  - rewrite He'. simpl. by destruct (UpdateBody.description body).
  - rewrite He'. simpl. by destruct (UpdateBody.venue body).
  - by rewrite He'.
Qed.

Lemma update_event_writes_valid_event_witness :
  ∃ db' e',
    route_put_event More.verify (λ _, true) (Some "Bearer org-token") Scenario.env
      Scenario.event_id More.body_padded_venue (Scenario.db0 2 4)
    = (db', ok 200 "Event updated successfully" (event_payload e'))
    ∧ Event.venue e' = "Room 12"
    ∧ Event.updated_at e' = 1000
    ∧ well_formed_event e'.
Proof.
  eexists _, _. split; [vm_compute; reflexivity|]. split_and!; [reflexivity..|].
  destruct (update_event_writes_valid_event More.verify (λ _, true)
              (Some "Bearer org-token") Scenario.env Scenario.event_id
              More.body_padded_venue (Scenario.db0 2 4) _ _ _
              ltac:(vm_compute; reflexivity))
    as (user & j & event & _ & _ & _ & _ & _ & _ & _ & _ & _ & _ & _ & _ & Hwf & _).
  exact Hwf.
Defined.

(** ** An event that has started *)

Lemma Event_validate_started now e :
  Event.start_datetime e ≤ now →
  "Event start datetime must be in the future" ∈ Event.validate now e.
Proof.
  intros Hstarted. unfold Event.validate.
  apply elem_of_app; right. apply elem_of_app; right. apply elem_of_app; left.
  unfold Event.first_error. simpl.
  rewrite (proj2 (Z.ltb_ge _ _) Hstarted). simpl. by left.
Qed.

Lemma Event_save_started {R} env db enum_errors e :
  Event.start_datetime e ≤ now env →
  ∃ messages,
    Event_save (R := R) env db enum_errors e = Throw (ValidationError messages)
    ∧ "Event start datetime must be in the future" ∈ messages.
Proof.
  intros Hin%Event_validate_started. unfold Event_save.
  destruct (_ ++ _)%list as [|m ms] eqn:Hmsgs.
  - apply app_eq_nil in Hmsgs as [_ Hnil]. rewrite Hnil in Hin.
    by apply elem_of_nil in Hin.
  - eexists. split; [done|]. rewrite <- Hmsgs. apply elem_of_app. by right.
Qed.

(** X5. An event that has started can no longer be written: an update
    that does not move the start fails and writes nothing, whoever sends it
    (from the organizer or an administrator it fails on the guard of a
    published event or on the validator of the start time), and a delete
    fails and writes nothing, with the answer 500 for the organizer and for
    an administrator. *)
Theorem started_event_is_frozen env user eventId db event :
  findById (R := Response) Event._id (events db) eventId = Next (Some event) →
  Event.start_datetime event ≤ now env →
  (∀ body,
     default (Event.start_datetime event) (UpdateBody.start_datetime body) ≤ now env →
     ∃ r, put_event env user eventId body db = (db, r)
          ∧ is_failure r
          ∧ (Event.organizer_id event = userId user ∨ user_role user = "admin" →
             is_open_status (Event.event_status event) = false →
             ∃ messages,
               r = mkResponse 400 false "Validation failed" (errors_payload messages)
               ∧ "Event start datetime must be in the future" ∈ messages))
  ∧ (∃ r, delete_event env user eventId db = (db, r)
          ∧ is_failure r
          ∧ (Event.organizer_id event = userId user ∨ user_role user = "admin" →
             r = fail 500 "Server error while deleting event")).
Proof.
  intros Hfound Hstarted.
  assert (isValidObjectId eventId = true) as Hvalid.
  { apply findById_Next in Hfound as (oid & _ & Hoid & _).
    unfold castObjectId in Hoid. by destruct (isValidObjectId eventId). }
  split.
  - intros body Hstart. unfold put_event. rewrite Hvalid. simpl. rewrite Hfound. simpl.
    destruct (bool_decide (Event.organizer_id event ≠ userId user)
              && bool_decide (user_role user ≠ "admin")) eqn:Hauth; simpl.
    { eexists; split_and!; [done|by apply is_failure_fail|].
      intros Hallowed.
      apply andb_true_iff in Hauth as [?%bool_decide_eq_true ?%bool_decide_eq_true].
      by destruct Hallowed. }
    destruct (Event_save_started (R := Response) env db
                (from_option (λ s, enum_error EventStatus_of_string s "event status") []
                   (UpdateBody.event_status body))
                (apply_allowed_updates body event) Hstart) as (messages & Hsave & Hin).
    destruct (is_open_status (Event.event_status event)) eqn:Hopen; simpl.
    + destruct (truthy_string (UpdateBody.event_type body) && _); simpl.
      { eexists; split_and!; [done|by apply is_failure_fail|done]. }
      destruct (truthy_string (UpdateBody.organizer_id body)); simpl.
      { eexists; split_and!; [done|by apply is_failure_fail|done]. }
      rewrite Hsave. simpl.
      eexists; split_and!; [done|split; [done|simpl; lia]|done].
    + rewrite Hsave. simpl.
      eexists; split_and!; [done|split; [done|simpl; lia]|eauto].
  - unfold delete_event. rewrite Hvalid. simpl. rewrite Hfound. simpl.
    destruct (bool_decide (Event.organizer_id event ≠ userId user)
              && bool_decide (user_role user ≠ "admin")) eqn:Hauth; simpl.
    { eexists; split_and!; [done|by apply is_failure_fail|].
      intros Hallowed.
      apply andb_true_iff in Hauth as [?%bool_decide_eq_true ?%bool_decide_eq_true].
      by destruct Hallowed. }
    destruct (Event_save_started (R := Response) env db []
                (Event.set_event_status ev_cancelled event) Hstarted)
      as (messages & Hsave & Hin).
    rewrite Hsave. simpl.
    eexists; split_and!; [done|by apply is_failure_fail|done].
Qed.

Lemma started_event_is_frozen_witness :
  delete_event More.env_started Scenario.org Scenario.event_id (Scenario.db0 2 4)
  = (Scenario.db0 2 4, fail 500 "Server error while deleting event").
Proof.
  destruct (started_event_is_frozen More.env_started Scenario.org Scenario.event_id
              (Scenario.db0 2 4) (Scenario.hack_night 2 4))
    as [_ (r & Hdel & _ & Hr)].
  - vm_compute; reflexivity.
  - vm_compute; discriminate.
  - rewrite Hdel. f_equal. apply Hr. by left.
Defined.

(** ** What a request writes in the registrations *)

Lemma same_registration_frame_refl r : same_registration_frame r r.
Proof. by unfold same_registration_frame. Qed.

Lemma same_registration_frame_trans r1 r2 r3 :
  same_registration_frame r1 r2 → same_registration_frame r2 r3 →
  same_registration_frame r1 r3.
Proof.
  unfold same_registration_frame.
  intros (? & ? & ? & ? & ? & ? & ?) (? & ? & ? & ? & ? & ? & ?).
  split_and!; congruence.
Qed.

Lemma registration_write_nothing db : registration_write db db.
Proof. split; [done|by left]. Qed.

Lemma registration_write_reads db db' :
  db' = db → registration_write db db'.
Proof. intros ->. apply registration_write_nothing. Qed.

Lemma Registration_save_hook {R} db members_modified r db' :
  Registration_save (R := R) db members_modified r = Next db' →
  validate_loaded r = [] ∧ Registration.pre_save (events db) members_modified r = None.
Proof. unfold Registration_save. intros H. by repeat case_match. Qed.

Lemma saved_registration_write {R} db registrationId reg members_modified r' db' :
  findById (R := R) Registration._id (registrations db) registrationId = Next (Some reg) →
  Registration_save (R := R) db members_modified r' = Next db' →
  same_registration_frame reg r' →
  length (Registration.members r') = length (Registration.members reg)
  ∨ members_modified = true →
  registration_write db db'.
Proof.
  intros (oid & j & _ & Hfind)%findById_Next Hsave Hframe Hmembers.
  pose proof Hsave as [_ Hhook]%Registration_save_hook.
  apply Registration_save_Next in Hsave as ->.
  pose proof Hfind as (Hj & Hid & _)%list_find_Some.
  split; [done|]. right; right. exists j, reg, r'. simpl.
  rewrite (replace_registration_insert r' _ oid j reg Hfind)
    by (destruct Hframe as [? _]; congruence).
  split_and!; [done..|].
  destruct Hmembers as [?| ->]; auto.
Qed.

Ltac writes_registration H :=
  apply handle_inv in H as [->|H]; [apply registration_write_nothing|];
  flow_inv;
  match goal with
  | Hreg : findById Registration._id _ _ = Next (Some ?reg),
    Hsave : Registration_save _ _ _ = Next _ |- _ =>
      eapply (saved_registration_write _ _ _ _ _ _ Hreg Hsave)
  end.

Lemma put_invitation_write user registrationId action db :
  registration_write db (fst (put_invitation user registrationId action db)).
Proof.
  destruct (put_invitation _ _ _ _) as [db' r] eqn:Hh. simpl.
  unfold put_invitation in Hh. writes_registration Hh; [done|by right].
Qed.

Lemma post_members_write env user registrationId members_to_add db :
  registration_write db (fst (post_members env user registrationId members_to_add db)).
Proof.
  destruct (post_members _ _ _ _ _) as [db' r] eqn:Hh. simpl.
  unfold post_members in Hh. writes_registration Hh; [done|].
  simpl.
  match goal with
  | |- _ ∨ bool_decide (?a ≠ ?b) = true =>
      destruct (decide (a = b)) as [->|?];
        [by left|right; by apply bool_decide_eq_true]
  end.
Qed.

Lemma delete_member_write user registrationId memberId db :
  registration_write db (fst (delete_member user registrationId memberId db)).
Proof.
  destruct (delete_member _ _ _ _) as [db' r] eqn:Hh. simpl.
  unfold delete_member in Hh. writes_registration Hh; [done|by right].
Qed.

Lemma put_member_write env user registrationId memberId invite_status db :
  registration_write db
    (fst (put_member env user registrationId memberId invite_status db)).
Proof.
  destruct (put_member _ _ _ _ _ _) as [db' r] eqn:Hh. simpl.
  unfold put_member in Hh. writes_registration Hh; [by destruct (_ && _)|].
  left. destruct (_ && _); simpl; by rewrite length_insert.
Qed.

Lemma delete_registration_write user registrationId db :
  registration_write db (fst (delete_registration user registrationId db)).
Proof.
  destruct (delete_registration _ _ _) as [db' r] eqn:Hh. simpl.
  unfold delete_registration in Hh. writes_registration Hh; [done|by left].
Qed.

Lemma get_registrations_write user q db :
  registration_write db (fst (get_registrations user q db)).
Proof.
  destruct (get_registrations _ _ _) as [db' r] eqn:Hh. simpl.
  unfold get_registrations in Hh.
  apply handle_inv in Hh as [->|Hh]; [apply registration_write_nothing|].
  flow_inv. apply registration_write_nothing.
Qed.

Lemma get_pending_invitations_write user db :
  registration_write db (fst (get_pending_invitations user db)).
Proof.
  destruct (get_pending_invitations _ _) as [db' r] eqn:Hh. simpl.
  unfold get_pending_invitations in Hh.
  apply handle_inv in Hh as [->|Hh]; [apply registration_write_nothing|].
  flow_inv. apply registration_write_nothing.
Qed.

Lemma get_registration_write user registrationId db :
  registration_write db (fst (get_registration user registrationId db)).
Proof.
  destruct (get_registration _ _ _) as [db' r] eqn:Hh. simpl.
  unfold get_registration in Hh.
  apply handle_inv in Hh as [->|Hh]; [apply registration_write_nothing|].
  flow_inv; apply registration_write_nothing.
Qed.

Lemma check_preconditions_event env user body db event :
  check_preconditions env user body db = Next event →
  findById (R := Response) Event._id (events db) (CreateBody.event_id body)
  = Next (Some event).
Proof.
  unfold check_preconditions. intros Hpre.
  destruct (findById Event._id (events db) (CreateBody.event_id body))
    as [[event'|]|r|e]; simpl in Hpre; try done.
  flow_inv; done.
Qed.

Section CreateWrite.
Context {casts : SchemaCast}.

Lemma Registration_cast_fields now new_id d r :
  Registration.cast now new_id d = Some r →
  Registration._id r = new_id
  ∧ castObjectId (Registration.d_event_id d) = Some (Registration.event_id r)
  ∧ castObjectId (Registration.d_leader_user_id d) = Some (Registration.leader_user_id r)
  ∧ Registration.mode r = Registration.d_mode d
  ∧ Registration.team_name r = Registration.d_team_name d
  ∧ Status_of_string (Registration.d_status d) = Some (Registration.status r)
  ∧ mapM (Member.cast now) (default [] (Registration.d_members d))
    = Some (Registration.members r)
  ∧ mapM Answer.cast (default [] (Registration.d_answers d))
    = Some (Registration.answers r)
  ∧ Registration.created_at r = now.
Proof.
  unfold Registration.cast. intros Hcast.
  repeat match type of Hcast with
  | (_ ≫= _) = Some _ => apply bind_Some in Hcast as (? & ? & Hcast)
  end.
  by simplify_eq.
Qed.

Lemma Registration_validate_loaded now new_id d r :
  Registration.validate d = [] →
  Registration.cast now new_id d = Some r →
  validate_loaded r = [].
Proof.
  intros Hvalid (_ & _ & _ & Hmode & Hname & _)%Registration_cast_fields.
  unfold Registration.validate in Hvalid.
  apply app_eq_nil in Hvalid as [_ Hvalid].
  apply app_eq_nil in Hvalid as [_ Hvalid].
  apply app_eq_nil in Hvalid as [Hvalid _].
  unfold validate_loaded. by rewrite Hname, Hmode.
Qed.

Lemma Registration_create_inv {R} env db d db' r :
  Registration_create (R := R) env db d = Next (db', r) →
  Registration.validate d = []
  ∧ Registration.cast (now env) (new_id env) d = Some r
  ∧ Registration.pre_save (events db) (bool_decide (is_Some (Registration.d_members d))) r
    = None
  ∧ Forall (λ r', Registration._id r' ≠ Registration._id r
                  ∧ (Registration.event_id r', Registration.leader_user_id r')
                    ≠ (Registration.event_id r, Registration.leader_user_id r))
      (registrations db)
  ∧ db' = set_registrations (registrations db ++ [r]) db.
Proof.
  unfold Registration_create. intros Hc.
  destruct (Registration.validate d) eqn:Hvalid; [|by repeat case_match].
  destruct (Registration.cast _ _ d) as [r0|] eqn:Hcast; [|done].
  destruct (Registration.pre_save _ _ r0) eqn:Hhook; [done|].
  destruct (bool_decide (Exists _ _)) eqn:Hexists; [done|].
  apply bool_decide_eq_false in Hexists. simplify_eq.
  split_and!; try done.
  apply Forall_forall. intros r' Hin. split.
  - intros Hid. apply Hexists, Exists_exists. exists r'. auto.
  - intros [= Hev Hld]. apply Hexists, Exists_exists. exists r'. auto.
Qed.

Lemma post_registrations_write env user body db :
  registration_write db (fst (post_registrations env user body db)).
Proof.
  destruct (post_registrations_inv env user body db)
    as [(r & -> & _)|(event & members & db' & reg & Hpre & Hmembers & Hc & ->)];
    [apply registration_write_nothing|].
  simpl.
  apply check_preconditions_event, findById_Next in Hpre as (oid & j & Hoid & Hfind).
  apply Registration_create_inv in Hc as (Hvalid & Hcast & Hhook & Hfresh & ->).
  pose proof (Registration_validate_loaded _ _ _ _ Hvalid Hcast) as Hloaded.
  apply Registration_cast_fields in Hcast
    as (_ & Hev & _ & Hmode & _ & _ & _ & _ & _).
  simpl in Hev, Hmode. rewrite Hoid in Hev. injection Hev as Hev.
  split; [done|]. right; left. exists reg. split_and!; try done.
  exists event. unfold hook_event. rewrite <- Hev, Hfind. split; [done|].
  intros Hteam. unfold Registration.pre_save in Hhook.
  rewrite <- Hev, Hfind, Hteam in Hhook. simpl in Hhook.
  destruct members as [ms|]; [|by rewrite Hteam in Hmode; destruct Hmembers].
  simpl in Hhook.
  destruct (_ <? _) eqn:Hmin in Hhook; [done|].
  destruct (_ <? _) eqn:Hmax in Hhook; [done|].
  apply Z.ltb_ge in Hmin, Hmax. done.
Qed.

Lemma step_write env user req db :
  registration_write db (fst (step env user req db))
  ∨ (registrations (fst (step env user req db)) = registrations db
     ∧ events_frame_step db (fst (step env user req db))).
Proof.
  destruct req; simpl;
    eauto using post_registrations_write, put_invitation_write, post_members_write,
      delete_member_write, put_member_write, delete_registration_write,
      get_registrations_write, get_pending_invitations_write, get_registration_write,
      post_events_registrations, put_event_registrations, delete_event_registrations,
      post_events_frame_step, put_event_frame_step, delete_event_frame_step.
Qed.
End CreateWrite.

(** ** Invariants of the stored registrations *)

Lemma hook_event_frame_step db db' r event :
  events_frame_step db db' →
  hook_event (events db) r = Some event →
  ∃ event', hook_event (events db') r = Some event' ∧ same_event_frame event event'.
Proof.
  intros Hstep. unfold hook_event.
  intros ([i e] & Hfind & ->)%fmap_Some. simpl.
  apply list_find_Some in Hfind as (Hi & Hid & Hfirst).
  destruct (Hstep i e Hi) as (e' & Hi' & Hframe).
  exists e'. split; [|done].
  apply fmap_Some. exists (i, e'). split; [|done].
  apply list_find_Some. split_and!; [done|destruct Hframe as [? _]; congruence|].
  intros j y' Hj' Hlt Hy'.
  destruct (lookup_lt_is_Some_2 (events db) j) as [y Hj].
  { apply lookup_lt_Some in Hi. lia. }
  destruct (Hstep j y Hj) as (y'' & Hj'' & Hyframe).
  rewrite Hj' in Hj''. injection Hj'' as <-.
  apply (Hfirst j y Hj Hlt). destruct Hyframe as [? _]. congruence.
Qed.

Lemma team_sized_frame_step db db' r :
  events_frame_step db db' → team_sized (events db) r → team_sized (events db') r.
Proof.
  intros Hstep (event & Hev & Hbounds).
  destruct (hook_event_frame_step _ _ _ _ Hstep Hev)
    as (event' & Hev' & _ & _ & _ & _ & _ & Hmin & Hmax & _).
  exists event'. split; [done|]. rewrite Hmin, Hmax. done.
Qed.

Lemma team_sized_rewrite events reg r' :
  team_sized events reg →
  same_registration_frame reg r' →
  length (Registration.members r') = length (Registration.members reg)
  ∨ Registration.pre_save events true r' = None →
  team_sized events r'.
Proof.
  intros (event & Hev & Hbounds) (_ & Hevent & Hmode & _) Hmembers.
  exists event. unfold hook_event in *. rewrite Hevent. split; [done|].
  intros Hteam. destruct Hmembers as [->|Hhook]; [apply Hbounds; congruence|].
  unfold Registration.pre_save in Hhook.
  rewrite Hteam, Hevent, Hev in Hhook. simpl in Hhook.
  destruct (_ <? _) eqn:Hmin in Hhook; [done|].
  destruct (_ <? _) eqn:Hmax in Hhook; [done|].
  apply Z.ltb_ge in Hmin, Hmax. done.
Qed.

Lemma team_size_invariant_write db db' :
  registration_write db db' → team_size_invariant db → team_size_invariant db'.
Proof.
  unfold team_size_invariant.
  intros [Hevents [Hsame|[(new & Hnew & _ & Hsized & _)|(j & reg & r' & Hj & Hregs & Hframe & Hm)]]]
    Hinv; rewrite Hevents.
  - by rewrite Hsame.
  - rewrite Hnew. apply Forall_app. split; [done|]. by constructor.
  - rewrite Hregs. apply Forall_insert; [done|].
    eapply team_sized_rewrite; [|done..].
    by eapply Forall_lookup_1.
Qed.

Lemma unique_registrations_write db db' :
  registration_write db db' → unique_registrations db → unique_registrations db'.
Proof.
  unfold unique_registrations.
  intros [_ [Hsame|[(new & Hnew & Hfresh & _)|(j & reg & r' & Hj & Hregs & Hframe & _)]]]
    [Hids Hpairs].
  - by rewrite Hsame.
  - rewrite Hnew, !fmap_app. simpl. split.
    + apply NoDup_app. split_and!; [done| |apply NoDup_singleton].
      intros x (r & -> & Hin)%list_elem_of_fmap Hx%list_elem_of_singleton.
      rewrite Forall_forall in Hfresh. by destruct (Hfresh r Hin).
    + apply NoDup_app. split_and!; [done| |apply NoDup_singleton].
      intros x (r & -> & Hin)%list_elem_of_fmap Hx%list_elem_of_singleton.
      rewrite Forall_forall in Hfresh. by destruct (Hfresh r Hin).
  - destruct Hframe as (Hid & Hev & _ & Hld & _).
    rewrite Hregs, !list_fmap_insert.
    rewrite !list_insert_id; [done|..].
    + rewrite list_lookup_fmap, Hj. simpl. by rewrite Hev, Hld.
    + rewrite list_lookup_fmap, Hj. simpl. by rewrite Hid.
Qed.

Lemma named_teams_write db db' :
  registration_write db db' → named_teams db → named_teams db'.
Proof.
  unfold named_teams.
  intros [_ [Hsame|[(new & Hnew & _ & _ & Hloaded)|(j & reg & r' & Hj & Hregs & Hframe & _)]]]
    Hinv.
  - by rewrite Hsame.
  - rewrite Hnew. apply Forall_app. split; [done|]. by constructor.
  - rewrite Hregs. apply Forall_insert; [done|].
    destruct Hframe as (_ & _ & Hmode & _ & Hname & _).
    pose proof (Forall_lookup_1 _ _ _ _ Hinv Hj) as Hreg. simpl in Hreg.
    unfold validate_loaded in *. by rewrite Hname, Hmode.
Qed.

Lemma registrations_frame_step_write db db' :
  registration_write db db' → registrations_frame_step db db'.
Proof.
  intros [_ [Hsame|[(new & Hnew & _)|(j & reg & r' & Hj & Hregs & Hframe & _)]]] i r Hi.
  - rewrite Hsame. eauto using same_registration_frame_refl.
  - rewrite Hnew. exists r. split; [by apply lookup_app_l_Some|].
    apply same_registration_frame_refl.
  - rewrite Hregs. destruct (decide (i = j)) as [->|Hne].
    + exists r'. rewrite list_lookup_insert_eq by by eapply lookup_lt_Some.
      by simplify_eq.
    + exists r. rewrite list_lookup_insert_ne by done.
      eauto using same_registration_frame_refl.
Qed.

Section Invariants.
Context {casts : SchemaCast}.

(** X6. When every stored registration has its event stored and every
    stored team has a number of members within the team size bounds of its
    event, this is so after every sequence of requests. *)
Theorem team_size_invariant_kept reqs db :
  team_size_invariant db → team_size_invariant (run reqs db).
Proof.
  revert db. induction reqs as [|[[env user] req] reqs IH]; intros db Hinv; simpl; [done|].
  apply IH.
  destruct (step_write env user req db) as [Hwrite|[Hregs Hevents]].
  - by eapply team_size_invariant_write.
  - unfold team_size_invariant. rewrite Hregs.
    eapply Forall_impl; [done|]. intros r. by apply team_sized_frame_step.
Qed.

(** X7. When no two stored registrations share an identifier and no two
    share their event and their leader, this is so after every sequence of
    requests. *)
Theorem unique_registrations_kept reqs db :
  unique_registrations db → unique_registrations (run reqs db).
Proof.
  revert db. induction reqs as [|[[env user] req] reqs IH]; intros db Hinv; simpl; [done|].
  apply IH.
  destruct (step_write env user req db) as [Hwrite|[Hregs _]].
  - by eapply unique_registrations_write.
  - unfold unique_registrations. by rewrite Hregs.
Qed.

Lemma step_registrations_frame env user req db :
  registrations_frame_step db (fst (step env user req db)).
Proof.
  destruct (step_write env user req db) as [Hwrite|[Hregs _]].
  - by apply registrations_frame_step_write.
  - intros i r Hi. rewrite Hregs. eauto using same_registration_frame_refl.
Qed.

(** X8. Over every sequence of requests a stored registration stays at its
    place with its identifier, event, mode, leader, team name, answers and
    creation time; and when every stored team has a name that is not
    blank and not longer than 100 characters, this is so after every
    sequence of requests. *)
Theorem stored_registration_keeps_frame reqs db :
  registrations_frame_step db (run reqs db)
  ∧ (named_teams db → named_teams (run reqs db)).
Proof.
  split.
  - revert db. induction reqs as [|[[env user] req] reqs IH]; intros db; simpl.
    + intros i r Hi. eauto using same_registration_frame_refl.
    + intros i r Hi.
      destruct (step_registrations_frame env user req db i r Hi) as (r1 & Hi1 & Hf1).
      destruct (IH _ i r1 Hi1) as (r2 & Hi2 & Hf2).
      eauto using same_registration_frame_trans.
  - revert db. induction reqs as [|[[env user] req] reqs IH]; intros db Hinv; simpl; [done|].
    apply IH.
    destruct (step_write env user req db) as [Hwrite|[Hregs _]].
    + by eapply named_teams_write.
    + unfold named_teams. by rewrite Hregs.
Qed.
End Invariants.

Lemma team_size_invariant_kept_witness :
  team_size_invariant (run (casts := strict_cast) Teams.grow_and_shrink Scenario.db_team)
  ∧ Teams.member_ids (run (casts := strict_cast) Teams.grow_and_shrink Scenario.db_team)
    = [[Scenario.lea_id; Scenario.cy_id]].
Proof.
  split; [|vm_compute; reflexivity].
  apply (team_size_invariant_kept (casts := strict_cast)).
  constructor; [|constructor].
  exists (Scenario.hack_night 2 4). split; [vm_compute; reflexivity|].
  intros _. vm_compute. split; discriminate.
Defined.

Lemma unique_registrations_kept_witness :
  unique_registrations
    (run (casts := strict_cast)
       (Scenario.cancel_then_accept ++ Scenario.cancel_then_accept) (Scenario.db0 2 4))
  ∧ length (registrations
              (run (casts := strict_cast)
                 (Scenario.cancel_then_accept ++ Scenario.cancel_then_accept)
                 (Scenario.db0 2 4))) = 1%nat.
Proof.
  split; [|vm_compute; reflexivity].
  apply (unique_registrations_kept (casts := strict_cast)).
  split; simpl; constructor.
Defined.

Lemma stored_registration_keeps_frame_witness :
  named_teams (run (casts := strict_cast) Teams.grow_and_shrink Scenario.db_team).
Proof.
  apply (stored_registration_keeps_frame (casts := strict_cast)).
  constructor; [vm_compute; reflexivity|constructor].
Defined.

(** ** Removing a member: what is written *)

Lemma accepted_count_delete members n m :
  members !! n = Some m →
  accepted_count (delete n members)
  = accepted_count members - (if Member.counts_as_accepted m then 1 else 0).
Proof.
  intros Hn. unfold accepted_count.
  rewrite <- (take_drop_middle members n m Hn) at 2.
  rewrite delete_take_drop, !filter_app, !length_app.
  destruct (Member.counts_as_accepted m) eqn:Hm.
  - rewrite filter_cons_True by done. simpl. lia.
  - rewrite filter_cons_False by (by rewrite Hm). lia.
Qed.

(** X9. A successful removal is made by the leader.  The entry taken out
    is the first one of the named account; it is not the leader's entry;
    when it counted as accepted, the team had more accepted members than
    the minimum of its event and still has at least the minimum after the
    removal.  The other entries, the status and the answers stay as they
    were, and the pre-save hook found the shrunk team large enough. *)
Theorem remove_member_deletes_first_entry user registrationId memberId db db' msg reg' :
  delete_member user registrationId memberId db
  = (db', ok 200 msg (registration_payload reg')) →
  ∃ j reg n m event,
    registrations db !! j = Some reg
    ∧ names registrationId (Registration._id reg)
    ∧ Registration.leader_user_id reg = userId user
    ∧ find_member (Registration.members reg) memberId = Some (n, m)
    ∧ Member.role m ≠ role_leader
    ∧ event_of (events db) reg = Some event
    ∧ (Member.counts_as_accepted m = true →
       Event.min_team_size event ≤ accepted_count (Registration.members reg'))
    ∧ reg' = Registration.set_members (delete n (Registration.members reg)) reg
    ∧ db' = set_registrations (<[j := reg']> (registrations db)) db
    ∧ Registration.pre_save (events db) true reg' = None.
Proof.
  unfold delete_member. intros Hdel.
  apply handle_fails in Hdel; [| |by intros; apply is_failure_fail].
  2:{ body_fails. }
  destruct Hdel as [[_ Hfail]|Hdel]; [by destruct (is_failure_not_ok _ Hfail)|].
  flow_inv.
  rename select (findById Registration._id _ _ = _) into Hreg.
  rename select (findById Event._id _ _ = _) into Hev.
  rename select (find_member _ _ = _) into Hmember.
  rename select (bool_decide (_ ≠ _) = false) into Hleader.
  rename select (bool_decide (_ = role_leader) = false) into Hrole.
  rename select ((_ && _) = false) into Hguard.
  rename select (Registration_save _ _ _ = _) into Hsave.
  apply findById_event_of in Hev.
  apply findById_Next in Hreg as (oid & j & Hoid & Hfind).
  pose proof Hsave as [_ Hhook]%Registration_save_hook.
  apply Registration_save_Next in Hsave as ->.
  pose proof Hfind as (Hj & Hid & _)%list_find_Some.
  apply bool_decide_eq_false in Hleader. apply dec_stable in Hleader.
  apply bool_decide_eq_false in Hrole.
  eexists j, _, _, _, _.
  rewrite (replace_registration_insert _ _ oid j _ Hfind) by done.
  split_and!; try done.
  - unfold names. by rewrite Hoid, Hid.
  - intros Haccepted. simpl.
    pose proof Hmember as (Hn & _)%list_find_Some.
    rewrite (accepted_count_delete _ _ _ Hn), Haccepted.
    rewrite Haccepted in Hguard. simpl in Hguard. apply Z.leb_gt in Hguard. lia.
Qed.

Lemma remove_member_deletes_first_entry_witness :
  ∃ db' reg',
    delete_member Scenario.lea Scenario.registration_id Scenario.bob_id
      (fst (post_members Scenario.env_later Scenario.lea Scenario.registration_id
              More.add_cy_and_bob Scenario.db_team))
    = (db', ok 200 "Team member removed successfully" (registration_payload reg'))
    ∧ Member.user_id <$> Registration.members reg' = [Scenario.lea_id; Scenario.cy_id]
    ∧ Registration.pre_save (events Scenario.db_team) true reg' = None.
Proof.
  eexists _, _. split; [vm_compute; reflexivity|]. split; [reflexivity|].
  destruct (remove_member_deletes_first_entry Scenario.lea Scenario.registration_id
              Scenario.bob_id
              (fst (post_members Scenario.env_later Scenario.lea Scenario.registration_id
                      More.add_cy_and_bob Scenario.db_team))
              _ _ _ ltac:(vm_compute; reflexivity))
    as (j & reg & n & m & event & _ & _ & _ & _ & _ & _ & _ & _ & _ & Hhook).
  exact Hhook.
Defined.

(** ** Cancelling a registration: who may, and when *)

(** X11. A cancel succeeds only for the leader, for an account listed
    among the members, whatever its invite status, or for an
    administrator; it rewrites the status of that one registration and
    nothing else.  For such a caller the cancel of a stored registration
    with a valid team name always succeeds, whatever the status was. *)
Theorem cancel_needs_leader_member_or_admin user registrationId db :
  (∀ db' r,
     delete_registration user registrationId db = (db', r) →
     success r = true →
     ∃ j reg,
       registrations db !! j = Some reg
       ∧ names registrationId (Registration._id reg)
       ∧ (Registration.leader_user_id reg = userId user
          ∨ Exists (λ m, Member.user_id m = userId user) (Registration.members reg)
          ∨ user_role user = "admin")
       ∧ db' = set_registrations
                 (<[j := Registration.set_status cancelled reg]> (registrations db)) db
       ∧ r = ok 200 "Registration cancelled successfully" no_payload)
  ∧ (∀ reg,
       findById (R := Response) Registration._id (registrations db) registrationId
       = Next (Some reg) →
       Registration.leader_user_id reg = userId user
       ∨ Exists (λ m, Member.user_id m = userId user) (Registration.members reg)
       ∨ user_role user = "admin" →
       validate_loaded reg = [] →
       snd (delete_registration user registrationId db)
       = ok 200 "Registration cancelled successfully" no_payload).
Proof.
  split.
  - unfold delete_registration. intros db' r Hdel Hok.
    apply handle_fails in Hdel; [| |by intros; apply is_failure_fail].
    2:{ body_fails. }
    destruct Hdel as [[_ Hfail]|Hdel]; [by destruct (is_failure_not_ok _ Hfail)|].
    flow_inv.
    rename select (findById Registration._id _ _ = _) into Hreg.
    rename select ((_ && _) = false) into Hauth.
    rename select (Registration_save _ _ _ = _) into Hsave.
    apply findById_Next in Hreg as (oid & j & Hoid & Hfind).
    apply Registration_save_Next in Hsave as ->.
    pose proof Hfind as (Hj & Hid & _)%list_find_Some.
    eexists j, _.
    rewrite (replace_registration_insert _ _ oid j _ Hfind) by done.
    split_and!; try done.
    + unfold names. by rewrite Hoid, Hid.
    + apply andb_false_iff in Hauth as [Hauth|Hauth%negb_false_iff%bool_decide_eq_true];
        [|auto].
      apply andb_false_iff in Hauth
        as [Hauth%negb_false_iff%bool_decide_eq_true
           |Hauth%negb_false_iff%bool_decide_eq_true]; auto.
  - intros reg Hfound Hauth Hvalid. unfold delete_registration.
    assert (isValidObjectId registrationId = true) as ->.
    { apply findById_Next in Hfound as (oid & _ & Hoid & _).
      unfold castObjectId in Hoid. by destruct (isValidObjectId registrationId). }
    simpl. rewrite Hfound. simpl.
    assert (negb (bool_decide (Registration.leader_user_id reg = userId user))
            && negb (bool_decide (Exists (λ m, Member.user_id m = userId user)
                                    (Registration.members reg)))
            && negb (bool_decide (user_role user = "admin")) = false) as ->.
    { destruct Hauth as [H|[H|H]]; rewrite (bool_decide_eq_true_2 _ H); simpl;
        by rewrite ?andb_false_r. }
    simpl. unfold Registration_save, validate_loaded in *. simpl.
    rewrite Hvalid. unfold Registration.pre_save.
    by rewrite andb_false_r.
Qed.

Lemma cancel_needs_leader_member_or_admin_witness :
  snd (delete_registration Scenario.bob Scenario.registration_id Scenario.db_cancelled)
  = ok 200 "Registration cancelled successfully" no_payload.
Proof.
  destruct (Scenario.the_registration Scenario.db_cancelled) as [reg|] eqn:Hreg;
    [|vm_compute in Hreg; discriminate Hreg].
  apply (proj2 (cancel_needs_leader_member_or_admin Scenario.bob Scenario.registration_id
                  Scenario.db_cancelled) reg).
  - vm_compute in Hreg. injection Hreg as <-. vm_compute. reflexivity.
  - vm_compute in Hreg. injection Hreg as <-. right; left.
    apply (bool_decide_unpack _). vm_compute. exact I.
  - vm_compute in Hreg. injection Hreg as <-. vm_compute. reflexivity.
Defined.

(** ** A successful create: what is stored *)

Lemma castObjectId_idemp id oid : castObjectId id = Some oid → castObjectId oid = Some oid.
Proof.
  unfold castObjectId. destruct (isValidObjectId id) eqn:Hvalid; [|done].
  intros [= <-].
  assert (∀ l, forallb is_hex_digit (to_lower <$> l) = forallb is_hex_digit l
               ∧ to_lower <$> (to_lower <$> l) = to_lower <$> l) as Hl.
  { induction l as [|c l [IH1 IH2]]; [done|]. rewrite !fmap_cons. simpl. rewrite IH1, IH2.
    assert (is_hex_digit (to_lower c) = is_hex_digit c ∧ to_lower (to_lower c) = to_lower c)
      as [-> ->]; [|done].
    destruct c as [[] [] [] [] [] [] [] []]; vm_compute; done. }
  assert (∀ l, String.length (string_of_list_ascii l) = length l) as Hlen.
  { induction l as [|c l IH]; simpl; congruence. }
  revert Hvalid. unfold isValidObjectId.
  replace (String.length id) with (length (list_ascii_of_string id))
    by (by rewrite <- Hlen, string_of_list_ascii_of_string).
  rewrite !Hlen, !list_ascii_of_string_of_list_ascii, length_fmap.
  destruct (Hl (list_ascii_of_string id)) as [-> ->].
  by intros ->.
Qed.

Lemma push_team_members_Next users userId ids members res :
  push_team_members users userId ids members = Next res →
  ∃ rest, res = members ++ rest ∧ Forall (invited_data users) rest.
Proof.
  revert members. induction ids as [|id ids IH]; intros members; simpl.
  - intros [= <-]. exists []. by rewrite app_nil_r.
  - destruct (findById User._id users id) as [[u|]|r|e] eqn:Hu; simpl; try done.
    destruct (decide (id = userId)); [by apply IH|].
    intros (rest & -> & Hrest)%IH. rewrite <- app_assoc. eexists. split; [done|].
    constructor; [|done].
    apply findById_Next in Hu as (oid & j & Hoid & Hfind).
    apply list_find_Some in Hfind as (Hj & Hid & _).
    split_and!; [done..|]. exists id, u.
    split_and!; [done|by eapply list_elem_of_lookup_2|].
    subst oid. rewrite Hoid. symmetry. by eapply castObjectId_idemp.
Qed.


Lemma push_team_members_info_Next users userId infos members :
  ∃ rest,
    push_team_members_info users userId infos members = members ++ rest
    ∧ Forall (λ d, invited_data users d
                   ∨ Member.d_invite_status d = "pending_registration") rest.
Proof.
  revert members. induction infos as [|info infos IH]; intros members; simpl.
  - exists []. by rewrite app_nil_r.
  - destruct (findOne_user_by_email users (MemberInfo.email info)) as [u|] eqn:Hu.
    + destruct (decide (User._id u ≠ userId)); [|by apply IH].
      destruct (IH (members ++ [Member.mk_data (Some (User._id u)) None None
                                  "member" "invited"])) as (rest & -> & Hrest).
      rewrite <- app_assoc. eexists. split; [done|].
      constructor; [|done]. left.
      unfold findOne_user_by_email in Hu.
      apply fmap_Some in Hu as ([j u'] & Hfind & ->).
      apply list_find_Some in Hfind as (Hj & _). simpl in *.
      split_and!; [done..|]. exists (User._id u'), u'.
      split_and!; [done|by eapply list_elem_of_lookup_2|done].
    + destruct (IH (members ++ [Member.mk_data None (Some (MemberInfo.email info))
                                  (Some (MemberInfo.name info))
                                  "member" "pending_registration"]))
        as (rest & -> & Hrest).
      rewrite <- app_assoc. eexists. split; [done|].
      constructor; [|done]. by right.
Qed.

Lemma assemble_members_Next users userId body members :
  assemble_members users userId body = Next members →
  ∃ rest,
    members = Member.mk_data (Some userId) None None "leader" "auto_added" :: rest
    ∧ Forall (λ d, invited_data users d
                   ∨ Member.d_invite_status d = "pending_registration") rest.
Proof.
  unfold assemble_members. intros Hm.
  set (leader := Member.mk_data (Some userId) None None "leader" "auto_added") in *.
  assert (∃ rest0, (match CreateBody.team_members body with
                    | Some team_members =>
                        push_team_members users userId team_members [leader]
                    | None => Next [leader]
                    end) = Next (leader :: rest0)
                   ∧ Forall (invited_data users) rest0) as (rest0 & Hids & Hrest0).
  { destruct (CreateBody.team_members body) as [ids|].
    - destruct (push_team_members users userId ids [leader]) as [ms| |] eqn:Hids;
        simplify_eq/=.
      apply push_team_members_Next in Hids as (rest & -> & Hrest). eauto.
    - exists []. by split. }
  rewrite Hids in Hm. simpl in Hm. injection Hm as <-.
  destruct (CreateBody.team_members_info body) as [infos|].
  - destruct (push_team_members_info_Next users userId infos (leader :: rest0))
      as (rest & -> & Hrest).
    exists (rest0 ++ rest). split; [done|].
    apply Forall_app. split; [|done]. eapply Forall_impl; [done|]. auto.
  - exists rest0. split; [done|]. eapply Forall_impl; [done|]. auto.
Qed.

Lemma Member_cast_invited users now d m :
  invited_data users d ∨ Member.d_invite_status d = "pending_registration" →
  Member.cast now d = Some m →
  invited_member users now m.
Proof.
  unfold Member.cast. intros Hd Hcast.
  apply bind_Some in Hcast as (id & Hid & Hcast).
  apply bind_Some in Hcast as (oid & Hoid & Hcast).
  apply bind_Some in Hcast as (r & Hr & Hcast).
  apply bind_Some in Hcast as (i & Hi & Hcast).
  injection Hcast as <-.
  destruct Hd as [(Hrole & Hstatus & id' & u & Hid' & Hu & Hsame)|Hstatus].
  - rewrite Hrole in Hr. rewrite Hstatus in Hi. rewrite Hid' in Hid.
    injection Hid as ->. injection Hr as <-. injection Hi as <-.
    split_and!; [done..|]. exists u. split; [done|].
    unfold names. simpl. by rewrite <- Hsame.
  - by rewrite Hstatus in Hi.
Qed.

Section CreateStored.
Context {casts : SchemaCast}.

Lemma post_registrations_stores env user body db db' msg reg :
  post_registrations env user body db
  = (db', ok 201 msg (registration_payload reg)) →
  ∃ event,
    findById (R := Response) Event._id (events db) (CreateBody.event_id body)
    = Next (Some event)
    ∧ db' = set_registrations (registrations db ++ [reg]) db
    ∧ Registration._id reg = new_id env
    ∧ Registration.event_id reg = Event._id event
    ∧ names (userId user) (Registration.leader_user_id reg)
    ∧ Registration.mode reg = Event.registration_mode event
    ∧ Registration.status reg = pending
    ∧ Registration.created_at reg = now env
    ∧ match Registration.mode reg with
      | individual =>
          Registration.members reg = [] ∧ Registration.team_name reg = None
      | team =>
          Registration.team_name reg = CreateBody.team_name body
          ∧ ∃ rest,
              Registration.members reg
              = Member.mk (Registration.leader_user_id reg) role_leader auto_added
                  (now env) None :: rest
              ∧ Forall (invited_member (users db) (now env)) rest
      end.
Proof.
  intros Hpost.
  destruct (post_registrations_inv env user body db)
    as [(r & Hr & Hfail)|(event & members & db1 & reg1 & Hpre & Hmembers & Hc & Hres)].
  { rewrite Hr in Hpost. injection Hpost as _ ->.
    by destruct (is_failure_not_ok _ Hfail). }
  rewrite Hres in Hpost. injection Hpost as -> _ ->.
  apply check_preconditions_event in Hpre. exists event.
  pose proof Hpre as (oid & j & Hoid & (_ & Hid & _)%list_find_Some)%findById_Next.
  apply Registration_create_inv in Hc as (_ & Hcast & _ & _ & ->).
  apply Registration_cast_fields in Hcast
    as (Hnew & Hev & Hld & Hmode & Hname & Hstatus & Hms & _ & Hcreated).
  simpl in *. rewrite Hoid in Hev. injection Hev as Hev.
  split_and!; try done; try congruence.
  - change (Some pending = Some (Registration.status reg)) in Hstatus. congruence.
  - rewrite Hmode.
    destruct members as [ms|]; destruct (Event.registration_mode event) eqn:Hm;
      try done; try by destruct Hmembers.
    2:{ simpl in Hms. injection Hms as <-. by rewrite Hname. }
    destruct Hmembers as [_ Hbuild]. rewrite Hname.
    rewrite decide_True by done. split; [done|].
    unfold build_team in Hbuild. flow_inv.
    rename select (assemble_members _ _ _ = _) into Hassemble.
    rename select (check_team_size _ _ = _) into Hsize. clear Hsize.
    apply assemble_members_Next in Hassemble as (rest & -> & Hrest).
    apply mapM_Some in Hms. apply Forall2_cons_inv_l in Hms as (m & ms' & Hm0 & Hms' & Hreg).
    rewrite Hreg. exists ms'. split.
    + unfold Member.cast in Hm0. simpl in Hm0. rewrite Hld in Hm0. by injection Hm0 as <-.
    + clear Hreg. revert Hrest.
      induction Hms' as [|d m' ds ms'' Hd _ IH]; [done|].
      intros [Hd' Hrest]%Forall_cons.
      constructor; [by eapply Member_cast_invited|by apply IH].
Qed.

(** X10. Through the mounted route a successful create is made for the
    account that the token names, with a body that passes
    [validateRegistration], and appends one registration: under the fresh
    identifier, for the event of the request, led by the caller, in the
    registration mode of the event, pending and stamped with the clock.
    For an individual event it has no members and no team name, whatever
    the body names.  For a team event it carries the team name of the body
    without the white space around it, and its members are the leader,
    auto-added, followed by invited members that are accounts. *)
Theorem create_stores_pending_registration verify authHeader env body db db' msg reg :
  route_post_registrations verify authHeader env body db
  = (db', ok 201 msg (registration_payload reg)) →
  ∃ user event,
    authenticateToken verify authHeader = Authenticated user
    ∧ snd (validateRegistration body) = []
    ∧ findById (R := Response) Event._id (events db) (CreateBody.event_id body)
      = Next (Some event)
    ∧ db' = set_registrations (registrations db ++ [reg]) db
    ∧ Registration._id reg = new_id env
    ∧ Registration.event_id reg = Event._id event
    ∧ names (userId user) (Registration.leader_user_id reg)
    ∧ Registration.mode reg = Event.registration_mode event
    ∧ Registration.status reg = pending
    ∧ Registration.created_at reg = now env
    ∧ match Registration.mode reg with
      | individual =>
          Registration.members reg = [] ∧ Registration.team_name reg = None
      | team =>
          Registration.team_name reg = trim <$> CreateBody.team_name body
          ∧ ∃ rest,
              Registration.members reg
              = Member.mk (Registration.leader_user_id reg) role_leader auto_added
                  (now env) None :: rest
              ∧ Forall (invited_member (users db) (now env)) rest
      end.
Proof.
  unfold route_post_registrations.
  destruct (authenticateToken verify authHeader) as [user|code m] eqn:Hauth; [|done].
  destruct (validateRegistration body) as [body' errors] eqn:Hvalidate.
  destruct (handleValidationErrors errors) as [r|] eqn:Herrors.
  { intros [= _ ->]. apply handleValidationErrors_Some in Herrors as [[=] _]. }
  apply handleValidationErrors_None in Herrors as ->.
  intros (event & Hfound & Hrest)%post_registrations_stores.
  unfold validateRegistration in Hvalidate. injection Hvalidate as <- _.
  exists user, event. simpl in *.
  destruct Hrest as (? & ? & ? & ? & ? & ? & ? & Hmode). by split_and!.
Qed.
End CreateStored.

Lemma create_stores_pending_registration_witness :
  ∃ db' reg,
    route_post_registrations (casts := strict_cast) Tokens.verify
      (Some "Bearer lea-token") Scenario.env More.body_padded_name (Scenario.db0 2 4)
    = (db', ok 201 "Registration successful" (registration_payload reg))
    ∧ Registration.team_name reg = Some "Night owls"
    ∧ Registration.status reg = pending.
Proof.
  eexists _, _. split; [vm_compute; reflexivity|]. split; [reflexivity|].
  destruct (create_stores_pending_registration (casts := strict_cast) Tokens.verify
              (Some "Bearer lea-token") Scenario.env More.body_padded_name
              (Scenario.db0 2 4) _ _ _ ltac:(vm_compute; reflexivity))
    as (user & event & _ & _ & _ & _ & _ & _ & _ & _ & Hstatus & _).
  exact Hstatus.
Defined.

(** ** The list of registrations *)

Lemma newer_or_same_total : Total newer_or_same.
Proof. intros a b. unfold newer_or_same. lia. Qed.

Lemma newer_or_same_trans : Transitive newer_or_same.
Proof. intros a b c. unfold newer_or_same. lia. Qed.

Lemma sort_newest_first_sorted rs : StronglySorted newer_or_same (sort_newest_first rs).
Proof.
  pose proof newer_or_same_total. pose proof newer_or_same_trans.
  unfold sort_newest_first. by apply StronglySorted_merge_sort.
Qed.

Lemma page_sorted skip limit rs :
  StronglySorted newer_or_same rs → StronglySorted newer_or_same (page skip limit rs).
Proof.
  intros Hsorted. unfold page.
  assert (StronglySorted newer_or_same (drop skip rs)) as Hdrop.
  { rewrite <- (take_drop skip rs) in Hsorted. by apply StronglySorted_app_1_r in Hsorted. }
  destruct (decide (limit = 0%nat)); [done|].
  rewrite <- (take_drop limit (drop skip rs)) in Hdrop.
  by apply StronglySorted_app_1_l in Hdrop.
Qed.

Lemma page_length skip limit rs :
  length (page skip limit rs)
  = if decide (limit = 0%nat) then (length rs - skip)%nat
    else (limit `min` (length rs - skip))%nat.
Proof.
  unfold page. destruct (decide (limit = 0%nat)).
  - by rewrite length_drop.
  - by rewrite length_take, length_drop.
Qed.

Lemma build_filter_Next user q db f0 :
  build_filter user q db = Next f0 →
  f_status f0 = (if truthy_string (ListQuery.status q) then ListQuery.status q else None)
  ∧ ((truthy_string (ListQuery.event_id q) = false
      ∧ f_event_id f0 = None ∧ f_or f0 = Some (userId user))
     ∨ (∃ id event,
          ListQuery.event_id q = Some id ∧ id ≠ ""
          ∧ findById (R := Response) Event._id (events db) id = Next (Some event)
          ∧ f_event_id f0 = Some id
          ∧ f_or f0 = if bool_decide (Event.organizer_id event ≠ userId user)
                         && bool_decide (user_role user ≠ "admin")
                      then Some (userId user) else None)).
Proof.
  unfold build_filter. intros Hf0.
  destruct (truthy_string (ListQuery.event_id q)) eqn:Htruthy.
  - destruct (ListQuery.event_id q) as [id|] eqn:Hid; [|done]. simpl in *.
    apply negb_true_iff, bool_decide_eq_false in Htruthy.
    flow_inv. split; [done|]. right. exists id. eauto 10.
  - injection Hf0 as <-. split; [done|]. by left.
Qed.

Lemma cast_filter_Next {R} f0 f :
  cast_filter (R := R) f0 = Next f →
  f_status f = f_status f0
  ∧ f_event_id f = f_event_id f0 ≫= castObjectId
  ∧ f_or f = f_or f0 ≫= castObjectId
  ∧ (is_Some (f_event_id f0) → is_Some (f_event_id f))
  ∧ (is_Some (f_or f0) → is_Some (f_or f)).
Proof.
  unfold cast_filter. intros Hf.
  destruct (f_event_id f0) as [e0|], (f_or f0) as [u0|]; simpl in *;
    repeat (destruct (castObjectId _); simpl in * );
    simplify_eq; simpl; split_and!; try done; by intros [? [=]].
Qed.

(** X12. A successful list request writes nothing.  The total is the
    number of stored registrations that match the filter; the page is the
    matching registrations, newest first, without the skipped ones and cut
    at the limit (20 when none is given, none at all for 0).  The filter
    holds the event of the query and the status of the query; it is
    restricted to the caller as leader or member unless an event is named
    and the caller is its organizer or an administrator. *)
Theorem list_is_sorted_page user q db db' msg regs total :
  get_registrations user q db = (db', ok 200 msg (registrations_payload regs total)) →
  ∃ f,
    db' = db
    ∧ total = length (filter (matches f) (registrations db))
    ∧ regs = page (default 0%nat (ListQuery.skip q)) (default 20%nat (ListQuery.limit q))
               (sort_newest_first (filter (matches f) (registrations db)))
    ∧ StronglySorted newer_or_same regs
    ∧ length regs
      = (if decide (default 20%nat (ListQuery.limit q) = 0%nat)
         then (total - default 0%nat (ListQuery.skip q))%nat
         else (default 20%nat (ListQuery.limit q)
               `min` (total - default 0%nat (ListQuery.skip q)))%nat)
    ∧ (∀ s, f_status f = Some s ↔ ListQuery.status q = Some s ∧ s ≠ "")
    ∧ (∀ e, f_event_id f = Some e ↔
            ∃ id, ListQuery.event_id q = Some id ∧ id ≠ "" ∧ names id e)
    ∧ (∀ u, f_or f = Some u → names (userId user) u)
    ∧ (f_or f = None →
       ∃ id event,
         ListQuery.event_id q = Some id
         ∧ findById (R := Response) Event._id (events db) id = Next (Some event)
         ∧ (Event.organizer_id event = userId user ∨ user_role user = "admin")).
Proof.
  unfold get_registrations. intros Hget.
  apply handle_fails in Hget; [| |by intros; apply is_failure_fail].
  2:{ apply returns_failures_bind; [unfold build_filter; flow_fails|intros f0].
      apply returns_failures_bind; [|done].
      unfold cast_filter. by repeat case_match. }
  destruct Hget as [[_ Hfail]|Hget]; [by destruct (is_failure_not_ok _ Hfail)|].
  apply bind_Next_inv in Hget as (f0 & Hf0 & Hget).
  apply bind_Next_inv in Hget as (f & Hf & Hget).
  injection Hget as <- <- <- <-.
  apply build_filter_Next in Hf0 as [Hs0 Hf0].
  apply cast_filter_Next in Hf as (Hs & He & Hu & Hesome & Husome).
  exists f. split_and!; try done.
  - apply page_sorted, sort_newest_first_sorted.
  - rewrite page_length. unfold sort_newest_first.
    by rewrite (Permutation_length (merge_sort_Permutation _ _)).
  - intros s. rewrite Hs, Hs0.
    destruct (ListQuery.status q) as [s'|]; simpl; [|split; [done|by intros [? _]]].
    destruct (decide (s' = "")) as [->|Hne].
    + split; [done|]. by intros [[= <-] ?].
    + rewrite bool_decide_eq_false_2 by done. simpl.
      split; [by intros [= <-]|by intros [? _]].
  - intros e. rewrite He.
    destruct Hf0 as [(Htruthy & -> & _)|(id & event & Hid & Hne & _ & -> & _)]; simpl.
    + split; [done|]. intros (id & Hid & Hne & _). rewrite Hid in Htruthy. simpl in Htruthy.
      by rewrite bool_decide_eq_false_2 in Htruthy.
    + split; [by eauto|]. intros (id' & Hid' & _ & Hname). by simplify_eq.
  - intros u. rewrite Hu.
    destruct Hf0 as [(_ & _ & ->)|(id & event & _ & _ & _ & _ & ->)]; simpl; [done|].
    by destruct (_ && _).
  - intros Hnone.
    destruct Hf0 as [(_ & _ & Hor)|(id & event & Hid & _ & Hev & _ & Hor)].
    + destruct Husome as [u Hsome]; [by rewrite Hor|]. congruence.
    + exists id, event. split_and!; [done..|].
      destruct (_ && _) eqn:Hauth in Hor.
      * destruct Husome as [u Hsome]; [by rewrite Hor|]. congruence.
      * apply andb_false_iff in Hauth
          as [Hauth%bool_decide_eq_false|Hauth%bool_decide_eq_false];
          apply dec_stable in Hauth; auto.
Qed.

Lemma list_is_sorted_page_witness :
  ∃ regs,
    get_registrations Scenario.org
      (ListQuery.mk (Some Scenario.event_id) None None None) Scenario.db_team
    = (Scenario.db_team, ok 200 "" (registrations_payload regs 1))
    ∧ length regs = 1%nat.
Proof.
  eexists. split; [vm_compute; reflexivity|].
  destruct (list_is_sorted_page Scenario.org
              (ListQuery.mk (Some Scenario.event_id) None None None) Scenario.db_team
              _ _ _ _ ltac:(vm_compute; reflexivity))
    as (f & _ & _ & _ & _ & Hlength & _).
  exact Hlength.
Defined.

(** ** From the pending invitations to an answer *)

Lemma pre_save_same_length events reg r' :
  team_sized events reg →
  same_registration_frame reg r' →
  length (Registration.members r') = length (Registration.members reg) →
  Registration.pre_save events true r' = None.
Proof.
  intros (event & Hev & Hbounds) (_ & Hevent & Hmode & _) Hlength.
  unfold Registration.pre_save, hook_event in *.
  rewrite Hevent, Hev, Hmode, Hlength.
  destruct (bool_decide (Registration.mode reg = team)) eqn:Hteam; [|done].
  apply bool_decide_eq_true in Hteam. destruct (Hbounds Hteam) as [Hmin Hmax]. simpl.
  rewrite (proj2 (Z.ltb_ge _ _) Hmin), (proj2 (Z.ltb_ge _ _) Hmax). done.
Qed.

Lemma get_pending_invitations_listed user db db' msg regs total u :
  castObjectId (userId user) = Some u →
  get_pending_invitations user db = (db', ok 200 msg (registrations_payload regs total)) →
  ∀ r, r ∈ regs ↔
       r ∈ registrations db
       ∧ Exists (λ m, Member.user_id m = u ∧ Member.invite_status m = invited)
           (Registration.members r).
Proof.
  unfold get_pending_invitations. intros -> [= <- <- <- <-] r.
  unfold sort_newest_first. rewrite merge_sort_Permutation, list_elem_of_filter. tauto.
Qed.

(** X13. An invitation that the list of pending invitations shows can be
    answered: for a caller whose identifier is in its stored form, a
    listed registration in which no account has two entries, whose team
    size is within the bounds of its event and whose team name is valid,
    an accept or a decline on the invitation route succeeds; afterwards the
    rewritten registration is no longer among the pending invitations of
    the caller. *)
Theorem pending_invitation_can_be_answered user registrationId action db reg
    db0 msg regs total :
  castObjectId (userId user) = Some (userId user) →
  get_pending_invitations user db = (db0, ok 200 msg (registrations_payload regs total)) →
  reg ∈ regs →
  findById (R := Response) Registration._id (registrations db) registrationId
  = Next (Some reg) →
  NoDup (Member.user_id <$> Registration.members reg) →
  team_sized (events db) reg →
  validate_loaded reg = [] →
  action = "accept" ∨ action = "decline" →
  ∃ db' reg',
    put_invitation user registrationId (Some action) db
    = (db', ok 200 ("Invitation " +:+ action +:+ "ed successfully")
              (registration_payload reg'))
    ∧ reg' ∈ registrations db'
    ∧ ∀ db'' msg' regs' total',
        get_pending_invitations user db'
        = (db'', ok 200 msg' (registrations_payload regs' total')) →
        reg' ∉ regs'.
Proof.
  intros Hcanon Hpending Hin Hfound Hnodup Hsized Hvalid Haction.
  apply (get_pending_invitations_listed _ _ _ _ _ _ _ Hcanon Hpending) in Hin
    as [_ Hinvited].
  apply Exists_exists in Hinvited as (m0 & Hm0 & Hu0 & Hs0).
  apply list_elem_of_lookup in Hm0 as [n0 Hn0].
  destruct (find_member (Registration.members reg) (userId user)) as [[n m]|] eqn:Hfind.
  2:{ unfold find_member in Hfind. apply list_find_None in Hfind.
      rewrite Forall_lookup in Hfind. by destruct (Hfind n0 m0 Hn0). }
  pose proof Hfind as (Hn & Hu & _)%list_find_Some.
  assert (n0 = n) as ->.
  { eapply NoDup_lookup; [done|..]; rewrite list_lookup_fmap.
    - by rewrite Hn0; simpl; rewrite Hu0.
    - by rewrite Hn; simpl; rewrite Hu. }
  assert (m0 = m) as -> by congruence.
  set (status := if decide (Some action = Some "accept") then accepted else declined).
  set (reg' := Registration.set_members
                 (<[n := Member.set_invite_status status m]> (Registration.members reg))
                 reg).
  assert (Registration_save (R := Response) db true reg'
          = Next (set_registrations (replace_registration reg' (registrations db)) db))
    as Hsave.
  { unfold Registration_save.
    change (validate_loaded reg') with (validate_loaded reg). rewrite Hvalid.
    rewrite (pre_save_same_length (events db) reg reg'); [done..|].
    simpl. by rewrite length_insert. }
  exists (set_registrations (replace_registration reg' (registrations db)) db), reg'.
  pose proof Hfound as (oid & j & Hoid & Hj)%findById_Next.
  split_and!.
  - unfold put_invitation.
    assert (negb (bool_decide (Some action = Some "accept")
                  || bool_decide (Some action = Some "decline")) = false) as ->.
    { by destruct Haction as [-> | ->]. }
    simpl. rewrite Hfound. simpl. rewrite Hfind. simpl.
    rewrite Hs0. simpl. fold status. fold reg'. by rewrite Hsave.
  - simpl. rewrite (replace_registration_insert reg' _ oid j reg Hj)
      by by apply list_find_Some in Hj as (_ & ? & _).
    apply list_elem_of_lookup. exists j.
    apply list_find_Some in Hj as (Hj & _).
    rewrite list_lookup_insert_eq; [done|by eapply lookup_lt_Some].
  - intros db'' msg' regs' total' Hpending' Hin'.
    apply (get_pending_invitations_listed _ _ _ _ _ _ _ Hcanon Hpending') in Hin'
      as [_ Hinvited].
    apply Exists_exists in Hinvited as (m' & Hm' & Hu' & Hs').
    apply list_elem_of_lookup in Hm' as [k Hk]. simpl in Hk.
    destruct (decide (k = n)) as [->|Hne].
    + rewrite list_lookup_insert_eq in Hk by by eapply lookup_lt_Some.
      injection Hk as <-. simpl in Hs'. unfold status in Hs'.
      by destruct (decide _).
    + rewrite list_lookup_insert_ne in Hk by done.
      apply Hne. eapply NoDup_lookup; [done|..]; rewrite list_lookup_fmap.
      * by rewrite Hk; simpl; rewrite Hu'.
      * by rewrite Hn; simpl; rewrite Hu.
Qed.

Lemma pending_invitation_can_be_answered_witness :
  ∃ db' reg',
    put_invitation Scenario.bob Scenario.registration_id (Some "decline") Scenario.db_team
    = (db', ok 200 "Invitation declineed successfully" (registration_payload reg'))
    ∧ reg' ∈ registrations db'.
Proof.
  destruct (Scenario.the_registration Scenario.db_team) as [reg|] eqn:Hreg;
    [|vm_compute in Hreg; discriminate Hreg].
  vm_compute in Hreg. injection Hreg as Hreg.
  destruct (pending_invitation_can_be_answered Scenario.bob Scenario.registration_id
              "decline" Scenario.db_team reg Scenario.db_team "" [reg] 1%nat)
    as (db' & reg' & Hput & Hin & _).
  - vm_compute; reflexivity.
  - rewrite <- Hreg. vm_compute; reflexivity.
  - by left.
  - rewrite <- Hreg. vm_compute; reflexivity.
  - rewrite <- Hreg. vm_compute. apply (bool_decide_unpack _). vm_compute. exact I.
  - exists (Scenario.hack_night 2 4). rewrite <- Hreg.
    split; [vm_compute; reflexivity|]. intros _. vm_compute. split; discriminate.
  - rewrite <- Hreg. vm_compute; reflexivity.
  - by right.
  - eauto.
Defined.

(** ** A successful create of an event *)

Lemma Event_create_fails {B} env uuid db organizer body
    (k : Db * Event.t → Flow Response B) :
  (∀ a, returns_failures (k a)) →
  returns_failures (Event_create env uuid db organizer body ≫= k).
Proof.
  intros Hk. unfold Event_create.
  destruct (castObjectId organizer); [|done].
  destruct (_ ++ _)%list; [|done].
  destruct (bool_decide _); [done|apply Hk].
Qed.

Lemma Event_create_inv {R} env uuid db organizer body db' e :
  Event_create (R := R) env uuid db organizer body = Next (db', e) →
  db' = set_events (events db ++ [e]) db
  ∧ Event._id e = new_id env
  ∧ names organizer (Event.organizer_id e)
  ∧ Forall (λ e', Event._id e' ≠ Event._id e) (events db)
  ∧ Event.validate (now env) e = []
  ∧ Event.created_at e = now env
  ∧ Event.registration_open e = true
  ∧ EventType_of_string (EventBody.event_type body) = Some (Event.event_type e)
  ∧ (∀ s, EventBody.event_status body = Some s → s ≠ "" →
          EventStatus_of_string s = Some (Event.event_status e))
  ∧ (truthy_string (EventBody.event_status body) = false → Event.event_status e = ev_draft)
  ∧ (∀ s, EventBody.registration_mode body = Some s → s ≠ "" →
          Mode_of_string s = Some (Event.registration_mode e))
  ∧ (truthy_string (EventBody.registration_mode body) = false →
     Event.registration_mode e = individual)
  ∧ Event.society_id e
    = (if truthy_string (EventBody.society_id body)
       then EventBody.society_id body ≫= castObjectId else None).
Proof.
  unfold Event_create. intros Hc.
  destruct (castObjectId organizer) as [oid|] eqn:Hoid; [|done].
  destruct (_ ++ _)%list eqn:Hmsgs in Hc; [|done].
  destruct (bool_decide _) eqn:Hexists in Hc; [done|].
  apply bool_decide_eq_false in Hexists.
  injection Hc as <- <-.
  apply app_eq_nil in Hmsgs as [Htype Hmsgs].
  apply app_eq_nil in Hmsgs as [Hmode Hmsgs].
  apply app_eq_nil in Hmsgs as [Hstatus Hvalid].
  split_and!; try done.
  - apply Forall_forall. intros e' Hin Hid. apply Hexists, Exists_exists. eauto.
  - simpl. destruct (decide (EventBody.event_type body = "")); [done|].
    unfold enum_error in Htype. by destruct (EventType_of_string _).
  - intros s Hs Hne. simpl. rewrite Hs in Hstatus |- *. simpl in *.
    rewrite (bool_decide_eq_false_2 _ Hne) in Hstatus |- *. simpl in *.
    unfold enum_error in Hstatus. by destruct (EventStatus_of_string s).
  - intros Hfalsy. simpl. by rewrite Hfalsy.
  - intros s Hs Hne. simpl. rewrite Hs in Hmode |- *. simpl in *.
    rewrite (bool_decide_eq_false_2 _ Hne) in Hmode |- *. simpl in *.
    unfold enum_error in Hmode. by destruct (Mode_of_string s).
  - intros Hfalsy. simpl. by rewrite Hfalsy.
Qed.

(** X14. An event is created only by a society head or an administrator.
    The stored event is appended under the fresh identifier, which no
    stored event has; its organizer is the caller; it passes the
    validators of the schema, so it starts after the request; it is open
    for registration, a draft unless the body names a status, and for
    individuals unless the body names a mode.  When the body names a
    society, the society is stored and the caller is its head or an
    administrator. *)
Theorem create_event_stores_valid_event env uuid user body db db' msg e :
  post_events env uuid user body db = (db', ok 201 msg (event_payload e)) →
  (user_role user = "society_head" ∨ user_role user = "admin")
  ∧ db' = set_events (events db ++ [e]) db
  ∧ Event._id e = new_id env
  ∧ names (userId user) (Event.organizer_id e)
  ∧ Forall (λ e', Event._id e' ≠ Event._id e) (events db)
  ∧ now env < Event.start_datetime e
  ∧ well_formed_event e
  ∧ Event.created_at e = now env
  ∧ Event.registration_open e = true
  ∧ (truthy_string (EventBody.event_status body) = false → Event.event_status e = ev_draft)
  ∧ (truthy_string (EventBody.registration_mode body) = false →
     Event.registration_mode e = individual)
  ∧ (∀ id, EventBody.society_id body = Some id → id ≠ "" →
       ∃ society,
         society ∈ societies db
         ∧ names id (Society._id society)
         ∧ Event.society_id e = Some (Society._id society)
         ∧ (user_role user = "admin" ∨ Society.head_id society = userId user)).
Proof.
  unfold post_events. intros Hpost.
  destruct (negb _) eqn:Hrole in Hpost; [by injection Hpost|].
  apply negb_false_iff, orb_true_iff in Hrole.
  apply handle_fails in Hpost; [| |apply catch_validation_fails].
  2:{ apply returns_failures_bind; [|intros _; by apply Event_create_fails; intros [? ?]].
      destruct (truthy_string _); [|done].
      apply returns_failures_bind; [apply returns_failures_findById|].
      intros [society|]; [|by apply is_failure_fail].
      by apply returns_failures_return_if. }
  destruct Hpost as [[_ Hfail]|Hpost]; [by destruct (is_failure_not_ok _ Hfail)|].
  apply bind_Next_inv in Hpost as ([] & Hsociety & Hpost).
  apply bind_Next_inv in Hpost as ([db1 e1] & Hcreate & Hpost).
  injection Hpost as <- _ <-.
  apply Event_create_inv in Hcreate
    as (-> & Hid & Horg & Hfresh & Hvalid & Hcreated & Hopen & _ & _ & Hdraft & _
        & Hindividual & Hsoc).
  apply Event_validate_well_formed in Hvalid as [Hfuture Hwf].
  split_and!; try done.
  - destruct Hrole as [?%bool_decide_eq_true|?%bool_decide_eq_true]; auto.
  - intros id Hbody Hne. rewrite Hbody in Hsociety, Hsoc. simpl in Hsociety, Hsoc.
    rewrite (bool_decide_eq_false_2 _ Hne) in Hsociety, Hsoc. simpl in Hsociety, Hsoc.
    flow_inv.
    rename select (findById Society._id _ _ = _) into Hfound.
    rename select ((_ && _) = false) into Hauth.
    apply findById_Next in Hfound as (oid & j & Hoid & (Hj & Hsid & _)%list_find_Some).
    eexists. split_and!; [by eapply list_elem_of_lookup_2| | |].
    + unfold names. by rewrite Hoid, Hsid.
    + by rewrite Hsoc, Hoid, Hsid.
    + apply andb_false_iff in Hauth
        as [Hauth%bool_decide_eq_false|Hauth%bool_decide_eq_false];
        apply dec_stable in Hauth; auto.
Qed.

Lemma create_event_stores_valid_event_witness :
  ∃ db' e,
    post_events Quiz.env (λ _, "") Scenario.org Quiz.body (Scenario.db0 2 4)
    = (db', ok 201 "Event created successfully" (event_payload e))
    ∧ Event.event_status e = ev_draft
    ∧ Event.registration_mode e = individual
    ∧ well_formed_event e.
Proof.
  eexists _, _. split; [vm_compute; reflexivity|].
  destruct (create_event_stores_valid_event Quiz.env (λ _, "") Scenario.org Quiz.body
              (Scenario.db0 2 4) _ _ _ ltac:(vm_compute; reflexivity))
    as (_ & _ & _ & _ & _ & _ & Hwf & _ & _ & Hdraft & Hindividual & _).
  split_and!; [by apply Hdraft|by apply Hindividual|exact Hwf].
Defined.

(** * Bookmarks *)

Lemma run_handler_inv {S Resp} (store : S) (catch : JsError → Resp) body store' r :
  run_handler store catch body = (store', r) →
  (store' = store ∧ ((∃ e, body = Throw e ∧ r = catch e) ∨ body = Return r))
  ∨ body = Next (store', r).
Proof. destruct body as [[? ?]| |]; simpl; intros [= <- <-]; eauto 6. Qed.

Lemma findOne_bookmark_Next {R} bookmarks userId event_id found :
  findOne_bookmark (R := R) bookmarks userId event_id = Next found →
  ∃ u e, castObjectId userId = Some u ∧ castObjectId event_id = Some e
         ∧ found = list_find (λ b, Bookmark.user_id b = u ∧ Bookmark.event_id b = e)
                     bookmarks.
Proof.
  unfold findOne_bookmark.
  destruct (castObjectId userId) as [u|], (castObjectId event_id) as [e|]; try done.
  intros [= <-]. eauto.
Qed.

Lemma Bookmark_create_Next {R} env bookmarks userId event_id bookmarks' b :
  Bookmark_create (R := R) env bookmarks userId event_id = Next (bookmarks', b) →
  ∃ u e, castObjectId userId = Some u ∧ castObjectId event_id = Some e
         ∧ b = Bookmark.mk (new_id env) u e (now env)
         ∧ bookmarks' = bookmarks ++ [b]
         ∧ Forall (λ b', Bookmark._id b' ≠ new_id env
                         ∧ (Bookmark.user_id b', Bookmark.event_id b') ≠ (u, e))
             bookmarks.
Proof.
  unfold Bookmark_create.
  destruct (castObjectId userId) as [u|], (castObjectId event_id) as [e|]; try done.
  destruct (bool_decide _) eqn:Hexists; [done|].
  apply bool_decide_eq_false in Hexists. intros [= <- <-].
  exists u, e. split_and!; try done.
  apply Forall_forall. intros b' Hin. split.
  - intros Hid. apply Hexists, Exists_exists. exists b'. auto.
  - intros [= Hu He]. apply Hexists, Exists_exists. exists b'. auto.
Qed.

Lemma findById_not_Return {R D} (key : D → ObjectId) coll id (r : R) :
  findById key coll id ≠ Return r.
Proof. unfold findById. by destruct (castObjectId id). Qed.

Lemma findOne_bookmark_not_Return {R} bookmarks userId event_id (r : R) :
  findOne_bookmark bookmarks userId event_id ≠ Return r.
Proof. unfold findOne_bookmark. by repeat case_match. Qed.

Lemma Bookmark_create_not_Return {R} env bookmarks userId event_id (r : R) :
  Bookmark_create env bookmarks userId event_id ≠ Return r.
Proof. unfold Bookmark_create. by repeat case_match. Qed.

(** What a successful bookmark request stores. *)
Lemma post_bookmark_inv env user event_id events bookmarks bookmarks' msg b :
  post_bookmark env user event_id events bookmarks
  = (bookmarks', bookmark_ok 201 msg (bookmark_payload b)) →
  ∃ id u event,
    event_id = Some id
    ∧ castObjectId (userId user) = Some u
    ∧ findById (R := BookmarkResponse) Event._id events id = Next (Some event)
    ∧ b = Bookmark.mk (new_id env) u (Event._id event) (now env)
    ∧ bookmarks' = bookmarks ++ [b]
    ∧ Forall (λ b', Bookmark._id b' ≠ new_id env
                    ∧ (Bookmark.user_id b', Bookmark.event_id b') ≠ (u, Event._id event))
        bookmarks.
Proof.
  unfold post_bookmark. intros Hpost.
  apply run_handler_inv in Hpost as [[_ [(e & _ & [=])|Hreturn]]|Hpost].
  { exfalso. revert Hreturn.
    destruct (negb _ || negb _); [done|]. simpl.
    destruct (findById _ _ _) as [[?|]| |] eqn:Hev; simpl; try done;
      [|by apply findById_not_Return in Hev].
    destruct (findOne_bookmark _ _ _) as [found| |] eqn:Hfound; simpl; try done;
      [|by apply findOne_bookmark_not_Return in Hfound].
    destruct (bool_decide _); simpl; [done|].
    destruct (Bookmark_create _ _ _ _) as [[? ?]| |] eqn:Hc; simpl; try done.
    by apply Bookmark_create_not_Return in Hc. }
  flow_inv.
  rename select (findById Event._id _ _ = _) into Hev.
  rename select (Bookmark_create _ _ _ _ = _) into Hcreate.
  rename select ((negb _ || negb _) = false) into Hvalid.
  apply orb_false_iff in Hvalid as [Htruthy _].
  destruct event_id as [id|]; [|done]. simpl in *.
  apply Bookmark_create_Next in Hcreate as (u & e & Hu & He & -> & -> & Hfresh).
  pose proof Hev as (oid & j & Hoid & (_ & Hid & _)%list_find_Some)%findById_Next.
  assert (e = Event._id t) as -> by congruence.
  exists id, u, t. split_and!; done.
Qed.

Lemma NoDup_delete {A} (l : list A) i : NoDup l → NoDup (delete i l).
Proof.
  intros Hnodup. destruct (l !! i) as [x|] eqn:Hi.
  - rewrite (delete_Permutation l i x Hi) in Hnodup. by apply NoDup_cons_1_2 in Hnodup.
  - rewrite delete_take_drop, drop_ge, app_nil_r, take_ge; [done|..];
      apply lookup_ge_None in Hi; lia.
Qed.

(** Once the first bookmark of a pair is deleted from bookmarks without
    repeated pairs, no bookmark of the pair is left. *)
Lemma list_find_delete_unique bookmarks u e i b :
  NoDup ((λ b, (Bookmark.user_id b, Bookmark.event_id b)) <$> bookmarks) →
  list_find (λ b, Bookmark.user_id b = u ∧ Bookmark.event_id b = e) bookmarks
  = Some (i, b) →
  list_find (λ b, Bookmark.user_id b = u ∧ Bookmark.event_id b = e) (delete i bookmarks)
  = None.
Proof.
  intros Hnodup (Hi & [Hu He] & _)%list_find_Some.
  apply list_find_None, Forall_lookup. intros k b' Hk [Hu' He'].
  assert (∃ k', k' ≠ i ∧ bookmarks !! k' = Some b') as (k' & Hne & Hk').
  { destruct (decide (k < i)%nat).
    - exists k. rewrite list_lookup_delete_lt in Hk by done. split; [lia|done].
    - exists (S k). rewrite list_lookup_delete_ge in Hk by lia. split; [lia|done]. }
  apply Hne. eapply NoDup_lookup; [done|..]; rewrite list_lookup_fmap.
  - by rewrite Hk'; simpl; rewrite Hu', He'.
  - by rewrite Hi; simpl; rewrite Hu, He.
Qed.

(** X15. A successful bookmark request appends one bookmark of the caller
    for a stored event; right after it the check answers that the event is
    bookmarked and a second bookmark request for the event is refused with
    409.  On bookmarks without repeated pairs of user and event, a
    successful removal takes out one bookmark; right after it the check
    answers that the event is not bookmarked and a second removal is
    refused with 404. *)
Theorem bookmark_round_trip :
  (∀ env user event_id events bookmarks bookmarks' msg b,
     post_bookmark env user event_id events bookmarks
     = (bookmarks', bookmark_ok 201 msg (bookmark_payload b)) →
     ∃ id,
       event_id = Some id
       ∧ bookmarks' = bookmarks ++ [b]
       ∧ names (userId user) (Bookmark.user_id b)
       ∧ names id (Bookmark.event_id b)
       ∧ Exists (λ e, Event._id e = Bookmark.event_id b) events
       ∧ check_bookmark user id bookmarks'
         = (bookmarks', bookmark_ok 200 "" (isBookmarked_payload true))
       ∧ ∀ env', post_bookmark env' user (Some id) events bookmarks'
                 = (bookmarks', bookmark_fail 409 "Event already bookmarked"))
  ∧ (∀ user eventId bookmarks bookmarks' r,
       unique_bookmarks bookmarks →
       delete_bookmark user eventId bookmarks = (bookmarks', r) →
       bookmark_success r = true →
       (length bookmarks' + 1 = length bookmarks)%nat
       ∧ check_bookmark user eventId bookmarks'
         = (bookmarks', bookmark_ok 200 "" (isBookmarked_payload false))
       ∧ delete_bookmark user eventId bookmarks'
         = (bookmarks', bookmark_fail 404 "Bookmark not found")).
Proof.
  split.
  - intros env user event_id events bookmarks bookmarks' msg b
      (id & u & event & -> & Hu & Hev & -> & -> & Hfresh)%post_bookmark_inv.
    pose proof Hev as (oid & j & Hoid & (Hj & Hid & _)%list_find_Some)%findById_Next.
    assert (isValidObjectId id = true) as Hvalid.
    { unfold castObjectId in Hoid. by destruct (isValidObjectId id). }
    assert (id ≠ "") as Hne by (by intros ->).
    assert (∃ found,
      findOne_bookmark (R := BookmarkResponse)
        (bookmarks ++ [Bookmark.mk (new_id env) u (Event._id event) (now env)])
        (userId user) id = Next (Some found)) as [found Hfound].
    { unfold findOne_bookmark. rewrite Hu, Hoid, Hid.
      destruct (list_find _ _) as [found|] eqn:Hfind; [by eauto|].
      apply list_find_None in Hfind. apply Forall_app in Hfind as [_ Hlast].
      rewrite Forall_singleton in Hlast. exfalso. apply Hlast. by split. }
    exists id. split_and!; try done.
    + unfold names. simpl. by rewrite Hoid, Hid.
    + apply Exists_exists. exists event. split; [by eapply list_elem_of_lookup_2|done].
    + unfold check_bookmark. rewrite Hvalid. simpl. by rewrite Hfound.
    + intros env'. unfold post_bookmark. simpl.
      rewrite Hvalid, (bool_decide_eq_false_2 _ Hne). simpl.
      rewrite Hev. simpl. by rewrite Hfound.
  - intros user eventId bookmarks bookmarks' r [_ Hpairs] Hdel Hok.
    unfold delete_bookmark in Hdel.
    destruct (isValidObjectId eventId) eqn:Hvalid; simpl in Hdel;
      [|by injection Hdel as <- <-].
    destruct (findOne_bookmark bookmarks (userId user) eventId) as [found|?|?] eqn:Hfound;
      simpl in Hdel; [|by apply findOne_bookmark_not_Return in Hfound
                      |by injection Hdel as <- <-].
    apply findOne_bookmark_Next in Hfound as (u & e & Hu & He & ->).
    destruct (list_find _ bookmarks) as [[i b]|] eqn:Hfind; simpl in Hdel;
      [|by injection Hdel as <- <-].
    injection Hdel as <- <-.
    pose proof (list_find_delete_unique _ _ _ _ _ Hpairs Hfind) as Hgone.
    split_and!.
    + apply list_find_Some in Hfind as (Hi%lookup_lt_Some & _).
      rewrite length_delete by (apply lookup_lt_is_Some_2; lia). lia.
    + unfold check_bookmark, findOne_bookmark. rewrite Hvalid, Hu, He. simpl.
      by rewrite Hgone.
    + unfold delete_bookmark, findOne_bookmark. rewrite Hvalid, Hu, He. simpl.
      by rewrite Hgone.
Qed.

Lemma bookmark_round_trip_witness :
  check_bookmark Scenario.lea Scenario.event_id
    (bookmark_run [Scenario.hack_night 2 4] (take 2 Shelf.requests) [])
  = (bookmark_run [Scenario.hack_night 2 4] (take 2 Shelf.requests) [],
     bookmark_ok 200 "" (isBookmarked_payload true))
  ∧ check_bookmark Scenario.lea Scenario.event_id
      (bookmark_run [Scenario.hack_night 2 4] Shelf.requests [])
    = (bookmark_run [Scenario.hack_night 2 4] Shelf.requests [],
       bookmark_ok 200 "" (isBookmarked_payload false)).
Proof.
  split.
  - destruct (proj1 bookmark_round_trip (mkEnv 1100 Shelf.bookmark_id_2) Scenario.bob
                (Some Scenario.event_id) [Scenario.hack_night 2 4]
                (bookmark_run [Scenario.hack_night 2 4] (take 1 Shelf.requests) [])
                _ _ _ ltac:(vm_compute; reflexivity)) as (id & _ & _ & _ & _ & _ & _ & _).
    vm_compute; reflexivity.
  - destruct (proj2 bookmark_round_trip Scenario.lea Scenario.event_id
                (bookmark_run [Scenario.hack_night 2 4] (take 3 Shelf.requests) [])
                (bookmark_run [Scenario.hack_night 2 4] Shelf.requests [])
                (bookmark_ok 200 "Bookmark removed successfully" no_bookmark_payload))
      as (_ & Hcheck & _).
    + split; vm_compute; apply (bool_decide_unpack _); vm_compute; exact I.
    + vm_compute; reflexivity.
    + reflexivity.
    + exact Hcheck.
Defined.

(** What one request of the bookmark routes writes: nothing, one new
    bookmark of the caller at the end, or one bookmark of the caller
    taken out. *)
Lemma bookmark_step_inv events env user req bookmarks :
  fst (bookmark_step events env user req bookmarks) = bookmarks
  ∨ (∃ b,
       fst (bookmark_step events env user req bookmarks) = bookmarks ++ [b]
       ∧ names (userId user) (Bookmark.user_id b)
       ∧ Forall (λ b', Bookmark._id b' ≠ Bookmark._id b
                       ∧ (Bookmark.user_id b', Bookmark.event_id b')
                         ≠ (Bookmark.user_id b, Bookmark.event_id b)) bookmarks)
  ∨ (∃ i b,
       fst (bookmark_step events env user req bookmarks) = delete i bookmarks
       ∧ bookmarks !! i = Some b
       ∧ names (userId user) (Bookmark.user_id b)).
Proof.
  destruct req as [event_id| |eventId|eventId]; simpl.
  - unfold post_bookmark.
    destruct (run_handler _ _ _) as [bookmarks' r] eqn:Hpost. simpl.
    apply run_handler_inv in Hpost as [[-> _]|Hpost]; [by left|].
    right; left. flow_inv.
    rename select (Bookmark_create _ _ _ _ = _) into Hcreate.
    apply Bookmark_create_Next in Hcreate as (u & e & Hu & He & -> & -> & Hfresh).
    eexists. split_and!; done.
  - unfold get_bookmarks.
    destruct (run_handler _ _ _) as [bookmarks' r] eqn:Hget. simpl.
    apply run_handler_inv in Hget as [[-> _]|Hget]; [by left|].
    flow_inv. by left.
  - unfold delete_bookmark.
    destruct (run_handler _ _ _) as [bookmarks' r] eqn:Hdel. simpl.
    apply run_handler_inv in Hdel as [[-> _]|Hdel]; [by left|].
    right; right. flow_inv.
    rename select (findOne_bookmark _ _ _ = _) into Hfound.
    apply findOne_bookmark_Next in Hfound as (u & e & Hu & He & Hfind).
    symmetry in Hfind. apply list_find_Some in Hfind as (Hi & [Hbu _] & _).
    eexists _, _. split_and!; [done..|]. unfold names. by rewrite Hu, Hbu.
  - unfold check_bookmark.
    destruct (run_handler _ _ _) as [bookmarks' r] eqn:Hget. simpl.
    apply run_handler_inv in Hget as [[-> _]|Hget]; [by left|].
    flow_inv. by left.
Qed.

(** X16. Over every sequence of bookmark requests no two bookmarks share
    an identifier and no two share their user and their event, when this
    is so at the start; and one request leaves the bookmarks of every
    account other than the caller's as they were. *)
Theorem bookmarks_stay_unique_and_own events :
  (∀ reqs bookmarks,
     unique_bookmarks bookmarks → unique_bookmarks (bookmark_run events reqs bookmarks))
  ∧ (∀ env user req bookmarks u,
       names (userId user) u →
       bookmarks_of_others u (fst (bookmark_step events env user req bookmarks))
       = bookmarks_of_others u bookmarks).
Proof.
  split.
  - intros reqs. induction reqs as [|[[env user] req] reqs IH]; intros bookmarks Hinv;
      simpl; [done|].
    apply IH. destruct Hinv as [Hids Hpairs]. unfold unique_bookmarks.
    destruct (bookmark_step_inv events env user req bookmarks)
      as [->|[(b & -> & _ & Hfresh)|(i & b & -> & _)]]; [done| |].
    + rewrite !fmap_app. simpl. rewrite Forall_forall in Hfresh. split.
      * apply NoDup_app. split_and!; [done| |apply NoDup_singleton].
        intros x (b' & -> & Hin)%list_elem_of_fmap Hx%list_elem_of_singleton.
        by destruct (Hfresh b' Hin).
      * apply NoDup_app. split_and!; [done| |apply NoDup_singleton].
        intros x (b' & -> & Hin)%list_elem_of_fmap Hx%list_elem_of_singleton.
        by destruct (Hfresh b' Hin).
    + rewrite !list_fmap_delete. split; by apply NoDup_delete.
  - intros env user req bookmarks u Hu. unfold bookmarks_of_others.
    destruct (bookmark_step_inv events env user req bookmarks)
      as [->|[(b & -> & Hb & _)|(i & b & -> & Hi & Hb)]]; [done| |].
    + rewrite filter_app, filter_cons_False, filter_nil, app_nil_r; [done|].
      intros Hne. apply Hne. unfold names in *. congruence.
    + rewrite <- (take_drop_middle bookmarks i b Hi) at 2.
      rewrite delete_take_drop, !filter_app, filter_cons_False; [done|].
      intros Hne. apply Hne. unfold names in *. congruence.
Qed.

Lemma bookmarks_stay_unique_and_own_witness :
  unique_bookmarks (bookmark_run [Scenario.hack_night 2 4] Shelf.requests [])
  ∧ Bookmark.user_id <$> bookmark_run [Scenario.hack_night 2 4] Shelf.requests []
    = [Scenario.bob_id].
Proof.
  split; [|vm_compute; reflexivity].
  apply (proj1 (bookmarks_stay_unique_and_own [Scenario.hack_night 2 4])).
  split; simpl; constructor.
Defined.

(** * The event routes that read *)

Lemma answer_inv {Resp} (catch : JsError → Resp) body r :
  answer catch body = r →
  body = Next r ∨ body = Return r ∨ ∃ e, body = Throw e ∧ r = catch e.
Proof. destruct body; simpl; intros <-; eauto. Qed.

Lemma page_of_subseteq {A} skip limit (l : list A) : page_of skip limit l ⊆ l.
Proof.
  unfold page_of. destruct (decide (limit = 0%nat)).
  - apply subseteq_drop.
  - etrans; [apply subseteq_take|apply subseteq_drop].
Qed.

Lemma page_of_length {A} skip limit (l : list A) :
  length (page_of skip limit l)
  = if decide (limit = 0%nat) then (length l - skip)%nat
    else (limit `min` (length l - skip))%nat.
Proof.
  unfold page_of. destruct (decide (limit = 0%nat)).
  - by rewrite length_drop.
  - by rewrite length_take, length_drop.
Qed.

Lemma page_of_sorted {A} (R : relation A) skip limit l :
  StronglySorted R l → StronglySorted R (page_of skip limit l).
Proof.
  intros Hsorted. unfold page_of.
  assert (StronglySorted R (drop skip l)) as Hdrop.
  { rewrite <- (take_drop skip l) in Hsorted. by apply StronglySorted_app_1_r in Hsorted. }
  destruct (decide (limit = 0%nat)); [done|].
  rewrite <- (take_drop limit (drop skip l)) in Hdrop.
  by apply StronglySorted_app_1_l in Hdrop.
Qed.

Lemma starts_before_total : Total starts_before.
Proof. intros a b. unfold starts_before. lia. Qed.

Lemma starts_before_trans : Transitive starts_before.
Proof. intros a b c. unfold starts_before. lia. Qed.

Lemma build_events_filter_spec req_user q :
  let f := build_events_filter req_user q in
  (∀ s, ef_event_type f = Some s ↔ EventsQuery.event_type q = Some s ∧ s ≠ "")
  ∧ (∀ s, ef_society_id f = Some s ↔
          EventsQuery.society_id q = Some s ∧ isValidObjectId s = true)
  ∧ (∀ s, ef_event_status f = Some s ↔
          is_Some req_user ∧ EventsQuery.event_status q = Some s ∧ s ≠ "")
  ∧ (ef_open_only f = true ↔ req_user = None)
  ∧ (∀ u, ef_open_or_organizer f = Some u ↔
          ∃ user, req_user = Some user
                  ∧ truthy_string (EventsQuery.event_status q) = false
                  ∧ u = userId user).
Proof.
  assert (∀ o s, (if truthy_string o then o else None) = Some s ↔ o = Some s ∧ s ≠ "")
    as Htruthy.
  { intros [s'|] s; simpl; [|split; [done|by intros [? _]]].
    destruct (decide (s' = "")) as [->|Hne].
    - split; [done|]. by intros [[= <-] ?].
    - rewrite bool_decide_eq_false_2 by done. simpl.
      split; [by intros [= <-]|by intros [? _]]. }
  assert (∀ s, (if truthy_string (EventsQuery.society_id q)
                   && isValidObjectId (default "" (EventsQuery.society_id q))
                then EventsQuery.society_id q else None) = Some s
               ↔ EventsQuery.society_id q = Some s ∧ isValidObjectId s = true)
    as Hsociety.
  { intros s. destruct (EventsQuery.society_id q) as [s'|]; simpl;
      [|split; [done|by intros [? _]]].
    destruct (decide (s' = "")) as [->|Hne].
    - split; [done|]. intros [[= <-] Hvalid]. by vm_compute in Hvalid.
    - rewrite bool_decide_eq_false_2 by done. simpl.
      destruct (isValidObjectId s') eqn:Hvalid.
      + split; [by intros [= <-]|by intros [? _]].
      + split; [done|]. intros [[= <-] ?]. congruence. }
  unfold build_events_filter.
  destruct req_user as [user|]; [destruct (truthy_string (EventsQuery.event_status q)) eqn:Hs|];
    simpl; split_and!; try done.
  - intros s. specialize (Htruthy (EventsQuery.event_status q) s). rewrite Hs in Htruthy.
    rewrite Htruthy. split; [by intros [? ?]; eauto|by intros (_ & ? & ?)].
  - split; [done|]. by intros (user' & _ & [=] & _).
  - intros s. split; [done|]. intros (_ & Hq & Hne).
    specialize (Htruthy (EventsQuery.event_status q) s). rewrite Hs in Htruthy.
    by apply Htruthy.
  - intros u. split; [intros [= <-]; eauto|]. by intros (user' & [= <-] & _ & ->).
  - intros s. split; [done|]. by intros ([? [=]] & _).
  - split; [done|]. by intros (user' & [=] & _).
Qed.

(** X17. The list of events writes nothing.  The total is the number of
    stored events that match the filter; the page is the matching events,
    ordered by their start, without the skipped ones and cut at the limit
    (20 when none is given, none at all for 0), and the count is its
    length.  An event matches when it has the type and the society that
    the query names and, without [req.user], as the route is mounted, is
    published or ongoing, whatever status the query names; with a user it
    has the status of the query or, when the query names none, is
    published or ongoing or organized by that user. *)
Theorem event_list_shows_open_events req_user q db count total evs :
  get_events req_user q db = events_ok (events_page_payload count total evs) →
  ∃ f organizer,
    total = length (filter (event_matches f organizer) (events db))
    ∧ evs = page_of (default 0%nat (EventsQuery.skip q))
              (default 20%nat (EventsQuery.limit q))
              (merge_sort starts_before (filter (event_matches f organizer) (events db)))
    ∧ count = length evs
    ∧ length evs
      = (if decide (default 20%nat (EventsQuery.limit q) = 0%nat)
         then (total - default 0%nat (EventsQuery.skip q))%nat
         else (default 20%nat (EventsQuery.limit q)
               `min` (total - default 0%nat (EventsQuery.skip q)))%nat)
    ∧ (∀ e, event_matches f organizer e ↔
         (∀ s, EventsQuery.event_type q = Some s → s ≠ "" →
               EventType_of_string s = Some (Event.event_type e))
         ∧ (∀ s, EventsQuery.society_id q = Some s → isValidObjectId s = true →
                 castObjectId s = Event.society_id e)
         ∧ (req_user = None → is_open_status (Event.event_status e) = true)
         ∧ (∀ s, is_Some req_user → EventsQuery.event_status q = Some s → s ≠ "" →
                 EventStatus_of_string s = Some (Event.event_status e))
         ∧ (∀ user, req_user = Some user →
              truthy_string (EventsQuery.event_status q) = false →
              is_open_status (Event.event_status e) = true
              ∨ names (userId user) (Event.organizer_id e)))
    ∧ (count ≤ total)%nat
    ∧ evs ⊆ events db
    ∧ StronglySorted starts_before evs
    ∧ (req_user = None →
       Forall (λ e, is_open_status (Event.event_status e) = true) evs)
    ∧ (∀ user, req_user = Some user →
         truthy_string (EventsQuery.event_status q) = false →
         Forall (λ e, is_open_status (Event.event_status e) = true
                      ∨ names (userId user) (Event.organizer_id e)) evs)
    ∧ (∀ s, EventsQuery.event_type q = Some s → s ≠ "" →
         Forall (λ e, EventType_of_string s = Some (Event.event_type e)) evs).
Proof.
  unfold get_events. intros Hget.
  apply answer_inv in Hget as [Hget|[Hget|(e & _ & [=])]].
  2:{ exfalso. revert Hget. by repeat case_match. }
  apply bind_Next_inv in Hget as (organizer & Horg & Hget).
  injection Hget as <- <- <-.
  destruct (build_events_filter_spec req_user q) as (Htype & Hsociety & Hstatus & Hopen & Hor).
  set (f := build_events_filter req_user q) in *.
  set (found := filter (event_matches f organizer) (events db)).
  assert (∀ u, organizer = Some u ↔
               ∃ user, req_user = Some user
                       ∧ truthy_string (EventsQuery.event_status q) = false
                       ∧ names (userId user) u) as Horganizer.
  { intros u. destruct (ef_open_or_organizer f) as [userId|] eqn:Hf.
    - destruct (proj1 (Hor userId) eq_refl) as (user & Huser & Hs & ->).
      destruct (castObjectId (userId user)) as [u'|] eqn:Hu; [|done].
      injection Horg as <-. unfold names. split.
      + intros [= <-]. eauto.
      + intros (user' & Huser' & _ & Hname). simplify_eq. congruence.
    - injection Horg as <-. split; [done|].
      intros (user & Huser & Hs & Hname).
      assert (@None string = Some (userId user)) as [=] by (apply Hor; eauto). }
  assert (∀ e, event_matches f organizer e ↔
         (∀ s, EventsQuery.event_type q = Some s → s ≠ "" →
               EventType_of_string s = Some (Event.event_type e))
         ∧ (∀ s, EventsQuery.society_id q = Some s → isValidObjectId s = true →
                 castObjectId s = Event.society_id e)
         ∧ (req_user = None → is_open_status (Event.event_status e) = true)
         ∧ (∀ s, is_Some req_user → EventsQuery.event_status q = Some s → s ≠ "" →
                 EventStatus_of_string s = Some (Event.event_status e))
         ∧ (∀ user, req_user = Some user →
              truthy_string (EventsQuery.event_status q) = false →
              is_open_status (Event.event_status e) = true
              ∨ names (userId user) (Event.organizer_id e))) as Hmatches.
  { intros e. unfold event_matches. rewrite Hopen. split.
    - intros (Hty & Hso & Hst & Hop & Ho). split_and!; [| |done| |].
      + intros s Hs Hne. assert (ef_event_type f = Some s) as Hf by by apply Htype.
        by rewrite Hf in Hty.
      + intros s Hs Hvalid. assert (ef_society_id f = Some s) as Hf by by apply Hsociety.
        by rewrite Hf in Hso.
      + intros s Huser Hs Hne.
        assert (ef_event_status f = Some s) as Hf by by apply Hstatus.
        by rewrite Hf in Hst.
      + intros user Huser Hs.
        destruct organizer as [u|].
        * pose proof (proj1 (Horganizer u) eq_refl) as (user' & Huser' & _ & Hname).
          simplify_eq. simpl in Ho. destruct Ho as [?| <-]; [by left|by right].
        * destruct (castObjectId (userId user)) as [u|] eqn:Hu.
          -- assert (None = Some u) as [=]. apply Horganizer. eauto.
          -- assert (ef_open_or_organizer f = Some (userId user)) as Hf
               by (apply Hor; eauto).
             rewrite Hf, Hu in Horg. done.
    - intros (Hty & Hso & Hop & Hst & Ho). split_and!; [| | |done|].
      + destruct (ef_event_type f) as [s|] eqn:Hf; [|done].
        destruct (proj1 (Htype s) eq_refl) as [? ?]. simpl. eauto.
      + destruct (ef_society_id f) as [s|] eqn:Hf; [|done].
        destruct (proj1 (Hsociety s) eq_refl) as [? ?]. simpl. eauto.
      + destruct (ef_event_status f) as [s|] eqn:Hf; [|done].
        destruct (proj1 (Hstatus s) eq_refl) as (? & ? & ?). simpl. eauto.
      + destruct organizer as [u|]; [|done].
        pose proof (proj1 (Horganizer u) eq_refl) as (user & Huser & Hs & Hname).
        simpl. destruct (Ho user Huser Hs) as [?|Hname']; [by left|right].
        unfold names in *. congruence. }
  assert (∀ e, e ∈ page_of (default 0%nat (EventsQuery.skip q))
                     (default 20%nat (EventsQuery.limit q))
                     (merge_sort starts_before found) →
               e ∈ events db ∧ event_matches f organizer e) as Hin.
  { intros e Hin%page_of_subseteq. rewrite merge_sort_Permutation in Hin.
    by apply list_elem_of_filter in Hin as [? ?]. }
  exists f, organizer. fold found.
  split_and!.
  - done.
  - done.
  - done.
  - by rewrite page_of_length, (Permutation_length (merge_sort_Permutation _ _)).
  - done.
  - rewrite page_of_length, (Permutation_length (merge_sort_Permutation _ _)).
    destruct (decide _); lia.
  - intros e He. by apply Hin.
  - pose proof starts_before_total. pose proof starts_before_trans.
    by apply page_of_sorted, StronglySorted_merge_sort.
  - intros Hnone. apply Forall_forall. intros e [_ Hm]%Hin.
    apply Hmatches in Hm as (_ & _ & Hop & _). by apply Hop.
  - intros user Huser Hs. apply Forall_forall. intros e [_ Hm]%Hin.
    apply Hmatches in Hm as (_ & _ & _ & _ & Ho). by eapply Ho.
  - intros s Hs Hne. apply Forall_forall. intros e [_ Hm]%Hin.
    apply Hmatches in Hm as (Hty & _). by eapply Hty.
Qed.

Lemma event_list_shows_open_events_witness :
  get_events None Drafts.all_events Drafts.db
  = events_ok (events_page_payload 1 1 [Scenario.hack_night 2 4])
  ∧ Forall (λ e, is_open_status (Event.event_status e) = true) [Scenario.hack_night 2 4].
Proof.
  split; [vm_compute; reflexivity|].
  destruct (event_list_shows_open_events None Drafts.all_events Drafts.db 1 1
              [Scenario.hack_night 2 4] ltac:(vm_compute; reflexivity))
    as (f & organizer & _ & _ & _ & _ & _ & _ & _ & _ & Hopen & _).
  exact (Hopen eq_refl).
Defined.

(** X18. A stored event that is not a draft is shown to everyone.  A
    draft is shown only to a [req.user] who is its organizer or an
    administrator; without [req.user], as the route is mounted, the answer
    is the 404 of an event that is not stored.  The form-fields route
    answers with the title and the form fields of every stored event,
    drafts included. *)
Theorem draft_event_is_hidden req_user eventId db event :
  findById (R := EventsResponse) Event._id (events db) eventId = Next (Some event) →
  (Event.event_status event ≠ ev_draft →
   get_event req_user eventId db = events_ok (one_event_payload event))
  ∧ (Event.event_status event = ev_draft →
     get_event None eventId db = events_fail 404 "Event not found"
     ∧ (∀ missing,
          isValidObjectId missing = true →
          findById (R := EventsResponse) Event._id (events db) missing = Next None →
          get_event None missing db = get_event None eventId db)
     ∧ (events_success (get_event req_user eventId db) = true →
        ∃ user, req_user = Some user
                ∧ (userId user = Event.organizer_id event ∨ user_role user = "admin")))
  ∧ get_form_fields eventId db
    = events_ok (form_fields_payload (Event.title event) (Event.form_fields event)).
Proof.
  intros Hfound.
  assert (isValidObjectId eventId = true) as Hvalid.
  { apply findById_Next in Hfound as (oid & _ & Hoid & _).
    unfold castObjectId in Hoid. by destruct (isValidObjectId eventId). }
  split_and!.
  - intros Hstatus. unfold get_event. rewrite Hvalid. simpl. rewrite Hfound. simpl.
    by rewrite decide_False.
  - intros Hdraft.
    assert (get_event None eventId db = events_fail 404 "Event not found") as Hnone.
    { unfold get_event. rewrite Hvalid. simpl. rewrite Hfound. simpl.
      by rewrite decide_True. }
    split_and!; [done| |].
    + intros missing Hmvalid Hmissing. rewrite Hnone.
      unfold get_event. rewrite Hmvalid. simpl. by rewrite Hmissing.
    + unfold get_event. rewrite Hvalid. simpl. rewrite Hfound. simpl.
      rewrite decide_True by done.
      destruct req_user as [user|]; simpl; [|done].
      destruct (user_exists _ _); simpl; [|done].
      destruct (_ && _) eqn:Hauth; simpl; [done|]. intros _.
      exists user. split; [done|].
      apply andb_false_iff in Hauth
        as [Hauth%bool_decide_eq_false|Hauth%bool_decide_eq_false];
        apply dec_stable in Hauth; auto.
  - unfold get_form_fields. rewrite Hvalid. simpl. by rewrite Hfound.
Qed.

Lemma draft_event_is_hidden_witness :
  get_event None Drafts.draft_id Drafts.db = events_fail 404 "Event not found"
  ∧ get_form_fields Drafts.draft_id Drafts.db
    = events_ok (form_fields_payload "Film night"
                   [FormField.mk "f-seat" "Seat" "short_text" false None 0]).
Proof.
  destruct (draft_event_is_hidden None Drafts.draft_id Drafts.db Drafts.film_night)
    as (_ & Hdraft & Hfields).
  - vm_compute; reflexivity.
  - split; [exact (proj1 (Hdraft eq_refl))|exact Hfields].
Defined.

Lemma newer_event_total : Total newer_event.
Proof. intros a b. unfold newer_event. lia. Qed.

Lemma newer_event_trans : Transitive newer_event.
Proof. intros a b c. unfold newer_event. lia. Qed.

(** X19. The organizer's own list holds exactly the stored events whose
    organizer is the caller, whatever their status, newest first, and
    counts them. *)
Theorem my_events_are_the_callers user db count evs :
  get_my_events user db = events_ok (my_events_payload evs count) →
  count = length evs
  ∧ StronglySorted newer_event evs
  ∧ (∀ e, e ∈ evs ↔ e ∈ events db ∧ names (userId user) (Event.organizer_id e))
  ∧ count = length (filter (λ e, names (userId user) (Event.organizer_id e)) (events db)).
Proof.
  unfold get_my_events. intros Hget.
  destruct (castObjectId (userId user)) as [u|] eqn:Hu; [|done].
  simpl in Hget. injection Hget as <- <-.
  assert (∀ e, Event.organizer_id e = u ↔ names (userId user) (Event.organizer_id e))
    as Hnames.
  { intros e. unfold names. rewrite Hu. split; [by intros ->|by intros [= ->]]. }
  split_and!.
  - done.
  - pose proof newer_event_total. pose proof newer_event_trans.
    by apply StronglySorted_merge_sort.
  - intros e. rewrite merge_sort_Permutation, list_elem_of_filter, Hnames. tauto.
  - rewrite (Permutation_length (merge_sort_Permutation _ _)).
    f_equal. apply list_filter_iff. intros e. apply Hnames.
Qed.

Lemma my_events_are_the_callers_witness :
  ∃ evs, get_my_events Scenario.org Drafts.db = events_ok (my_events_payload evs 2)
         ∧ length evs = 2%nat.
Proof.
  eexists. split; [vm_compute; reflexivity|].
  symmetry.
  refine (proj1 (my_events_are_the_callers Scenario.org Drafts.db 2 _ _)).
  vm_compute; reflexivity.
Defined.

(** * Authentication *)

Lemma split_on_nonempty sep s : split_on sep s ≠ [].
Proof. destruct s as [|c s]; simpl; [done|]. by repeat case_match. Qed.

Lemma split_on_word w s :
  one_word w → split_on " " (w +:+ String " " s) = w :: split_on " " s.
Proof.
  unfold one_word. induction w as [|c w IH]; simpl; intros Hw.
  - done.
  - apply Forall_cons in Hw as [Hc Hw]. rewrite decide_False by done.
    by rewrite (IH Hw).
Qed.

Lemma split_on_last_word w : one_word w → split_on " " w = [w].
Proof.
  unfold one_word. induction w as [|c w IH]; simpl; intros Hw; [done|].
  apply Forall_cons in Hw as [Hc Hw]. rewrite decide_False by done.
  by rewrite (IH Hw).
Qed.

(** X20. The middleware verifies the second word of the header, whatever
    the first word is and whatever follows the second: a header made of a
    word, a space and a token that is a non-empty word, with or without a
    space and more text behind, is answered with the outcome of the
    verification of that token.  A header that is absent, empty or a
    single word is answered 401 without any verification. *)
Theorem authenticate_reads_second_word verify scheme token rest :
  one_word scheme → one_word token → token ≠ "" →
  authenticateToken verify (Some (scheme +:+ String " " token)) = verified (verify token)
  ∧ authenticateToken verify (Some (scheme +:+ String " " (token +:+ String " " rest)))
    = verified (verify token)
  ∧ authenticateToken verify None = Denied 401 "Access denied. No token provided."
  ∧ authenticateToken verify (Some "") = Denied 401 "Access denied. No token provided."
  ∧ (scheme ≠ "" →
     authenticateToken verify (Some scheme)
     = Denied 401 ("Access denied. Invalid token format. Expected "
                   +:+ quoted "Bearer <token>" +:+ ".")).
Proof.
  intros Hscheme Htoken Hne.
  assert (∀ s, truthy_string (Some (scheme +:+ String " " s)) = true) as Hheader.
  { intros s. simpl. apply negb_true_iff, bool_decide_eq_false.
    by destruct scheme. }
  split_and!.
  - unfold authenticateToken. rewrite Hheader. simpl.
    rewrite (split_on_word _ _ Hscheme), (split_on_last_word _ Htoken). simpl.
    by rewrite (bool_decide_eq_false_2 _ Hne).
  - unfold authenticateToken. rewrite Hheader. simpl.
    rewrite (split_on_word _ _ Hscheme), (split_on_word _ _ Htoken). simpl.
    by rewrite (bool_decide_eq_false_2 _ Hne).
  - done.
  - done.
  - intros Hs. unfold authenticateToken. simpl.
    rewrite (bool_decide_eq_false_2 _ Hs). simpl.
    by rewrite (split_on_last_word _ Hscheme).
Qed.

Lemma authenticate_reads_second_word_witness :
  authenticateToken Tokens.verify (Some "Basic lea-token")
  = Authenticated Scenario.lea
  ∧ authenticateToken Tokens.verify (Some "Bearer lea-token and more")
    = Authenticated Scenario.lea.
Proof.
  destruct (authenticate_reads_second_word Tokens.verify "Basic" "lea-token" "")
    as (Hbasic & _); [vm_compute; repeat constructor; discriminate..|discriminate|].
  destruct (authenticate_reads_second_word Tokens.verify "Bearer" "lea-token" "and more")
    as (_ & Hmore & _); [vm_compute; repeat constructor; discriminate..|discriminate|].
  split; [exact Hbasic|exact Hmore].
Defined.

Lemma authenticateToken_Authenticated verify authHeader user :
  authenticateToken verify authHeader = Authenticated user →
  ∃ header token,
    authHeader = Some header
    ∧ split_on " " header !! 1%nat = Some token
    ∧ verify token = Decoded (userId user) (user_role user).
Proof.
  unfold authenticateToken.
  destruct authHeader as [header|]; [|done]. simpl.
  destruct (negb (bool_decide (header = ""))); [|done]. simpl.
  destruct (split_on " " header !! 1%nat) as [token|] eqn:Htoken; [|done]. simpl.
  destruct (negb (bool_decide (token = ""))); [|done]. simpl.
  intros Hverified. exists header, token. split_and!; [done..|].
  destruct (verify token); simpl in Hverified; try done.
  by injection Hverified as <-.
Qed.

(** X21. Through the mounted route an event is created only for a header
    whose second word verifies as an account with the role of a society
    head or of an administrator; that account is the organizer of the one
    event appended.  Every other request leaves the database as it was. *)
Theorem only_heads_and_admins_create_events verify authHeader env uuid body db db' r :
  route_post_events verify authHeader env uuid body db = (db', r) →
  (success r = false ∧ db' = db)
  ∨ (∃ header token userId role e,
       authHeader = Some header
       ∧ split_on " " header !! 1%nat = Some token
       ∧ verify token = Decoded userId role
       ∧ authorizeRoles ["society_head"; "admin"] (Some (mkAuth userId role)) = None
       ∧ db' = set_events (events db ++ [e]) db
       ∧ names userId (Event.organizer_id e)
       ∧ r = ok 201 "Event created successfully" (event_payload e)).
Proof.
  unfold route_post_events.
  destruct (authenticateToken verify authHeader) as [user|code msg] eqn:Hauth;
    [|intros [= <- <-]; by left].
  apply authenticateToken_Authenticated in Hauth as (header & token & -> & Htoken & Hverify).
  destruct (authorizeRoles _ (Some user)) as [[code msg]|] eqn:Hroles;
    [intros [= <- <-]; by left|].
  destruct (validateEventCreation body) as [body' errors].
  destruct (handleValidationErrors errors) as [r'|] eqn:Hrejected.
  { intros [= <- <-]. left. split; [|done].
    unfold handleValidationErrors in Hrejected. destruct errors; [done|].
    by injection Hrejected as <-. }
  unfold post_events.
  destruct (bool_decide (user_role user = "society_head")
            || bool_decide (user_role user = "admin")) eqn:Hrole; simpl;
    [|intros [= <- <-]; by left].
  intros Hpost.
  apply handle_fails in Hpost; [| |apply catch_validation_fails].
  2:{ apply returns_failures_bind; [|intros _; by apply Event_create_fails; intros [? ?]].
      destruct (truthy_string _); [|done].
      apply returns_failures_bind; [apply returns_failures_findById|].
      intros [society|]; [|by apply is_failure_fail].
      by apply returns_failures_return_if. }
  destruct Hpost as [[-> [Hfail _]]|Hpost]; [by left|].
  right.
  apply bind_Next_inv in Hpost as ([] & _ & Hpost).
  apply bind_Next_inv in Hpost as ([db1 e1] & Hcreate & Hpost).
  injection Hpost as <- <-.
  apply Event_create_inv in Hcreate as (-> & _ & Horg & _).
  exists header, token, (userId user), (user_role user), e1.
  split_and!; try done.
Qed.

Lemma only_heads_and_admins_create_events_witness :
  route_post_events Tokens.verify (Some "Bearer lea-token") Quiz.env (λ _, "") Quiz.body
    (Scenario.db0 2 4)
  = (Scenario.db0 2 4, fail 403 "Access denied. Insufficient permissions.").
Proof.
  destruct (only_heads_and_admins_create_events Tokens.verify (Some "Bearer lea-token")
              Quiz.env (λ _, "") Quiz.body (Scenario.db0 2 4) (Scenario.db0 2 4)
              (fail 403 "Access denied. Insufficient permissions."))
    as [[_ _]|(header & token & userId & role & e & _ & _ & _ & _ & _ & _ & Hr)].
  - vm_compute; reflexivity.
  - vm_compute; reflexivity.
  - discriminate Hr.
Defined.

(** * The registration form and the create handler *)

Lemma filter_index_all {A} (f : nat → nat) k (l : list A) :
  (∀ i, f i ≠ k) →
  snd <$> filter (λ im, fst im ≠ k) (imap (λ i m, (f i, m)) l) = l.
Proof.
  revert f. induction l as [|x l IH]; intros f Hf; [done|].
  rewrite imap_cons, filter_cons_True by (simpl; apply Hf). simpl. f_equal.
  apply (IH (f ∘ S)). intros i. apply Hf.
Qed.

Lemma filter_index_delete_inj {A} (f : nat → nat) (l : list A) index :
  Inj (=) (=) f →
  snd <$> filter (λ im, fst im ≠ f index) (imap (λ i m, (f i, m)) l) = delete index l.
Proof.
  intros Hinj. revert f Hinj index.
  induction l as [|x l IH]; intros f Hinj index; [done|].
  rewrite imap_cons. destruct index as [|index].
  - rewrite filter_cons_False by (simpl; tauto). simpl.
    apply (filter_index_all (f ∘ S)). intros i Hi. by apply Hinj in Hi.
  - rewrite filter_cons_True by (simpl; intros Hi; by apply Hinj in Hi). simpl. f_equal.
    apply (IH (f ∘ S)). intros i j Hij. apply Hinj in Hij. by injection Hij.
Qed.

Lemma filter_index_delete {A} (l : list A) index :
  snd <$> filter (λ im, fst im ≠ index) (imap (λ i m, (i, m)) l) = delete index l.
Proof. apply (filter_index_delete_inj id). apply _. Qed.

Lemma removeTeamMember_delete index st :
  EventDetail.teamMembers (EventDetail.removeTeamMember index st)
  = delete index (EventDetail.teamMembers st).
Proof. unfold EventDetail.removeTeamMember. simpl. apply filter_index_delete. Qed.

Lemma pick_within_max event a st :
  1 ≤ Event.max_team_size event →
  Z.of_nat (length (EventDetail.teamMembers st)) + 1 ≤ Event.max_team_size event →
  Z.of_nat (length (EventDetail.teamMembers (EventDetail.pick event a st))) + 1
  ≤ Event.max_team_size event
  ∧ EventDetail.teamName (EventDetail.pick event a st) = EventDetail.teamName st
  ∧ EventDetail.formAnswers (EventDetail.pick event a st) = EventDetail.formAnswers st.
Proof.
  intros Hmax Hst. destruct a as [user|index]; unfold EventDetail.pick.
  - unfold EventDetail.addTeamMember.
    destruct (_ <=? _) eqn:Hfull; simpl; [done|].
    apply Z.leb_gt in Hfull. rewrite length_app. simpl. split; [lia|done].
  - rewrite removeTeamMember_delete. split; [|done].
    pose proof (length_delete (EventDetail.teamMembers st) index) as Hlen.
    destruct (EventDetail.teamMembers st !! index) eqn:Hi.
    + rewrite Hlen by done. lia.
    + rewrite delete_take_drop, drop_ge, app_nil_r, take_ge;
        [done|apply lookup_ge_None in Hi; lia..].
Qed.

(** X22. The team picker of the event page never holds more members than
    the event allows beside the leader: from a state within the maximum,
    every sequence of picks and removals ends within the maximum, with the
    team name and the answers untouched; a removal takes out the member at
    the index; and the form validation of the resulting state never fails
    on the maximum. *)
Theorem team_picker_stays_within_max event actions st :
  1 ≤ Event.max_team_size event →
  Z.of_nat (length (EventDetail.teamMembers st)) + 1 ≤ Event.max_team_size event →
  let st' := foldl (λ st a, EventDetail.pick event a st) st actions in
  Z.of_nat (length (EventDetail.teamMembers st')) + 1 ≤ Event.max_team_size event
  ∧ EventDetail.teamName st' = EventDetail.teamName st
  ∧ EventDetail.formAnswers st' = EventDetail.formAnswers st
  ∧ (∀ index, EventDetail.teamMembers (EventDetail.removeTeamMember index st')
              = delete index (EventDetail.teamMembers st'))
  ∧ (EventDetail.registrationError (fst (EventDetail.validateForm event st'))
     ≠ "Team cannot exceed " +:+ pretty (Event.max_team_size event) +:+ " members"
     ∨ snd (EventDetail.validateForm event st') = true).
Proof.
  intros Hmax. revert st. induction actions as [|a actions IH]; intros st Hst; simpl.
  - split_and!; try done; [intros index; apply removeTeamMember_delete|].
    unfold EventDetail.validateForm.
    destruct (_ && bool_decide (trim _ = "")); simpl; [by left|].
    destruct (_ && (_ <? Event.min_team_size event)); simpl; [by left|].
    rewrite (proj2 (Z.ltb_ge _ _) Hst), andb_false_r.
    destruct (list_find _ _) as [[i field]|]; simpl; [by left|by right].
  - destruct (pick_within_max event a st Hmax Hst) as (Hst1 & Hname & Hanswers).
    destruct (IH _ Hst1) as (? & ? & ? & ? & ?).
    split_and!; try done; congruence.
Qed.

Lemma team_picker_stays_within_max_witness :
  EventDetail.TeamMember.name <$> EventDetail.teamMembers EventDetail.filled = ["Cy"]
  ∧ Z.of_nat (length (EventDetail.teamMembers EventDetail.filled)) + 1 ≤ 3.
Proof.
  split; [vm_compute; reflexivity|].
  refine (proj1 (team_picker_stays_within_max (Scenario.hack_night 2 3)
                   [EventDetail.Add EventDetail.bob; EventDetail.Add EventDetail.cy;
                    EventDetail.Add EventDetail.bob; EventDetail.Remove 0%nat]
                   _ _ _)); vm_compute; discriminate.
Defined.

Lemma push_team_members_info_resolved users (userId : string)
    (ms : list EventDetail.TeamMember.t) members :
  Forall (λ m, ∃ u, findOne_user_by_email users (EventDetail.TeamMember.email m) = Some u
                    ∧ User._id u ≠ userId) ms →
  ∃ rest,
    push_team_members_info users userId
      ((λ m, MemberInfo.mk (EventDetail.TeamMember.email m) (EventDetail.TeamMember.name m))
       <$> ms) members
    = members ++ rest
    ∧ length rest = length ms
    ∧ Forall (λ d, Member.d_role d = "member" ∧ Member.d_invite_status d = "invited"
                   ∧ ∃ u, u ∈ users ∧ Member.d_user_id d = Some (User._id u)) rest.
Proof.
  intros Hms. revert members.
  induction Hms as [|m ms (u & Hu & Hne) _ IH]; intros members; csimpl.
  - exists []. by rewrite app_nil_r.
  - rewrite Hu. rewrite decide_True by done.
    destruct (IH (members ++ [Member.mk_data (Some (User._id u)) None None
                                "member" "invited"])) as (rest & -> & Hlen & Hrest).
    rewrite <- app_assoc. eexists. split; [done|]. simpl. split; [by rewrite Hlen|].
    constructor; [|done]. split_and!; [done..|]. exists u. split; [|done].
    unfold findOne_user_by_email in Hu.
    apply fmap_Some in Hu as ([j u'] & Hfind & ->).
    apply list_find_Some in Hfind as (Hj & _). by eapply list_elem_of_lookup_2.
Qed.

(** X23. A team registration that passes the validation of the form passes
    the team checks of the create handler: when every picked member is an
    account other than the caller, found by its email, the handler builds
    the members from the data the page sends without an early answer; they
    are the leader and one invited account for each picked member, so
    their number is the one the form counted. *)
Theorem validated_form_passes_team_checks eventId event st db (userId : string) :
  Event.registration_mode event = team →
  snd (EventDetail.validateForm event st) = true →
  Forall (λ m, ∃ u, findOne_user_by_email (users db) (EventDetail.TeamMember.email m)
                    = Some u
                    ∧ User._id u ≠ userId) (EventDetail.teamMembers st) →
  ∃ rest,
    build_team db userId event (EventDetail.registrationData eventId event st)
    = Next (Member.mk_data (Some userId) None None "leader" "auto_added" :: rest)
    ∧ length rest = length (EventDetail.teamMembers st)
    ∧ Forall (λ d, Member.d_role d = "member" ∧ Member.d_invite_status d = "invited"
                   ∧ ∃ u, u ∈ users db ∧ Member.d_user_id d = Some (User._id u)) rest.
Proof.
  intros Hteam Hvalid Hms.
  unfold EventDetail.validateForm in Hvalid.
  rewrite (bool_decide_eq_true_2 _ Hteam) in Hvalid. simpl in Hvalid.
  destruct (bool_decide (trim (EventDetail.teamName st) = "")) eqn:Hname; [done|].
  destruct (_ <? Event.min_team_size event) eqn:Hmin; [done|].
  destruct (Event.max_team_size event <? _) eqn:Hmax; [done|].
  apply bool_decide_eq_false in Hname. apply Z.ltb_ge in Hmin, Hmax.
  destruct (push_team_members_info_resolved (users db) userId _
              [Member.mk_data (Some userId) None None "leader" "auto_added"] Hms)
    as (rest & Hpush & Hlen & Hrest).
  exists rest. split_and!; [|done..].
  unfold build_team, EventDetail.registrationData. csimpl.
  destruct (decide (Event.registration_mode event = team)) as [_|?]; [|done]. csimpl.
  assert (EventDetail.teamName st ≠ "") as Hne by (by intros Hn; rewrite Hn in Hname).
  rewrite (bool_decide_eq_false_2 _ Hne), (bool_decide_eq_false_2 _ Hname). csimpl.
  unfold assemble_members. csimpl. rewrite Hpush. csimpl.
  unfold check_team_size. csimpl. rewrite Hlen.
  assert (Z.of_nat (S (length (EventDetail.teamMembers st)))
          = Z.of_nat (length (EventDetail.teamMembers st)) + 1) as -> by lia.
  by rewrite (proj2 (Z.ltb_ge _ _) Hmin), (proj2 (Z.ltb_ge _ _) Hmax).
Qed.

Lemma validated_form_passes_team_checks_witness :
  ∃ rest,
    build_team (Scenario.db0 2 3) Scenario.lea_id (Scenario.hack_night 2 3)
      (EventDetail.registrationData Scenario.event_id (Scenario.hack_night 2 3)
         EventDetail.filled)
    = Next (Member.mk_data (Some Scenario.lea_id) None None "leader" "auto_added" :: rest)
    ∧ length rest = 1%nat.
Proof.
  destruct (validated_form_passes_team_checks Scenario.event_id (Scenario.hack_night 2 3)
              EventDetail.filled (Scenario.db0 2 3) Scenario.lea_id)
    as (rest & Hbuild & Hlen & _).
  - reflexivity.
  - vm_compute; reflexivity.
  - vm_compute. repeat constructor.
    eexists. split; [reflexivity|discriminate].
  - exists rest. split; [exact Hbuild|exact Hlen].
Defined.

(** * The remaining registration routes *)

(** X24. A successful answer on the member route is given by the account
    it is about.  It rewrites the first entry of that account, whatever
    its invite status was, to accepted or declined as asked and stamps the
    time of the answer; the other entries and the answers of the
    registration stay as they were; the status becomes confirmed when the
    accepted members are within the bounds of the event and stays as it
    was otherwise. *)
Theorem member_answer_stamps_own_entry env user registrationId memberId invite_status
    db db' msg reg' :
  put_member env user registrationId memberId invite_status db
  = (db', ok 200 msg (registration_payload reg')) →
  ∃ j reg n m event,
    registrations db !! j = Some reg
    ∧ names registrationId (Registration._id reg)
    ∧ userId user = memberId
    ∧ (invite_status = Some "accepted" ∨ invite_status = Some "declined")
    ∧ find_member (Registration.members reg) memberId = Some (n, m)
    ∧ event_of (events db) reg = Some event
    ∧ Registration.members reg'
      = <[n := Member.set_responded_at (now env)
                 (Member.set_invite_status
                    (if decide (invite_status = Some "accepted") then accepted
                     else declined) m)]> (Registration.members reg)
    ∧ same_registration_frame reg reg'
    ∧ Registration.status reg'
      = (if (Event.min_team_size event <=? accepted_count (Registration.members reg'))
            && (accepted_count (Registration.members reg') <=? Event.max_team_size event)
         then confirmed else Registration.status reg)
    ∧ db' = set_registrations (<[j := reg']> (registrations db)) db.
Proof.
  unfold put_member. intros Hput.
  apply handle_fails in Hput; [| |by intros; apply is_failure_fail].
  2:{ body_fails. }
  destruct Hput as [[_ Hfail]|Hput]; [by destruct (is_failure_not_ok _ Hfail)|].
  flow_inv.
  rename select (findById Registration._id _ _ = _) into Hreg.
  rename select (findById Event._id _ _ = _) into Hev.
  rename select (find_member _ _ = _) into Hmember.
  rename select (bool_decide (userId _ ≠ _) = false) into Hown.
  rename select (negb (_ || _) = false) into Hstatus.
  rename select (Registration_save _ _ _ = _) into Hsave.
  apply findById_event_of in Hev.
  apply findById_Next in Hreg as (oid & j & Hoid & Hfind).
  apply Registration_save_Next in Hsave as ->.
  pose proof Hfind as (Hj & Hid & _)%list_find_Some.
  apply bool_decide_eq_false in Hown. apply dec_stable in Hown.
  apply negb_false_iff, orb_true_iff in Hstatus.
  eexists j, _, _, _, _.
  match goal with |- context [replace_registration ?r _] =>
    rewrite (replace_registration_insert r _ oid j _ Hfind)
      by (done || by destruct (_ && _)) end.
  split_and!; try done.
  - unfold names. by rewrite Hoid, Hid.
  - destruct Hstatus as [?%bool_decide_eq_true|?%bool_decide_eq_true]; auto.
  - by destruct (_ && _).
  - by destruct (_ && _).
  - destruct (_ && _) eqn:Hbounds; simpl; by rewrite Hbounds.
Qed.

Lemma member_answer_stamps_own_entry_witness :
  ∃ db' reg',
    put_member Scenario.env_later Scenario.bob Scenario.registration_id Scenario.bob_id
      (Some "declined") Scenario.db_accepted
    = (db', ok 200 "Invitation declined" (registration_payload reg'))
    ∧ same_registration_frame
        (default reg' (Scenario.the_registration Scenario.db_accepted)) reg'.
Proof.
  eexists _, _. split; [vm_compute; reflexivity|].
  destruct (member_answer_stamps_own_entry Scenario.env_later Scenario.bob
              Scenario.registration_id Scenario.bob_id (Some "declined")
              Scenario.db_accepted _ _ _ ltac:(vm_compute; reflexivity))
    as (j & reg & n & m & event & Hj & _ & _ & _ & _ & _ & _ & Hframe & _).
  destruct j as [|[|j]]; [|vm_compute in Hj; discriminate Hj..].
  vm_compute in Hj. injection Hj as <-. exact Hframe.
Defined.

Lemma some_member_is_true {R} users userId members :
  some_member_is (R := R) users userId members = Next true →
  Exists (λ m, Member.user_id m = userId) members.
Proof.
  induction members as [|m members IH]; simpl; [done|].
  destruct (user_exists users (Member.user_id m)); [|done].
  destruct (decide (Member.user_id m = userId)); [by left|].
  intros Hrest. right. by apply IH.
Qed.

Lemma some_member_is_all_exist {R} users userId members :
  Forall (λ m, user_exists users (Member.user_id m) = true) members →
  some_member_is (R := R) users userId members
  = Next (bool_decide (Exists (λ m, Member.user_id m = userId) members)).
Proof.
  induction 1 as [|m members Hm _ IH]; simpl; [done|].
  rewrite Hm. destruct (decide (Member.user_id m = userId)) as [Heq|Hne].
  - by rewrite bool_decide_eq_true_2 by by left.
  - rewrite IH. f_equal. apply bool_decide_ext. rewrite Exists_cons. tauto.
Qed.

(** X25. A registration is shown only to the organizer of its event, to
    its leader, to an account listed among its members, whatever its
    invite status, or to an administrator, and nothing is written.  When
    the accounts of the leader and of the members are stored, each of
    these callers is shown the registration. *)
Theorem registration_view_needs_a_tie user registrationId db :
  (∀ db' r,
     get_registration user registrationId db = (db', r) →
     success r = true →
     db' = db
     ∧ ∃ reg,
         findById (R := Response) Registration._id (registrations db) registrationId
         = Next (Some reg)
         ∧ r = ok 200 "" (registration_payload reg)
         ∧ ((∃ event, event_of (events db) reg = Some event
                      ∧ Event.organizer_id event = userId user)
            ∨ Registration.leader_user_id reg = userId user
            ∨ Exists (λ m, Member.user_id m = userId user) (Registration.members reg)
            ∨ user_role user = "admin"))
  ∧ (∀ reg,
       findById (R := Response) Registration._id (registrations db) registrationId
       = Next (Some reg) →
       user_exists (users db) (Registration.leader_user_id reg) = true →
       Forall (λ m, user_exists (users db) (Member.user_id m) = true)
         (Registration.members reg) →
       is_Some (castObjectId (Registration.event_id reg)) →
       (∃ event, event_of (events db) reg = Some event
                 ∧ Event.organizer_id event = userId user)
       ∨ Registration.leader_user_id reg = userId user
       ∨ Exists (λ m, Member.user_id m = userId user) (Registration.members reg)
       ∨ user_role user = "admin" →
       get_registration user registrationId db
       = (db, ok 200 "" (registration_payload reg))).
Proof.
  split.
  - unfold get_registration. intros db' r Hget Hok.
    apply handle_fails in Hget; [| |by intros; apply is_failure_fail].
    2:{ apply returns_failures_bind; [by apply returns_failures_return_if|intros _].
        apply returns_failures_bind; [apply returns_failures_findById|].
        intros [reg|]; [|by apply is_failure_fail].
        apply returns_failures_bind; [apply returns_failures_findById|intros event].
        apply returns_failures_bind; [by destruct (user_exists _ _)|intros isLeader].
        apply returns_failures_bind; [|intros isMember].
        { clear. induction (Registration.members reg) as [|m ms IH]; simpl; [done|].
          destruct (user_exists _ _); [|done]. by destruct (decide _). }
        apply returns_failures_bind; [by apply returns_failures_return_if|done]. }
    destruct Hget as [[_ Hfail]|Hget]; [by destruct (is_failure_not_ok _ Hfail)|].
    apply bind_Next_inv in Hget as ([] & _ & Hget).
    apply bind_Next_inv in Hget as (found & Hfound & Hget).
    destruct found as [reg|]; [|done].
    apply bind_Next_inv in Hget as (event & Hevent & Hget).
    apply bind_Next_inv in Hget as (isLeader & HisLeader & Hget).
    apply bind_Next_inv in Hget as (isMember & HisMember & Hget).
    apply bind_Next_inv in Hget as ([] & Hauth%return_if_Next & Hget).
    injection Hget as <- <-. split; [done|]. exists reg. split_and!; [done..|].
    destruct (user_exists _ _); [|done]. injection HisLeader as <-.
    destruct event as [event|].
    + apply findById_event_of in Hevent.
      destruct (bool_decide (Event.organizer_id event = userId user)) eqn:Horg.
      { left. apply bool_decide_eq_true in Horg. eauto. }
      destruct (bool_decide (Registration.leader_user_id reg = userId user)) eqn:Hld.
      { right; left. by apply bool_decide_eq_true in Hld. }
      destruct isMember.
      { right; right; left. by eapply some_member_is_true. }
      simpl in Hauth. apply negb_false_iff, bool_decide_eq_true in Hauth. auto.
    + destruct (bool_decide (Registration.leader_user_id reg = userId user)) eqn:Hld.
      { right; left. by apply bool_decide_eq_true in Hld. }
      destruct isMember.
      { right; right; left. by eapply some_member_is_true. }
      simpl in Hauth. apply negb_false_iff, bool_decide_eq_true in Hauth. auto.
  - intros reg Hfound Hleader Hmembers [oid Hoid] Htie. unfold get_registration.
    assert (isValidObjectId registrationId = true) as ->.
    { apply findById_Next in Hfound as (? & _ & Hcast & _).
      unfold castObjectId in Hcast. by destruct (isValidObjectId registrationId). }
    simpl. rewrite Hfound. simpl.
    unfold findById at 1. rewrite Hoid. simpl.
    rewrite Hleader. simpl.
    rewrite (some_member_is_all_exist _ _ _ Hmembers). simpl.
    set (event := snd <$> list_find (λ d, Event._id d = oid) (events db)).
    assert (event_of (events db) reg = event) as Hevent.
    { unfold event_of. by rewrite Hoid. }
    assert (negb (match event with
                  | Some event => bool_decide (Event.organizer_id event = userId user)
                  | None => false
                  end)
            && negb (bool_decide (Registration.leader_user_id reg = userId user))
            && negb (bool_decide (Exists (λ m, Member.user_id m = userId user)
                                    (Registration.members reg)))
            && negb (bool_decide (user_role user = "admin")) = false) as ->; [|done].
    destruct Htie as [(ev & Hev & Horg)|[Hld|[Hm|Hadmin]]].
    + rewrite <- Hevent, Hev. by rewrite (bool_decide_eq_true_2 _ Horg).
    + rewrite (bool_decide_eq_true_2 _ Hld). simpl. by rewrite andb_false_r.
    + rewrite (bool_decide_eq_true_2 _ Hm). simpl. by rewrite andb_false_r.
    + rewrite (bool_decide_eq_true_2 _ Hadmin). simpl. by rewrite andb_false_r.
Qed.

Lemma registration_view_needs_a_tie_witness :
  ∃ reg,
    Scenario.the_registration Scenario.db_team = Some reg
    ∧ get_registration Scenario.org Scenario.registration_id Scenario.db_team
      = (Scenario.db_team, ok 200 "" (registration_payload reg)).
Proof.
  destruct (Scenario.the_registration Scenario.db_team) as [reg|] eqn:Hreg;
    [|vm_compute in Hreg; discriminate Hreg].
  exists reg. split; [done|].
  vm_compute in Hreg. injection Hreg as <-.
  apply (proj2 (registration_view_needs_a_tie Scenario.org Scenario.registration_id
                  Scenario.db_team)).
  - vm_compute; reflexivity.
  - vm_compute; reflexivity.
  - repeat constructor.
  - vm_compute. eauto.
  - left. exists (Scenario.hack_night 2 4). split; vm_compute; reflexivity.
Defined.

(** * Events and registrations together *)

Lemma list_find_insert_same_key {D} (key : D → ObjectId) oid (l : list D) j x y :
  list_find (λ d, key d = oid) l = Some (j, x) →
  key y = oid →
  list_find (λ d, key d = oid) (<[j := y]> l) = Some (j, y).
Proof.
  intros (Hj & Hx & Hfirst)%list_find_Some Hy.
  apply list_find_Some. split_and!; [|done|].
  - rewrite list_lookup_insert_eq; [done|by eapply lookup_lt_Some].
  - intros i z Hi Hlt. rewrite list_lookup_insert_ne in Hi by lia. by eapply Hfirst.
Qed.

Lemma stays_cancelled_refl oid db : stays_cancelled oid db db.
Proof. intros i e Hi. by exists e. Qed.

Lemma stays_cancelled_same oid db db' :
  events db' = events db → stays_cancelled oid db db'.
Proof. intros Hsame i e Hi. exists e. by rewrite Hsame. Qed.

Lemma stays_cancelled_trans oid db1 db2 db3 :
  stays_cancelled oid db1 db2 → stays_cancelled oid db2 db3 → stays_cancelled oid db1 db3.
Proof.
  intros H12 H23 i e Hi.
  destruct (H12 i e Hi) as (e' & Hi' & Hid' & Hst').
  destruct (H23 i e' Hi') as (e'' & Hi'' & Hid'' & Hst'').
  exists e''. split_and!; [done|congruence|].
  intros Hoid Hst. apply Hst''; [congruence|by apply Hst'].
Qed.

Lemma stays_cancelled_insert oid db j e e' :
  events db !! j = Some e →
  Event._id e' = Event._id e →
  (Event._id e = oid → Event.event_status e = ev_cancelled →
   Event.event_status e' = ev_cancelled) →
  stays_cancelled oid db (set_events (<[j := e']> (events db)) db).
Proof.
  intros Hj Hid Hst i e0 Hi. simpl.
  destruct (decide (i = j)) as [->|Hne].
  - exists e'. rewrite list_lookup_insert_eq by by eapply lookup_lt_Some.
    by simplify_eq.
  - exists e0. by rewrite list_lookup_insert_ne.
Qed.

Lemma put_event_cases env user eventId body db db' r :
  put_event env user eventId body db = (db', r) →
  db' = db ∨ ∃ e', r = ok 200 "Event updated successfully" (event_payload e').
Proof.
  unfold put_event. intros [->|Hput]%handle_inv; [by left|].
  right. flow_inv; eauto.
Qed.

Lemma put_event_stays_cancelled oid env user eventId body db :
  (castObjectId eventId = Some oid →
   from_option (λ s, s = "cancelled") True (UpdateBody.event_status body)) →
  stays_cancelled oid db (fst (put_event env user eventId body db)).
Proof.
  intros Hkeeps.
  destruct (put_event env user eventId body db) as [db' r] eqn:Hput. simpl.
  destruct (put_event_cases _ _ _ _ _ _ _ Hput) as [->|[e' ->]];
    [apply stays_cancelled_refl|].
  apply put_event_inv in Hput
    as (j & event & _ & Hj & Hname & _ & -> & -> & _ & _ & _ & Hframe).
  apply stays_cancelled_insert with event; [done|done|].
  intros Hoid Hst. simpl. rewrite Hst.
  destruct (UpdateBody.event_status body) as [s|] eqn:Hs; [|done].
  rewrite Hkeeps; [done|]. unfold names in Hname. congruence.
Qed.

Lemma delete_event_stays_cancelled oid env user eventId db :
  stays_cancelled oid db (fst (delete_event env user eventId db)).
Proof.
  destruct (delete_event env user eventId db) as [db' r] eqn:Hdel. simpl.
  apply delete_event_inv in Hdel as [[-> _]|(j & event & Hj & _ & -> & _)];
    [apply stays_cancelled_refl|].
  by apply stays_cancelled_insert with event.
Qed.

Lemma post_events_stays_cancelled oid env uuid user body db :
  stays_cancelled oid db (fst (post_events env uuid user body db)).
Proof.
  destruct (post_events env uuid user body db) as [db' r] eqn:Hpost. simpl.
  apply post_events_inv in Hpost as [->|[e ->]]; [apply stays_cancelled_refl|].
  intros i e0 Hi. exists e0. split; [|done]. simpl. by apply lookup_app_l_Some.
Qed.

Lemma stays_cancelled_find oid db db' j e :
  stays_cancelled oid db db' →
  list_find (λ e, Event._id e = oid) (events db) = Some (j, e) →
  Event.event_status e = ev_cancelled →
  ∃ e', list_find (λ e, Event._id e = oid) (events db') = Some (j, e')
        ∧ Event.event_status e' = ev_cancelled.
Proof.
  intros Hstays (Hj & Hid & Hfirst)%list_find_Some Hst.
  destruct (Hstays j e Hj) as (e' & Hj' & Hid' & Hst').
  exists e'. split; [|by apply Hst'].
  apply list_find_Some. split_and!; [done|congruence|].
  intros i z' Hi Hlt.
  destruct (lookup_lt_is_Some_2 (events db) i) as [z Hz].
  { apply lookup_lt_Some in Hj. lia. }
  destruct (Hstays i z Hz) as (z'' & Hz'' & Hidz & _).
  assert (z'' = z') as -> by congruence.
  rewrite Hidz. by eapply Hfirst.
Qed.

Lemma delete_event_Next env user eventId db db' r :
  delete_event env user eventId db = (db', r) →
  success r = true →
  ∃ oid j event,
    castObjectId eventId = Some oid
    ∧ list_find (λ e, Event._id e = oid) (events db) = Some (j, event)
    ∧ db' = set_events
              (<[j := Event.set_updated_at (now env)
                        (Event.set_event_status ev_cancelled event)]> (events db)) db.
Proof.
  unfold delete_event. intros Hdel Hok.
  apply handle_fails in Hdel; [| |by intros; apply is_failure_fail].
  2:{ apply returns_failures_bind; [by apply returns_failures_return_if|intros _].
      apply returns_failures_bind; [apply returns_failures_findById|].
      intros [event|]; [|by apply is_failure_fail].
      apply returns_failures_bind; [by apply returns_failures_return_if|intros _].
      by apply Event_save_fails; intros [? ?]. }
  destruct Hdel as [[_ Hfail]|Hdel]; [by destruct (is_failure_not_ok _ Hfail)|].
  flow_inv.
  rename select (findById Event._id _ _ = _) into Hev.
  rename select (Event_save _ _ _ _ = _) into Hsave.
  apply findById_Next in Hev as (oid & j & Hoid & Hfind).
  apply Event_save_Next in Hsave as [-> ->].
  pose proof Hfind as (Hj & Hid & _)%list_find_Some.
  exists oid, j, t. split_and!; [done..|].
  by rewrite (replace_event_insert _ _ oid j _ Hfind).
Qed.

Section CancelledEvent.
Context {casts : SchemaCast}.

Lemma step_stays_cancelled oid eventId env user req db :
  castObjectId eventId = Some oid →
  keeps_cancelled eventId req →
  stays_cancelled oid db (fst (step env user req db)).
Proof.
  intros Hoid Hkeeps.
  destruct req; simpl;
    eauto using delete_event_stays_cancelled, post_events_stays_cancelled,
      stays_cancelled_same, put_invitation_events, post_members_events,
      delete_member_events, put_member_events, delete_registration_events,
      get_registrations_events, get_pending_invitations_events,
      get_registration_events.
  - destruct (post_registrations_effect env user body db) as [->|(new & -> & _)];
      [apply stays_cancelled_refl|by apply stays_cancelled_same].
  - apply put_event_stays_cancelled. intros Hid. apply Hkeeps. congruence.
Qed.

Lemma run_stays_cancelled oid eventId reqs db :
  castObjectId eventId = Some oid →
  Forall (λ q, keeps_cancelled eventId q.2) reqs →
  stays_cancelled oid db (run reqs db).
Proof.
  intros Hoid Hreqs. revert db.
  induction Hreqs as [|[[env user] req] reqs Hreq _ IH]; intros db; simpl.
  - apply stays_cancelled_refl.
  - eapply stays_cancelled_trans; [by eapply step_stays_cancelled|apply IH].
Qed.

(** X26. A cancel of an event leaves every registration as it was.  From
    then on, over every sequence of requests in which no update of that
    event names a status other than cancelled, every create for that
    event is refused with the answer that registration is not open, and
    stores nothing. *)
Theorem cancelled_event_takes_no_registrations env user eventId db db' r reqs :
  delete_event env user eventId db = (db', r) →
  success r = true →
  Forall (λ q, keeps_cancelled eventId q.2) reqs →
  registrations db' = registrations db
  ∧ ∀ env' user' body,
      castObjectId (CreateBody.event_id body) = castObjectId eventId →
      post_registrations env' user' body (run reqs db')
      = (run reqs db', fail 400 "Registration is not open for this event").
Proof.
  intros Hdel Hok Hreqs.
  destruct (delete_event_Next _ _ _ _ _ _ Hdel Hok) as (oid & j & event & Hoid & Hfind & ->).
  split; [done|].
  intros env' user' body Hbody.
  pose proof Hfind as (Hj & Hid & _)%list_find_Some.
  set (db' := set_events _ db).
  assert (list_find (λ e, Event._id e = oid) (events db')
          = Some (j, Event.set_updated_at (now env)
                       (Event.set_event_status ev_cancelled event))) as Hfind'.
  { by apply list_find_insert_same_key with event. }
  destruct (stays_cancelled_find oid db' (run reqs db') j _
              (run_stays_cancelled oid eventId reqs db' Hoid Hreqs) Hfind' eq_refl)
    as (e'' & Hfind'' & Hst).
  unfold post_registrations, check_preconditions, findById.
  rewrite Hbody, Hoid. simpl. rewrite Hfind''. simpl.
  unfold is_open_status. rewrite Hst. done.
Qed.
End CancelledEvent.

Lemma cancelled_event_takes_no_registrations_witness :
  post_registrations (casts := strict_cast) Scenario.env_later Scenario.cy
    Scenario.body_alone
    (run (casts := strict_cast) More.after_cancel
       (fst (delete_event Scenario.env Scenario.org Scenario.event_id Scenario.db_team)))
  = (run (casts := strict_cast) More.after_cancel
       (fst (delete_event Scenario.env Scenario.org Scenario.event_id Scenario.db_team)),
     fail 400 "Registration is not open for this event").
Proof.
  refine (proj2 (cancelled_event_takes_no_registrations (casts := strict_cast)
                   Scenario.env Scenario.org Scenario.event_id Scenario.db_team _
                   (ok 200 "Event cancelled successfully" no_payload)
                   More.after_cancel _ _ _) _ _ _ _).
  - vm_compute; reflexivity.
  - reflexivity.
  - apply (bool_decide_unpack _). vm_compute. exact I.
  - reflexivity.
Defined.

(** The restriction on the updates is needed: once the organizer has
    published the cancelled event again, a create for it is served. *)
Example republished_event_takes_registrations :
  status_code
    (snd (post_registrations (casts := strict_cast) Scenario.env Scenario.lea
            Scenario.body_with_bob
            (run (casts := strict_cast)
               [ (Scenario.env, Scenario.org,
                  PUT_event Scenario.event_id More.body_republish) ]
               (fst (delete_event Scenario.env Scenario.org Scenario.event_id
                       (Scenario.db0 2 4))))))
  = 201.
Proof. vm_compute. reflexivity. Qed.

(** ** The capacity of an event *)

Lemma active_count_insert (P : Registration.t → Prop) `{∀ r, Decision (P r)}
    (rs : list Registration.t) j reg reg' :
  rs !! j = Some reg →
  ¬ P reg' →
  Z.of_nat (length (filter P (<[j := reg']> rs)))
  = Z.of_nat (length (filter P rs)) - (if decide (P reg) then 1 else 0).
Proof.
  intros Hj Hreg'.
  rewrite insert_take_drop by by eapply lookup_lt_Some.
  rewrite <- (take_drop_middle rs j reg Hj) at 3.
  rewrite !filter_app, !length_app, (filter_cons_False _ reg') by done.
  destruct (decide (P reg)).
  - rewrite filter_cons_True by done. simpl. lia.
  - rewrite filter_cons_False by done. lia.
Qed.

(** X27. A cancelled registration no longer counts toward the capacity of
    its event: after a successful cancel the number of pending and
    confirmed registrations of an event, as the create handler counts
    them, is one less for the event of a registration that was pending or
    confirmed, and as before for every other event and for a registration
    that was waitlisted, rejected or cancelled already. *)
Theorem cancel_frees_capacity user registrationId db db' r :
  delete_registration user registrationId db = (db', r) →
  success r = true →
  ∃ reg,
    findById (R := Response) Registration._id (registrations db) registrationId
    = Next (Some reg)
    ∧ ∀ event_id e n,
        castObjectId event_id = Some e →
        count_active_registrations (R := Response) (registrations db) event_id = Next n →
        count_active_registrations (R := Response) (registrations db') event_id
        = Next (n - (if decide (Registration.event_id reg = e
                                ∧ (Registration.status reg = pending
                                   ∨ Registration.status reg = confirmed))
                     then 1 else 0)).
Proof.
  unfold delete_registration. intros Hdel Hok.
  apply handle_fails in Hdel; [| |by intros; apply is_failure_fail].
  2:{ body_fails. }
  destruct Hdel as [[_ Hfail]|Hdel]; [by destruct (is_failure_not_ok _ Hfail)|].
  flow_inv.
  rename select (findById Registration._id _ _ = _) into Hreg.
  rename select (Registration_save _ _ _ = _) into Hsave.
  exists t. split; [done|].
  apply findById_Next in Hreg as (oid & j & Hoid & Hfind).
  apply Registration_save_Next in Hsave as ->.
  pose proof Hfind as (Hj & Hid & _)%list_find_Some.
  intros event_id e n He. unfold count_active_registrations. rewrite He.
  intros [= <-]. f_equal. simpl.
  rewrite (replace_registration_insert _ _ oid j _ Hfind) by done.
  rewrite (active_count_insert
             (λ r, Registration.event_id r = e
                   ∧ (Registration.status r = pending ∨ Registration.status r = confirmed))
             _ j t _ Hj)
    by (simpl; intros [_ [?|?]]; done).
  by repeat case_decide.
Qed.

Lemma cancel_frees_capacity_witness :
  count_active_registrations (R := Response) (registrations Scenario.db_team)
    Scenario.event_id = Next 1
  ∧ count_active_registrations (R := Response) (registrations Scenario.db_cancelled)
      Scenario.event_id = Next 0.
Proof.
  split; [vm_compute; reflexivity|].
  destruct (cancel_frees_capacity Scenario.lea Scenario.registration_id Scenario.db_team
              Scenario.db_cancelled (ok 200 "Registration cancelled successfully" no_payload))
    as (reg & Hreg & Hcount).
  - vm_compute; reflexivity.
  - reflexivity.
  - rewrite (Hcount Scenario.event_id Scenario.event_id 1); [|vm_compute; reflexivity..].
    vm_compute in Hreg. injection Hreg as <-. vm_compute; reflexivity.
Defined.
